(** * paperless_mail/mail.py: the rule-driven mail ingestion engine

    A shallow embedding of [src/paperless_mail/mail.py] and the properties
    of it that the specification states.

    Conventions of the embedding.
    - A Python [str] is a Rocq [string]; its characters are read as the code
      points U+0000..U+00FF.  A Python [bytes] is a [list Byte.byte].
    - A Python [dict] used as keyword arguments is a [gmap string _].
    - A [datetime.date] is its proleptic Gregorian ordinal
      ([date.toordinal()]), an integer between 1 and 3652059; arithmetic
      that leaves this range raises [OverflowError].
    - Code that can raise returns an [outcome]; code that talks to the
      mailbox, the database, the file system or the task queue runs in the
      monad [prog], which threads the state of the outside world, records
      every call in a trace, and propagates exceptions.  The world decides
      whether a call returns or raises; only logging and the release of
      the mailbox session at the end of the [with] block always return.
    - [imap_tools.AND] and [imap_tools.NOT] are constructors of a query
      term; what a server makes of a query is not part of mail.py. *)

From Stdlib Require Import ZArith Ascii String List Bool Lia.
From stdpp Require Import base option list strings pretty gmap fin_maps sorting.

#[local] Set Warnings "-register-all".

Local Open Scope string_scope.
Local Open Scope list_scope.
Local Open Scope Z_scope.

(** ** Exceptions *)

(** The classes of [Exception] the module raises, catches, or lets pass.
    [OtherException] stands for every other subclass of [Exception]
    (socket errors, [imaplib.IMAP4.error], [OSError], ...). *)
Inductive exn_class : Type :=
  | UnicodeEncodeError
  | MailboxFolderSelectError
  | DatabaseError
  | OverflowError
  | MailError
  | OtherException.

(** An exception value: its class and the text [str(e)] yields. *)
Inductive exn : Type :=
  | Exn (c : exn_class) (msg : string).

Definition class_of (e : exn) : exn_class := let 'Exn c _ := e in c.
Definition str_exn (e : exn) : string := let 'Exn _ msg := e in msg.

Inductive outcome (A : Type) : Type :=
  | Ok (a : A)
  | Raise (e : exn).
Arguments Ok {A} a.
Arguments Raise {A} e.

Definition is_class (c : exn_class) (e : exn) : bool :=
  match c, class_of e with
  | UnicodeEncodeError, UnicodeEncodeError
  | MailboxFolderSelectError, MailboxFolderSelectError
  | DatabaseError, DatabaseError
  | OverflowError, OverflowError
  | MailError, MailError
  | OtherException, OtherException => true
  | _, _ => false
  end.

(** ** Data model

    mail.py imports [MailAccount] and [MailRule] from paperless_mail/models.py,
    which is not among the sources at hand; the types below carry the
    attributes mail.py reads, with the value sets the specification gives
    them (section 3, Data model). *)

(** Modelled from the spec: [MailRule.MailAction], the action kinds
    Delete, Move, MarkRead, Flag and Tag. *)
Inductive MailAction : Type := DELETE | MOVE | MARK_READ | FLAG | TAG.

(** Modelled from the spec: [MailAccount.ImapSecurity], the transport
    security modes None, SSL and STARTTLS. *)
Inductive ImapSecurity : Type := NONE | SSL | STARTTLS.

(** Modelled from the spec: [MailRule.AttachmentProcessing], the
    attachment scopes attachments-only and all parts. *)
Inductive AttachmentProcessing : Type := ATTACHMENTS_ONLY | EVERYTHING.

(** Modelled from the spec: [MailRule.TitleSource], from-subject and
    from-filename. *)
Inductive TitleSource : Type := FROM_SUBJECT | FROM_FILENAME.

(** Modelled from the spec: [MailRule.CorrespondentSource], none,
    from-email-address, from-display-name and fixed-custom. *)
Inductive CorrespondentSource : Type :=
  | FROM_NOTHING | FROM_EMAIL | FROM_NAME | FROM_CUSTOM.

(** Modelled from the spec: [MailAccount], with the attributes mail.py
    reads. *)
Record MailAccount : Type := {
  account_str : string;          (* str(account) *)
  imap_server : string;
  imap_port : Z;
  imap_security : ImapSecurity;
  username : string;
  password : string;
  character_set : string;
}.

(** Modelled from the spec: [documents.models.Correspondent] and
    [DocumentType]; mail.py reads their [id]. *)
Record Correspondent : Type := { correspondent_id : Z }.
Record DocumentType : Type := { document_type_id : Z }.

(** Modelled from the spec: [MailRule], with the attributes mail.py reads;
    an optional filter is [None] when the rule has none. *)

Record MailRule : Type := {
  rule_str : string;             (* str(rule) *)
  account : MailAccount;
  order : Z;
  folder : string;
  maximum_age : Z;
  filter_from : option string;
  filter_subject : option string;
  filter_body : option string;
  filter_attachment_filename : option string;
  attachment_type : AttachmentProcessing;
  action : MailAction;
  action_parameter : string;
  assign_title_from : TitleSource;
  assign_correspondent_from : CorrespondentSource;
  assign_correspondent : option Correspondent;
  assign_document_type : option DocumentType;
  assign_tags : list Z;          (* [tag.id for tag in rule.assign_tags.all()] *)
}.

(** Truth value of an optional string in a Python [if]: [None] and the
    empty string are false. *)
Definition truthy (o : option string) : bool :=
  match o with
  | Some s => negb (String.eqb s "")
  | None => false
  end.

(** ** Search criteria *)

(** The values mail.py stores in a criteria dict. *)
Inductive crit_value : Type :=
  | VDate (ordinal : Z)
  | VStr (s : string)
  | VBool (b : bool).

(** [imap_tools.AND] and [imap_tools.NOT]: positional sub-clauses and
    keyword parameters. *)
Inductive imap_query : Type :=
  | AND (clauses : list imap_query) (params : gmap string crit_value)
  | NOT (clauses : list imap_query) (params : gmap string crit_value).

(** ** datetime.date arithmetic *)

Definition date_min_ordinal : Z := 1.          (* date.min = 0001-01-01 *)
Definition date_max_ordinal : Z := 3652059.    (* date.max = 9999-12-31 *)
Definition timedelta_max_days : Z := 999999999.

(** [timedelta(days=n)] *)
Definition timedelta (days : Z) : outcome Z :=
  if Z.abs days <=? timedelta_max_days then Ok days
  else Raise (Exn OverflowError
                ("days=" +:+ pretty days +:+ "; must have magnitude <= 999999999")).

(** [d - delta] for a date [d] *)
Definition date_sub (d delta : Z) : outcome Z :=
  let o := d - delta in
  if (date_min_ordinal <=? o) && (o <=? date_max_ordinal) then Ok o
  else Raise (Exn OverflowError "date value out of range").

(** ** Rule actions *)

(** The five action classes of mail.py; [TagMailAction] holds its
    [keyword]. *)
Inductive RuleAction : Type :=
  | FlagMailAction
  | DeleteMailAction
  | MoveMailAction
  | MarkReadMailAction
  | TagMailAction (keyword : string).

(** [get_rule_action(rule)] *)
Definition get_rule_action (rule : MailRule) : RuleAction :=
  match action rule with
  | FLAG => FlagMailAction
  | DELETE => DeleteMailAction
  | MOVE => MoveMailAction
  | MARK_READ => MarkReadMailAction
  | TAG => TagMailAction (action_parameter rule)
  end.

(** The method [get_criteria] of the action classes: the pre-filter. *)
Definition get_criteria (a : RuleAction) : gmap string crit_value :=
  match a with
  | DeleteMailAction => ∅
  | MoveMailAction => ∅
  | MarkReadMailAction => {[ "seen" := VBool false ]}
  | FlagMailAction => {[ "flagged" := VBool false ]}
  | TagMailAction keyword =>
      <[ "no_keyword" := VStr keyword ]> {[ "gmail_label" := VStr keyword ]}
  end.

(** [d[k] = v] when [cond] holds *)
Definition set_if (cond : bool) (k : string) (v : crit_value)
    (d : gmap string crit_value) : gmap string crit_value :=
  if cond then <[ k := v ]> d else d.

Definition set_filter (k : string) (f : option string)
    (d : gmap string crit_value) : gmap string crit_value :=
  match f with
  | Some s => set_if (truthy f) k (VStr s) d
  | None => d
  end.

(** [make_criterias(rule)], with [date.today()] passed as [today]. *)
Definition make_criterias (today : Z) (rule : MailRule)
  : outcome (gmap string crit_value) :=
  match timedelta (maximum_age rule) with
  | Raise e => Raise e
  | Ok delta =>
    match date_sub today delta with
    | Raise e => Raise e
    | Ok age_limit =>
      let criterias := ∅ in
      let criterias :=
        set_if (0 <? maximum_age rule) "date_gte" (VDate age_limit) criterias in
      let criterias := set_filter "from_" (filter_from rule) criterias in
      let criterias := set_filter "subject" (filter_subject rule) criterias in
      let criterias := set_filter "body" (filter_body rule) criterias in
      (* {**criterias, **get_rule_action(rule).get_criteria()}: the right
         operand wins *)
      Ok (get_criteria (get_rule_action rule) ∪ criterias)
    end
  end.

(** The part of [handle_mail_rule] that turns the criteria dict into the
    query handed to [M.fetch]. *)
Definition criterias_imap (criterias : gmap string crit_value) : imap_query :=
  match criterias !! "gmail_label" with
  | Some gmail_label =>
      let criterias := delete "gmail_label" criterias in
      AND [NOT [] {[ "gmail_label" := gmail_label ]}] criterias
  | None => AND [] criterias
  end.

(** ** Strings *)

Definition LF : ascii := "010"%char.

(** [s] with [lit] removed from its front, when [s] starts with [lit]. *)
Fixpoint strip_prefix (lit s : string) : option string :=
  match lit, s with
  | EmptyString, _ => Some s
  | String a lit', String b s' =>
      if Ascii.eqb a b then strip_prefix lit' s' else None
  | String _ _, EmptyString => None
  end.

(** The regular-expression anchor [$] (no MULTILINE flag): the end of the
    string, or just before a line feed that ends the string. *)
Definition at_dollar (rest : string) : bool :=
  match rest with
  | EmptyString => true
  | String c EmptyString => Ascii.eqb c LF
  | _ => false
  end.

(** [re.match(r"gmail\.com$|googlemail\.com$", s)]: the pattern tried at the
    start of [s]. *)
Definition gmail_pattern_at (s : string) : bool :=
  match strip_prefix "gmail.com" s with
  | Some rest => at_dollar rest
  | None => false
  end
  || match strip_prefix "googlemail.com" s with
     | Some rest => at_dollar rest
     | None => false
     end.

(** [re.search(r"gmail\.com$|googlemail\.com$", host)] is not [None]: the
    pattern tried at every position of [host]. *)
Fixpoint re_search_gmail (host : string) : bool :=
  gmail_pattern_at host
  || match host with
     | EmptyString => false
     | String _ host' => re_search_gmail host'
     end.

(** [str.lower()] on one character: the capital letters of U+0000..U+00FF
    are A..Z and U+00C0..U+00DE without the multiplication sign U+00D7. *)
Definition is_upper (c : ascii) : bool :=
  let n := N_of_ascii c in
  ((65 <=? n) && (n <=? 90) || (192 <=? n) && (n <=? 222) && negb (n =? 215))%N.

Definition lower_char (c : ascii) : ascii :=
  if is_upper c then ascii_of_N (N_of_ascii c + 32) else c.

(** [s.lower()] *)
Fixpoint lower (s : string) : string :=
  match s with
  | EmptyString => EmptyString
  | String c s' => String (lower_char c) (lower s')
  end.

(** [s.encode("utf8")], for the code points U+0000..U+00FF. *)
Definition utf8_char (c : ascii) : list Byte.byte :=
  let n := N_of_ascii c in
  if (n <? 128)%N then [byte_of_ascii c]
  else [byte_of_ascii (ascii_of_N (192 + n / 64));
        byte_of_ascii (ascii_of_N (128 + n mod 64))].

Fixpoint encode_utf8 (s : string) : list Byte.byte :=
  match s with
  | EmptyString => []
  | String c s' => utf8_char c ++ encode_utf8 s'
  end.

(** ** fnmatch *)

(** What [fnmatch.translate] makes of a pattern: a sequence of these. *)
Inductive glob_item : Type :=
  | GSingle (c : ascii)
  | GRange (lo hi : ascii).

Inductive glob_tok : Type :=
  | GStar                                        (* [*] *)
  | GAny                                         (* [?] *)
  | GClass (negated : bool) (items : list glob_item)   (* [[seq]], [[!seq]] *)
  | GLit (c : ascii).

(** The text between [[] and the closing []]: an exclamation mark and a
    closing bracket that come first do not close the class.  [None] when
    no bracket closes it. *)
Fixpoint until_bracket (s : list ascii) : option (list ascii) :=
  match s with
  | [] => None
  | c :: s' =>
      if Ascii.eqb c "]" then Some []
      else option_map (cons c) (until_bracket s')
  end.

Definition bracket_first (s : list ascii) : option (list ascii) :=
  match s with
  | c :: s' =>
      if Ascii.eqb c "]" then option_map (cons c) (until_bracket s')
      else until_bracket s
  | [] => None
  end.

Definition bracket_stuff (s : list ascii) : option (list ascii) :=
  match s with
  | c :: s' =>
      if Ascii.eqb c "!" then option_map (cons c) (bracket_first s')
      else bracket_first s
  | [] => None
  end.

(** The members of a class: [lo-hi] is a range, a hyphen elsewhere is
    itself. *)
Fixpoint class_items (s : list ascii) : list glob_item :=
  match s with
  | lo :: ((h :: hi :: s') as rest) =>
      if Ascii.eqb h "-" then GRange lo hi :: class_items s'
      else GSingle lo :: class_items rest
  | c :: s' => GSingle c :: class_items s'
  | [] => []
  end.

Definition class_of_stuff (stuff : list ascii) : glob_tok :=
  match stuff with
  | c :: stuff' =>
      if Ascii.eqb c "!" then GClass true (class_items stuff')
      else GClass false (class_items stuff)
  | [] => GClass false []
  end.

(** [fnmatch.translate(pat)]; [skip] counts the characters of a class
    already consumed. *)
Fixpoint translate_from (skip : nat) (pat : list ascii) : list glob_tok :=
  match pat with
  | [] => []
  | c :: rest =>
      match skip with
      | S k => translate_from k rest
      | O =>
          if Ascii.eqb c "*" then GStar :: translate_from 0 rest
          else if Ascii.eqb c "?" then GAny :: translate_from 0 rest
          else if Ascii.eqb c "[" then
            match bracket_stuff rest with
            | Some stuff =>
                class_of_stuff stuff :: translate_from (S (length stuff)) rest
            | None => GLit c :: translate_from 0 rest
            end
          else GLit c :: translate_from 0 rest
      end
  end.

Definition translate (pat : string) : list glob_tok :=
  translate_from 0 (list_ascii_of_string pat).

Definition in_item (c : ascii) (i : glob_item) : bool :=
  match i with
  | GSingle a => Ascii.eqb a c
  | GRange lo hi =>
      ((N_of_ascii lo <=? N_of_ascii c) && (N_of_ascii c <=? N_of_ascii hi))%N
  end.

(** Whether the whole of [s] matches the translated pattern. *)
Fixpoint glob_match (toks : list glob_tok) (s : list ascii) : bool :=
  match toks with
  | [] => match s with [] => true | _ => false end
  | GStar :: toks' =>
      (fix star (s : list ascii) : bool :=
         glob_match toks' s
         || match s with [] => false | _ :: s' => star s' end) s
  | GAny :: toks' =>
      match s with [] => false | _ :: s' => glob_match toks' s' end
  | GClass negated items :: toks' =>
      match s with
      | [] => false
      | c :: s' => xorb negated (existsb (in_item c) items) && glob_match toks' s'
      end
  | GLit a :: toks' =>
      match s with
      | [] => false
      | c :: s' => Ascii.eqb a c && glob_match toks' s'
      end
  end.

(** [fnmatch.fnmatch(name, pat)] on a POSIX system ([os.path.normcase] is
    the identity). *)
Definition fnmatch (name pat : string) : bool :=
  glob_match (translate pat) (list_ascii_of_string name).

(** ** os.path *)

(** [s] split at its last occurrence of [c]: the text before it and the
    text after it. *)
Fixpoint rsplit_char (c : ascii) (s : string) : option (string * string) :=
  match s with
  | EmptyString => None
  | String a s' =>
      match rsplit_char c s' with
      | Some (before, after) => Some (String a before, after)
      | None => if Ascii.eqb a c then Some (EmptyString, s') else None
      end
  end.

(** [os.path.basename(p)] *)
Definition basename (p : string) : string :=
  match rsplit_char "/" p with
  | Some (_, tail) => tail
  | None => p
  end.

Fixpoint all_dots (s : string) : bool :=
  match s with
  | EmptyString => true
  | String c s' => Ascii.eqb c "." && all_dots s'
  end.

(** [os.path.splitext(p)[0]] for a [p] without a slash: the extension
    starts at the last dot, unless only dots come before it. *)
Definition splitext_root (p : string) : string :=
  match rsplit_char "." p with
  | Some (root, _) => if all_dots root then p else root
  | None => p
  end.

(** ** Messages *)

(** [imap_tools.MailAttachment]: [content_type] is the type the mail
    declares for the part. *)
Record MailAttachment : Type := {
  filename : string;
  content_type : string;
  content_disposition : string;
  payload : list Byte.byte;
}.

(** [imap_tools.EmailAddress], the parsed sender. *)
Record EmailAddress : Type := { name : string }.

(** [imap_tools.MailMessage] *)
Record MailMessage : Type := {
  uid : string;
  subject : string;
  from_ : string;
  from_values : option EmailAddress;
  attachments : list MailAttachment;
}.

(** What [M.fetch] hands back: an iterator that yields [fetched_messages]
    and then either stops or raises [fetch_interrupted]. *)
Record Fetched : Type := {
  fetched_messages : list MailMessage;
  fetch_interrupted : option exn;
}.

(** The keyword arguments of [async_task("documents.tasks.consume_file", ...)]. *)
Record ConsumeTask : Type := {
  path : string;
  override_filename : string;
  override_title : string;
  override_correspondent_id : option Z;
  override_document_type_id : option Z;
  override_tag_ids : list Z;
  task_name : string;
}.

(** [imap_tools.MailMessageFlags] *)
Definition SEEN : string := "\Seen".
Definition FLAGGED : string := "\Flagged".

(** ** Mailboxes *)

(** The three classes of [imap_tools] that [get_mailbox] chooses from:
    [MailBoxUnencrypted], [MailBoxTls] and [MailBox]. *)
Inductive mailbox_class : Type :=
  | MailBoxUnencrypted
  | MailBoxTls
  | MailBoxSsl.

(** A mailbox object; mail.py reads its [_host]. *)
Record MailBox : Type := {
  mailbox_type : mailbox_class;
  _host : string;
  _port : Z;
}.

(** [get_mailbox(server, port, security)] *)
Definition get_mailbox (server : string) (port : Z) (security : ImapSecurity)
  : MailBox :=
  match security with
  | NONE => {| mailbox_type := MailBoxUnencrypted; _host := server; _port := port |}
  | STARTTLS => {| mailbox_type := MailBoxTls; _host := server; _port := port |}
  | SSL => {| mailbox_type := MailBoxSsl; _host := server; _port := port |}
  end.

(** ** The outside world *)

(** Every call mail.py makes to a collaborator, and every log record. *)
Inductive event : Type :=
  | Log (level msg : string)
  | Open (M : MailBox)               (* the mailbox is built and the [with] entered *)
  | Logout                           (* the [with] is left *)
  | Login (user pass : string)
  | Authenticate (mechanism : string) (response : list Byte.byte)
  | FolderSet (folder_name : string)
  | FolderList
  | Fetch (criteria : imap_query) (mark_seen : bool) (charset : string)
  | Delete (uids : list string)
  | Flag (uids : list string) (flags : list string) (value : bool)
  | Move (uids : list string) (destination : string)
  | Uid (command uid : string) (args : list string)
  | GetOrCreate (correspondent_name : string)
  | FromBuffer (buffer : list Byte.byte)
  | Makedirs (dir : string)
  | Mkstemp (prefix dir : string)
  | WriteFile (file : string) (content : list Byte.byte)
  | AsyncTask (task : ConsumeTask).

(** The collaborators, over a state [W] of the outside world.  The
    [respond_*] fields say how the world answers a call: its next state and
    either a result or the exception the call raises. *)
Record Env (W : Type) : Type := {
  today : W -> Z;                                   (* date.today() *)
  is_mime_type_supported : string -> bool;          (* documents.parsers *)
  sanitize_filename : string -> string;             (* pathvalidate *)
  SCRATCH_DIR : string;                             (* settings *)
  rules_of : MailAccount -> list MailRule;          (* account.rules *)
  str_query : imap_query -> string;                 (* str(criterias_imap) *)
  respond : W -> event -> W * outcome unit;
  respond_folder_list : W -> W * outcome (list string);
  respond_fetch : W -> imap_query -> bool -> string -> W * outcome Fetched;
  respond_get_or_create : W -> string -> W * outcome Correspondent;
  respond_from_buffer : W -> list Byte.byte -> W * outcome string;
  respond_mkstemp : W -> string -> string -> W * outcome string;
}.
Arguments today {W} _ _.
Arguments is_mime_type_supported {W} _ _.
Arguments sanitize_filename {W} _ _.
Arguments SCRATCH_DIR {W} _.
Arguments rules_of {W} _ _.
Arguments str_query {W} _ _.
Arguments respond {W} _ _ _.
Arguments respond_folder_list {W} _ _.
Arguments respond_fetch {W} _ _ _ _ _.
Arguments respond_get_or_create {W} _ _ _.
Arguments respond_from_buffer {W} _ _ _.
Arguments respond_mkstemp {W} _ _ _ _.

(** ** The monad of mail.py's effectful code *)

(** A computation starts in a state of the world and yields the state it
    leaves, the events it caused, in order, and a result or an exception. *)
Definition prog (W A : Type) : Type := W -> W * list event * outcome A.

Definition ret {W A} (a : A) : prog W A := fun w => (w, [], Ok a).

Definition bind {W A B} (m : prog W A) (k : A -> prog W B) : prog W B :=
  fun w =>
    match m w with
    | (w1, t1, Ok a) => let '(w2, t2, r) := k a w1 in (w2, t1 ++ t2, r)
    | (w1, t1, Raise e) => (w1, t1, Raise e)
    end.

(** [raise e] *)
Definition raise {W A} (e : exn) : prog W A := fun w => (w, [], Raise e).

(** [try: m  except ...: handler e]: [handler e] is [None] when no
    [except] clause matches [e], which then propagates. *)
Definition try_except {W A} (m : prog W A) (handler : exn -> option (prog W A))
  : prog W A :=
  fun w =>
    match m w with
    | (w1, t1, Ok a) => (w1, t1, Ok a)
    | (w1, t1, Raise e) =>
        match handler e with
        | Some h => let '(w2, t2, r) := h w1 in (w2, t1 ++ t2, r)
        | None => (w1, t1, Raise e)
        end
    end.

(** [try: m  finally: cleanup], for a [cleanup] that does not raise: the
    release of the mailbox session when the [with] block is left, on every
    path. *)
Definition finally {W A} (m : prog W A) (cleanup : list event) : prog W A :=
  fun w => let '(w1, t1, r) := m w in (w1, t1 ++ cleanup, r).

(** A pure computation that may raise. *)
Definition lift {W A} (r : outcome A) : prog W A := fun w => (w, [], r).

Declare Scope prog_scope.
Delimit Scope prog_scope with prog.
Notation "x <- m ;; k" := (bind m (fun x => k))
  (at level 100, m at next level, right associativity) : prog_scope.
Notation "m ;;; k" := (bind m (fun _ => k))
  (at level 100, right associativity) : prog_scope.
Local Open Scope prog_scope.

Notation "a +++ b" := (String.append a b)
  (at level 60, right associativity, only parsing).

Section Engine.

Context {W : Type} (env : Env W).

(** [self.log(level, msg)] *)
Definition log (level msg : string) : prog W unit :=
  fun w => (w, [Log level msg], Ok tt).

(** A call that returns nothing of interest. *)
Definition call (e : event) : prog W unit :=
  fun w => let '(w', r) := respond env w e in (w', [e], r).

Definition folder_list : prog W (list string) :=
  fun w => let '(w', r) := respond_folder_list env w in (w', [FolderList], r).

Definition fetch (criteria : imap_query) (mark_seen : bool) (charset : string)
  : prog W Fetched :=
  fun w =>
    let '(w', r) := respond_fetch env w criteria mark_seen charset in
    (w', [Fetch criteria mark_seen charset], r).

Definition get_or_create (n : string) : prog W Correspondent :=
  fun w => let '(w', r) := respond_get_or_create env w n in (w', [GetOrCreate n], r).

Definition from_buffer (buffer : list Byte.byte) : prog W string :=
  fun w =>
    let '(w', r) := respond_from_buffer env w buffer in (w', [FromBuffer buffer], r).

Definition mkstemp (prefix dir : string) : prog W string :=
  fun w =>
    let '(w', r) := respond_mkstemp env w prefix dir in (w', [Mkstemp prefix dir], r).

(** [date.today()] *)
Definition date_today : prog W Z := fun w => (w, [], Ok (today env w)).

(** ** Rule actions: the post-consume effect *)

(** [for uid in message_uids: M.client.uid("STORE", uid, "X-GM-LABELS", keyword)] *)
Fixpoint store_labels (keyword : string) (message_uids : list string)
  : prog W unit :=
  match message_uids with
  | [] => ret tt
  | uid :: rest =>
      call (Uid "STORE" uid ["X-GM-LABELS"; keyword]) ;;;
      store_labels keyword rest
  end.

(** The method [post_consume(M, message_uids, parameter)] of the action
    classes. *)
Definition post_consume (a : RuleAction) (M : MailBox)
    (message_uids : list string) (parameter : string) : prog W unit :=
  match a with
  | DeleteMailAction => call (Delete message_uids)
  | MarkReadMailAction => call (Flag message_uids [SEEN] true)
  | MoveMailAction => call (Move message_uids parameter)
  | FlagMailAction => call (Flag message_uids [FLAGGED] true)
  | TagMailAction keyword =>
      if re_search_gmail (_host M) then store_labels keyword message_uids
      else call (Flag message_uids [keyword] true)
  end.

(** ** The attachment pipeline *)

(** [MailAccountHandler.get_title] *)
Definition get_title (message : MailMessage) (att : MailAttachment)
    (rule : MailRule) : string :=
  match assign_title_from rule with
  | FROM_SUBJECT => subject message
  | FROM_FILENAME => splitext_root (basename (filename att))
  end.

(** [MailAccountHandler._correspondent_from_name] *)
Definition _correspondent_from_name (n : string) : prog W (option Correspondent) :=
  try_except
    (c <- get_or_create n ;; ret (Some c))
    (fun e =>
       if is_class DatabaseError e then
         Some (log "error"
                 ("Error while retrieving correspondent " +++ n +++ ": " +++ str_exn e) ;;;
               ret None)
       else None).

(** [MailAccountHandler.get_correspondent] *)
Definition get_correspondent (message : MailMessage) (rule : MailRule)
  : prog W (option Correspondent) :=
  match assign_correspondent_from rule with
  | FROM_NOTHING => ret None
  | FROM_EMAIL => _correspondent_from_name (from_ message)
  | FROM_NAME =>
      match from_values message with
      | Some values =>
          if (0 <? String.length (name values))%nat
          then _correspondent_from_name (name values)
          else _correspondent_from_name (from_ message)
      | None => _correspondent_from_name (from_ message)
      end
  | FROM_CUSTOM => ret (assign_correspondent rule)
  end.

(** The two tests of [handle_message] that skip an attachment before its
    payload is looked at. *)
Definition skipped_by_disposition (rule : MailRule) (att : MailAttachment) : bool :=
  negb (String.eqb (content_disposition att) "attachment")
  && match attachment_type rule with
     | ATTACHMENTS_ONLY => true
     | EVERYTHING => false
     end.

Definition skipped_by_filename (rule : MailRule) (att : MailAttachment) : bool :=
  match filter_attachment_filename rule with
  | Some pattern =>
      truthy (filter_attachment_filename rule)
      && negb (fnmatch (lower (filename att)) (lower pattern))
  | None => false
  end.

(** The body of [for att in message.attachments] in [handle_message],
    run over [atts] with the counter [processed_attachments]. *)
Fixpoint handle_attachments (message : MailMessage) (rule : MailRule)
    (correspondent : option Correspondent) (tag_ids : list Z)
    (doc_type : option DocumentType)
    (atts : list MailAttachment) (processed_attachments : nat) : prog W nat :=
  match atts with
  | [] => ret processed_attachments
  | att :: rest =>
      if skipped_by_disposition rule att then
        log "debug"
          ("Rule " +++ rule_str rule +++ ": Skipping attachment " +++ filename att
           +++ " with content disposition " +++ content_disposition att) ;;;
        handle_attachments message rule correspondent tag_ids doc_type rest
          processed_attachments
      else if skipped_by_filename rule att then
        handle_attachments message rule correspondent tag_ids doc_type rest
          processed_attachments
      else
        let title := get_title message att rule in
        mime_type <- from_buffer (payload att) ;;
        if is_mime_type_supported env mime_type then
          call (Makedirs (SCRATCH_DIR env)) ;;;
          temp_filename <- mkstemp "paperless-mail-" (SCRATCH_DIR env) ;;
          call (WriteFile temp_filename (payload att)) ;;;
          log "info"
            ("Rule " +++ rule_str rule +++ ": Consuming attachment " +++ filename att
             +++ " from mail " +++ subject message +++ " from " +++ from_ message) ;;;
          call (AsyncTask {|
            path := temp_filename;
            override_filename := sanitize_filename env (filename att);
            override_title := title;
            override_correspondent_id := option_map correspondent_id correspondent;
            override_document_type_id := option_map document_type_id doc_type;
            override_tag_ids := tag_ids;
            task_name := String.substring 0 100 (filename att) |}) ;;;
          handle_attachments message rule correspondent tag_ids doc_type rest
            (S processed_attachments)
        else
          log "debug"
            ("Rule " +++ rule_str rule +++ ": Skipping attachment " +++ filename att
             +++ " since guessed mime type " +++ mime_type
             +++ " is not supported by paperless") ;;;
          handle_attachments message rule correspondent tag_ids doc_type rest
            processed_attachments
  end.

(** [MailAccountHandler.handle_message] *)
Definition handle_message (message : MailMessage) (rule : MailRule) : prog W nat :=
  match attachments message with
  | [] => ret 0%nat
  | _ :: _ =>
      log "debug"
        ("Rule " +++ rule_str rule +++ ": Processing mail " +++ subject message
         +++ " from " +++ from_ message +++ " with "
         +++ pretty (length (attachments message)) +++ " attachment(s)") ;;;
      correspondent <- get_correspondent message rule ;;
      let tag_ids := assign_tags rule in
      let doc_type := assign_document_type rule in
      handle_attachments message rule correspondent tag_ids doc_type
        (attachments message) 0%nat
  end.

(** ** One rule *)

(** The connected mailbox is [M]. *)

(** The local variables [post_consume_messages], [mails_processed] and
    [total_processed_files] of [handle_mail_rule]. *)
Record RuleCounters : Type := {
  post_consume_messages : list string;
  mails_processed : nat;
  total_processed_files : nat;
}.

(** [for message in messages] in [handle_mail_rule] *)
Fixpoint handle_messages (rule : MailRule) (messages : list MailMessage)
    (c : RuleCounters) : prog W RuleCounters :=
  match messages with
  | [] => ret c
  | message :: rest =>
      c' <- try_except
              (processed_files <- handle_message message rule ;;
               ret {| post_consume_messages :=
                        if (0 <? processed_files)%nat
                        then post_consume_messages c ++ [uid message]
                        else post_consume_messages c;
                      total_processed_files :=
                        (total_processed_files c + processed_files)%nat;
                      mails_processed := (mails_processed c + 1)%nat |})
              (fun e =>
                 Some (log "error"
                         ("Rule " +++ rule_str rule +++ ": Error while processing mail "
                          +++ uid message +++ ": " +++ str_exn e) ;;;
                       ret c)) ;;
      handle_messages rule rest c'
  end.

(** [for folder_info in M.folder.list(): self.log(...)] *)
Fixpoint log_folders (names : list string) : prog W unit :=
  match names with
  | [] => ret tt
  | n :: rest => log "info" ("Located folder: " +++ n) ;;; log_folders rest
  end.

(** [MailAccountHandler.handle_mail_rule] *)
Definition handle_mail_rule (M : MailBox) (rule : MailRule) : prog W nat :=
  log "debug"
    ("Rule " +++ rule_str rule +++ ": Selecting folder " +++ folder rule) ;;;
  try_except
    (call (FolderSet (folder rule)))
    (fun err =>
       if is_class MailboxFolderSelectError err then
         Some (log "error"
                 ("Unable to access folder " +++ folder rule
                  +++ ", attempting folder listing") ;;;
               try_except
                 (names <- folder_list ;; log_folders names)
                 (fun e =>
                    Some (log "error"
                            ("Exception during folder listing, unable to provide list folders: "
                             +++ str_exn e))) ;;;
               raise (Exn MailError
                        ("Rule " +++ rule_str rule +++ ": Folder " +++ folder rule
                         +++ " does not exist in account "
                         +++ account_str (account rule))))
       else None) ;;;
  now <- date_today ;;
  criterias <- lift (make_criterias now rule) ;;
  let query := criterias_imap criterias in
  log "debug"
    ("Rule " +++ rule_str rule +++ ": Searching folder with criteria "
     +++ str_query env query) ;;;
  messages <- try_except
                (fetch query false (character_set (account rule)))
                (fun err =>
                   Some (raise (Exn MailError
                                  ("Rule " +++ rule_str rule
                                   +++ ": Error while fetching folder "
                                   +++ folder rule)))) ;;
  c <- handle_messages rule (fetched_messages messages)
         {| post_consume_messages := [];
            mails_processed := 0;
            total_processed_files := 0 |} ;;
  match fetch_interrupted messages with
  | Some e => raise e
  | None => ret tt
  end ;;;
  log "debug"
    ("Rule " +++ rule_str rule +++ ": Processed " +++ pretty (mails_processed c)
     +++ " matching mail(s)") ;;;
  log "debug"
    ("Rule " +++ rule_str rule +++ ": Running mail actions on "
     +++ pretty (length (post_consume_messages c)) +++ " mails") ;;;
  try_except
    (post_consume (get_rule_action rule) M
       (post_consume_messages c) (action_parameter rule))
    (fun e =>
       Some (raise (Exn MailError
                      ("Rule " +++ rule_str rule
                       +++ ": Error while processing post-consume actions: "
                       +++ str_exn e)))) ;;;
  ret (total_processed_files c).

(** ** One account *)

(** [account.rules.order_by("order")] *)
Definition order_le (r1 r2 : MailRule) : Prop := order r1 <= order r2.

#[local] Instance order_le_dec : RelDecision order_le :=
  fun r1 r2 => Z_le_dec (order r1) (order r2).

Definition order_by_order (rules : list MailRule) : list MailRule :=
  merge_sort order_le rules.

(** [for rule in account.rules.order_by("order")] in [handle_mail_account],
    with the running total. *)
Fixpoint handle_rules (M : MailBox) (rules : list MailRule)
    (total_processed_files : nat) : prog W nat :=
  match rules with
  | [] => ret total_processed_files
  | rule :: rest =>
      total <- try_except
                 (n <- handle_mail_rule M rule ;;
                  ret (total_processed_files + n)%nat)
                 (fun e =>
                    Some (log "error"
                            ("Rule " +++ rule_str rule
                             +++ ": Error while processing rule: " +++ str_exn e) ;;;
                          ret total_processed_files)) ;;
      handle_rules M rest total
  end.

(** The [try: M.login(...) except ...] statement of [handle_mail_account]. *)
Definition login (account : MailAccount) : prog W unit :=
  try_except
    (call (Login (username account) (password account)))
    (fun e =>
       if is_class UnicodeEncodeError e then
         Some (log "debug" "Falling back to AUTH=PLAIN" ;;;
               try_except
                 (let encoded :=
                    [Byte.x00] ++ encode_utf8 (username account)
                    ++ [Byte.x00] ++ encode_utf8 (password account) in
                  call (Authenticate "PLAIN" encoded) ;;;
                  call (FolderSet "INBOX"))
                 (fun err =>
                    Some (log "error"
                            "Unable to authenticate with mail server using AUTH=PLAIN" ;;;
                          raise (Exn MailError
                                   ("Error while authenticating account "
                                    +++ account_str account)))))
       else
         Some (log "error"
                 ("Error while authenticating account " +++ account_str account
                  +++ ": " +++ str_exn e) ;;;
               raise (Exn MailError
                        ("Error while authenticating account "
                         +++ account_str account)))).

(** [MailAccountHandler.handle_mail_account].  The handler of the outer
    [try] returns [total_processed_files] as the statements before the
    rule loop leave it; the loop itself lets no exception out
    ([handle_rules_run] below). *)
Definition handle_mail_account (account : MailAccount) : prog W nat :=
  log "debug" ("Processing mail account " +++ account_str account) ;;;
  let total_processed_files := 0%nat in
  try_except
    (let M := get_mailbox (imap_server account) (imap_port account)
                (imap_security account) in
     call (Open M) ;;;
     finally
       (login account ;;;
        log "debug"
          ("Account " +++ account_str account +++ ": Processing "
           +++ pretty (length (rules_of env account)) +++ " rule(s)") ;;;
        handle_rules M (order_by_order (rules_of env account))
          total_processed_files)
       [Logout])
    (fun e =>
       if is_class MailError e then None
       else
         Some (log "error"
                 ("Error while retrieving mailbox " +++ account_str account
                  +++ ": " +++ str_exn e) ;;;
               ret total_processed_files)).

End Engine.

(** ** A sample server

    A small world for running the engine: its state is the name of the
    selected folder.  The server "unreachable.example.org" refuses
    connections; the password "wrong" is wrong; credentials outside ASCII
    make [Login] fail to encode; the folder "Missing" does not exist; a file
    of more than four bytes does not fit on the disk; setting the keyword
    "Broken" fails. *)

Definition pdf_magic : list Byte.byte :=
  [Byte.x25; Byte.x50; Byte.x44; Byte.x46].            (* %PDF *)

Fixpoint is_ascii_str (s : string) : bool :=
  match s with
  | EmptyString => true
  | String c s' => (N_of_ascii c <? 128)%N && is_ascii_str s'
  end.

Definition starts_with_pdf (buffer : list Byte.byte) : bool :=
  match buffer with
  | Byte.x25 :: Byte.x50 :: Byte.x44 :: Byte.x46 :: _ => true
  | _ => false
  end.

Definition sample_respond (w : string) (e : event) : string * outcome unit :=
  match e with
  | FolderSet f =>
      if String.eqb f "Missing"
      then (w, Raise (Exn MailboxFolderSelectError "folder does not exist"))
      else (f, Ok tt)
  | Open M =>
      if String.eqb (_host M) "unreachable.example.org"
      then (w, Raise (Exn OtherException "Connection refused"))
      else (w, Ok tt)
  | Login u p =>
      if negb (is_ascii_str u && is_ascii_str p)
      then (w, Raise (Exn UnicodeEncodeError "'ascii' codec can't encode character"))
      else if String.eqb p "wrong"
      then (w, Raise (Exn OtherException "authentication failed"))
      else (w, Ok tt)
  | WriteFile _ content =>
      if (4 <? length content)%nat
      then (w, Raise (Exn OtherException "No space left on device"))
      else (w, Ok tt)
  | Flag _ ["Broken"] _ => (w, Raise (Exn OtherException "STORE failed"))
  | _ => (w, Ok tt)
  end.

Definition sample_env (mailbox : string -> list MailMessage)
    (rules : list MailRule) : Env string := {|
  today := fun _ => 739924;                              (* 2026-11-04 *)
  is_mime_type_supported := fun m => String.eqb m "application/pdf";
  sanitize_filename := fun f => f;
  SCRATCH_DIR := "/tmp/paperless";
  rules_of := fun _ => rules;
  str_query := fun _ => "(...)";
  respond := sample_respond;
  respond_folder_list := fun w => (w, Ok ["INBOX"; "Archive"]);
  respond_fetch := fun w _ _ _ =>
    (w, Ok {| fetched_messages := mailbox w; fetch_interrupted := None |});
  respond_get_or_create := fun w _ => (w, Ok {| correspondent_id := 1 |});
  respond_from_buffer := fun w buffer =>
    (w, Ok (if starts_with_pdf buffer then "application/pdf" else "text/plain"));
  respond_mkstemp := fun w prefix dir =>
    (w, Ok (dir +++ "/" +++ prefix +++ "x"));
|}.

Definition sample_account : MailAccount := {|
  account_str := "acct";
  imap_server := "imap.example.org";
  imap_port := 993;
  imap_security := SSL;
  username := "user";
  password := "secret";
  character_set := "UTF-8";
|}.

Definition sample_rule (a : MailAction) (parameter : string) : MailRule := {|
  rule_str := "acct.rule";
  account := sample_account;
  order := 0;
  folder := "INBOX";
  maximum_age := 30;
  filter_from := None;
  filter_subject := None;
  filter_body := None;
  filter_attachment_filename := None;
  attachment_type := ATTACHMENTS_ONLY;
  action := a;
  action_parameter := parameter;
  assign_title_from := FROM_SUBJECT;
  assign_correspondent_from := FROM_NOTHING;
  assign_correspondent := None;
  assign_document_type := None;
  assign_tags := [];
|}.

Definition sample_attachment (f : string) (declared : string)
    (content : list Byte.byte) : MailAttachment := {|
  filename := f;
  content_type := declared;
  content_disposition := "attachment";
  payload := content;
|}.

Definition sample_message (u : string) (atts : list MailAttachment) : MailMessage := {|
  uid := u;
  subject := "Invoice";
  from_ := "billing@example.org";
  from_values := None;
  attachments := atts;
|}.

Definition sample_mailbox (f : string) : list MailMessage :=
  if String.eqb f "INBOX" then
    [ sample_message "1" [sample_attachment "a.pdf" "application/octet-stream" pdf_magic];
      sample_message "2" [];
      sample_message "3" [sample_attachment "b.pdf" "application/pdf" pdf_magic;
                          sample_attachment "c.pdf" "application/pdf"
                            (pdf_magic ++ [Byte.x0a])];
      sample_message "4" [sample_attachment "d.txt" "application/pdf" [Byte.x41]] ]
  else [].


Definition with_maximum_age (n : Z) (r : MailRule) : MailRule := {|
  rule_str := rule_str r; account := account r; order := order r;
  folder := folder r; maximum_age := n;
  filter_from := filter_from r; filter_subject := filter_subject r;
  filter_body := filter_body r;
  filter_attachment_filename := filter_attachment_filename r;
  attachment_type := attachment_type r; action := action r;
  action_parameter := action_parameter r;
  assign_title_from := assign_title_from r;
  assign_correspondent_from := assign_correspondent_from r;
  assign_correspondent := assign_correspondent r;
  assign_document_type := assign_document_type r;
  assign_tags := assign_tags r |}.

Definition with_filename_filter (p : string) (r : MailRule) : MailRule := {|
  rule_str := rule_str r; account := account r; order := order r;
  folder := folder r; maximum_age := maximum_age r;
  filter_from := filter_from r; filter_subject := filter_subject r;
  filter_body := filter_body r;
  filter_attachment_filename := Some p;
  attachment_type := attachment_type r; action := action r;
  action_parameter := action_parameter r;
  assign_title_from := assign_title_from r;
  assign_correspondent_from := assign_correspondent_from r;
  assign_correspondent := assign_correspondent r;
  assign_document_type := assign_document_type r;
  assign_tags := assign_tags r |}.

(** ** Vocabulary of the statements *)

(** The keys [make_criterias] sets from the rule's own filters. *)
Definition filter_keys : list string := ["date_gte"; "from_"; "subject"; "body"].

(** [today - maximum_age] is a date [datetime] can represent. *)
Definition age_limit_representable (today : Z) (rule : MailRule) : Prop :=
  Z.abs (maximum_age rule) <= timedelta_max_days /\
  date_min_ordinal <= today - maximum_age rule <= date_max_ordinal.

(** The mailbox [handle_mail_account] opens for an account. *)
Definition account_mailbox (account : MailAccount) : MailBox :=
  get_mailbox (imap_server account) (imap_port account) (imap_security account).

Definition world_of {W A} (x : W * list event * outcome A) : W := x.1.1.
Definition events_of {W A} (x : W * list event * outcome A) : list event := x.1.2.
Definition result_of {W A} (x : W * list event * outcome A) : outcome A := x.2.

(** Every event a computation causes, from any state, satisfies [P]. *)
Definition emits {W A} (P : event -> Prop) (m : prog W A) : Prop :=
  forall w, Forall P (events_of (m w)).

Definition is_folder_set (e : event) : bool :=
  match e with FolderSet _ => true | _ => false end.
Definition is_fetch (e : event) : bool :=
  match e with Fetch _ _ _ => true | _ => false end.
Definition is_async_task (e : event) : bool :=
  match e with AsyncTask _ => true | _ => false end.
Definition is_authenticate (e : event) : bool :=
  match e with Authenticate _ _ => true | _ => false end.

(** [s] ends with [tail]. *)
Definition ends_with (s tail : string) : Prop := exists front, s = front +++ tail.

(** The host suffix-matches a known Gmail domain. *)
Definition gmail_domain_suffix (host : string) : Prop :=
  ends_with host "gmail.com" \/ ends_with host "googlemail.com".

(** The raw command [UID STORE <uid> X-GM-LABELS <keyword>]. *)
Definition store_label (keyword uid : string) : event :=
  Uid "STORE" uid ["X-GM-LABELS"; keyword].

(** Changing the case of letters: each character stays or becomes the
    same letter in the other case. *)
Definition is_lower (c : ascii) : bool :=
  let n := N_of_ascii c in
  ((97 <=? n) && (n <=? 122) || (224 <=? n) && (n <=? 254) && negb (n =? 247))%N.

Definition swapcase_char (c : ascii) : ascii :=
  if is_upper c then ascii_of_N (N_of_ascii c + 32)
  else if is_lower c then ascii_of_N (N_of_ascii c - 32)
  else c.

Inductive same_up_to_case : string -> string -> Prop :=
  | same_case_nil : same_up_to_case "" ""
  | same_case_cons (a b : ascii) (s t : string) :
      a = b \/ b = swapcase_char a ->
      same_up_to_case s t ->
      same_up_to_case (String a s) (String b t).


(** The last character of a string. *)
Fixpoint last_char (s : string) : option ascii :=
  match s with
  | EmptyString => None
  | String c EmptyString => Some c
  | String _ s' => last_char s'
  end.



(** The events of the attachment pipeline. *)
Definition pipeline_event (e : event) : bool :=
  match e with
  | Log _ _ | GetOrCreate _ | FromBuffer _ | Makedirs _ | Mkstemp _ _
  | WriteFile _ _ | AsyncTask _ => true
  | _ => false
  end.

(** The events of a post-consume action. *)
Definition action_event (e : event) : bool :=
  match e with
  | Delete _ | Flag _ _ _ | Move _ _ | Uid _ _ _ => true
  | _ => false
  end.

(** The events of one rule. *)
Definition rule_event (e : event) : bool :=
  match e with
  | FolderSet _ | FolderList | Fetch _ _ _ => true
  | _ => pipeline_event e || action_event e
  end.

(** Two attachments that differ at most in the content type the mail
    declares for them. *)
Definition same_but_declared_type (a b : MailAttachment) : Prop :=
  filename a = filename b /\
  content_disposition a = content_disposition b /\
  payload a = payload b.

Definition same_but_declared_types (m m' : MailMessage) : Prop :=
  uid m = uid m' /\ subject m = subject m' /\ from_ m = from_ m' /\
  from_values m = from_values m' /\
  Forall2 same_but_declared_type (attachments m) (attachments m').

(** The sum of the counts of the entries that completed. *)
Fixpoint completed_total {A} (results : list (A * outcome nat)) : nat :=
  match results with
  | [] => 0
  | (_, Ok n) :: rest => n + completed_total rest
  | (_, Raise _) :: rest => completed_total rest
  end.

(** The uids of the messages whose pipeline completed with a positive
    count. *)
Fixpoint dispatched_uids (results : list (MailMessage * outcome nat))
  : list string :=
  match results with
  | [] => []
  | (m, Ok n) :: rest =>
      if (0 <? n)%nat then uid m :: dispatched_uids rest
      else dispatched_uids rest
  | (_, Raise _) :: rest => dispatched_uids rest
  end.

(** The number of entries that completed. *)
Fixpoint completed_count {A} (results : list (A * outcome nat)) : nat :=
  match results with
  | [] => 0
  | (_, Ok _) :: rest => S (completed_count rest)
  | (_, Raise _) :: rest => completed_count rest
  end.

Section Results.

Context {W : Type} (env : Env W).

(** What [handle_message] makes of each message of a fetch, one after the
    other, the first starting in the world [w]. *)
Fixpoint message_results (rule : MailRule) (messages : list MailMessage) (w : W)
  : list (MailMessage * outcome nat) :=
  match messages with
  | [] => []
  | m :: rest =>
      let '(w', _, r) := handle_message env m rule w in
      (m, r) :: message_results rule rest w'
  end.

(** What [handle_mail_rule] makes of each rule, one after the other. *)
Fixpoint rule_results (M : MailBox) (rules : list MailRule) (w : W)
  : list (MailRule * outcome nat) :=
  match rules with
  | [] => []
  | rule :: rest =>
      let '(w', _, r) := handle_mail_rule env M rule w in
      (rule, r) :: rule_results M rest w'
  end.

(** Sniffing the attachment's payload yields a type paperless does not
    support. *)
Definition sniffs_unsupported (att : MailAttachment) : Prop :=
  forall w, exists w' mime,
    respond_from_buffer env w (payload att) = (w', Ok mime) /\
    is_mime_type_supported env mime = false.

(** The attachment is skipped: by its disposition, by the filename glob,
    or because its sniffed type is not supported. *)
Definition skipped (rule : MailRule) (att : MailAttachment) : Prop :=
  skipped_by_disposition rule att = true \/
  skipped_by_filename rule att = true \/
  sniffs_unsupported att.

End Results.

(** The counters [handle_mail_rule] starts its message loop with. *)
Definition no_messages_yet : RuleCounters :=
  {| post_consume_messages := []; mails_processed := 0; total_processed_files := 0 |}.


Section RuleEvents.

Context {W : Type} (env : Env W).

(** What [handle_mail_rule] does, up to and including the fetch, when the
    folder can be selected and the criteria are [c]. *)
Definition search_events (rule : MailRule) (c : gmap string crit_value)
  : list event :=
  [Log "debug"
     ("Rule " +++ rule_str rule +++ ": Selecting folder " +++ folder rule);
   FolderSet (folder rule);
   Log "debug"
     ("Rule " +++ rule_str rule +++ ": Searching folder with criteria "
      +++ str_query env (criterias_imap c));
   Fetch (criterias_imap c) false (character_set (account rule))].

(** The two log records between the message loop and the action. *)
Definition action_logs (rule : MailRule) (cs : RuleCounters) : list event :=
  [Log "debug"
     ("Rule " +++ rule_str rule +++ ": Processed " +++ pretty (mails_processed cs)
      +++ " matching mail(s)");
   Log "debug"
     ("Rule " +++ rule_str rule +++ ": Running mail actions on "
      +++ pretty (length (post_consume_messages cs)) +++ " mails")].

(** The error [handle_mail_rule] raises when the action raises [e]. *)
Definition post_consume_error (rule : MailRule) (e : exn) : exn :=
  Exn MailError
    ("Rule " +++ rule_str rule
     +++ ": Error while processing post-consume actions: " +++ str_exn e).

(** The record [handle_mail_account] logs when a rule raises [e]. *)
Definition rule_error_log (rule : MailRule) (e : exn) : event :=
  Log "error"
    ("Rule " +++ rule_str rule +++ ": Error while processing rule: "
     +++ str_exn e).

(** The error [handle_mail_account] raises when authentication fails. *)
Definition authentication_error (account : MailAccount) : exn :=
  Exn MailError ("Error while authenticating account " +++ account_str account).

(** The events of [handle_mail_account] before authentication. *)
Definition open_events (account : MailAccount) : list event :=
  [Log "debug" ("Processing mail account " +++ account_str account);
   Open (account_mailbox account)].

Definition rule_count_log (account : MailAccount) : event :=
  Log "debug"
    ("Account " +++ account_str account +++ ": Processing "
     +++ pretty (length (rules_of env account)) +++ " rule(s)").

(** The SASL PLAIN response of the fallback. *)
Definition plain_response (account : MailAccount) : list Byte.byte :=
  [Byte.x00] ++ encode_utf8 (username account)
  ++ [Byte.x00] ++ encode_utf8 (password account).

End RuleEvents.


Section RulePhases.

Context {W : Type} (env : Env W).

(** [handle_mail_rule] in three parts, for the statements below: the
    [try] that selects the folder, the statements from [make_criterias]
    to the fetch, and the statements after the fetch. *)
Definition list_folders : prog W unit :=
  try_except
    (names <- folder_list env ;; log_folders names)
    (fun e =>
       Some (log "error"
               ("Exception during folder listing, unable to provide list folders: "
                +++ str_exn e))).

Definition select_folder (rule : MailRule) : prog W unit :=
  try_except
    (call env (FolderSet (folder rule)))
    (fun err =>
       if is_class MailboxFolderSelectError err then
         Some (log "error"
                 ("Unable to access folder " +++ folder rule
                  +++ ", attempting folder listing") ;;;
               list_folders ;;;
               raise (Exn MailError
                        ("Rule " +++ rule_str rule +++ ": Folder " +++ folder rule
                         +++ " does not exist in account "
                         +++ account_str (account rule))))
       else None).

Definition consume_fetched (M : MailBox) (rule : MailRule) (messages : Fetched)
  : prog W nat :=
  c <- handle_messages env rule (fetched_messages messages)
         {| post_consume_messages := [];
            mails_processed := 0;
            total_processed_files := 0 |} ;;
  match fetch_interrupted messages with
  | Some e => raise e
  | None => ret tt
  end ;;;
  log "debug"
    ("Rule " +++ rule_str rule +++ ": Processed " +++ pretty (mails_processed c)
     +++ " matching mail(s)") ;;;
  log "debug"
    ("Rule " +++ rule_str rule +++ ": Running mail actions on "
     +++ pretty (length (post_consume_messages c)) +++ " mails") ;;;
  try_except
    (post_consume env (get_rule_action rule) M
       (post_consume_messages c) (action_parameter rule))
    (fun e =>
       Some (raise (Exn MailError
                      ("Rule " +++ rule_str rule
                       +++ ": Error while processing post-consume actions: "
                       +++ str_exn e)))) ;;;
  ret (total_processed_files c).

Definition search_and_consume (M : MailBox) (rule : MailRule) : prog W nat :=
  now <- date_today env ;;
  criterias <- lift (make_criterias now rule) ;;
  let query := criterias_imap criterias in
  log "debug"
    ("Rule " +++ rule_str rule +++ ": Searching folder with criteria "
     +++ str_query env query) ;;;
  messages <- try_except
                (fetch env query false (character_set (account rule)))
                (fun err =>
                   Some (raise (Exn MailError
                                  ("Rule " +++ rule_str rule
                                   +++ ": Error while fetching folder "
                                   +++ folder rule)))) ;;
  consume_fetched M rule messages.

End RulePhases.


Definition with_folder (f : string) (n : Z) (r : MailRule) : MailRule := {|
  rule_str := rule_str r; account := account r; order := n;
  folder := f; maximum_age := maximum_age r;
  filter_from := filter_from r; filter_subject := filter_subject r;
  filter_body := filter_body r;
  filter_attachment_filename := filter_attachment_filename r;
  attachment_type := attachment_type r; action := action r;
  action_parameter := action_parameter r;
  assign_title_from := assign_title_from r;
  assign_correspondent_from := assign_correspondent_from r;
  assign_correspondent := assign_correspondent r;
  assign_document_type := assign_document_type r;
  assign_tags := assign_tags r |}.

Definition with_credentials (server user pass : string) (a : MailAccount)
  : MailAccount := {|
  account_str := account_str a; imap_server := server;
  imap_port := imap_port a; imap_security := imap_security a;
  username := user; password := pass; character_set := character_set a |}.

(** A user name with a letter outside ASCII: "jos" followed by U+00E9. *)
Definition jose : string := "jos" +++ String (ascii_of_N 233) "".

(** An inbox with one message that carries one PDF. *)
Definition small_mailbox (f : string) : list MailMessage :=
  if String.eqb f "INBOX" then
    [sample_message "7" [sample_attachment "a.pdf" "application/pdf" pdf_magic]]
  else [].

(** The criteria of the sample rules on 2026-11-04. *)
Definition sample_criteria (a : RuleAction) : gmap string crit_value :=
  get_criteria a ∪ {[ "date_gte" := VDate 739894 ]}.

Definition sample_mailbox_host : MailBox := get_mailbox "imap.example.org" 993 SSL.


(** The third message of the sample inbox: its first attachment is
    dispatched, its second does not fit on the disk. *)
Definition partly_written_message : MailMessage :=
  sample_message "3" [sample_attachment "b.pdf" "application/pdf" pdf_magic;
                      sample_attachment "c.pdf" "application/pdf"
                        (pdf_magic ++ [Byte.x0a])].

Definition sample_rules : list MailRule :=
  [with_folder "INBOX" 2 (sample_rule DELETE "");
   with_folder "Missing" 1 (sample_rule DELETE "")].

(** ** Vocabulary of the further statements *)

(** Whether the character [c] occurs in [s]. *)
Fixpoint contains_char (c : ascii) (s : string) : bool :=
  match s with
  | EmptyString => false
  | String a s' => Ascii.eqb a c || contains_char c s'
  end.

(** The characters [fnmatch] gives a meaning to. *)
Definition is_glob_special (c : ascii) : bool :=
  Ascii.eqb c "*" || Ascii.eqb c "?" || Ascii.eqb c "[".

(** A pattern without any of them. *)
Fixpoint plain_text (s : string) : bool :=
  match s with
  | EmptyString => true
  | String c s' => negb (is_glob_special c) && plain_text s'
  end.

Definition with_title_from (s : TitleSource) (r : MailRule) : MailRule := {|
  rule_str := rule_str r; account := account r; order := order r;
  folder := folder r; maximum_age := maximum_age r;
  filter_from := filter_from r; filter_subject := filter_subject r;
  filter_body := filter_body r;
  filter_attachment_filename := filter_attachment_filename r;
  attachment_type := attachment_type r; action := action r;
  action_parameter := action_parameter r;
  assign_title_from := s;
  assign_correspondent_from := assign_correspondent_from r;
  assign_correspondent := assign_correspondent r;
  assign_document_type := assign_document_type r;
  assign_tags := assign_tags r |}.

(** The first character of a UTF-8 text and the bytes after it, for the
    code points U+0000..U+00FF. *)
Definition utf8_first (bs : list Byte.byte) : option (ascii * list Byte.byte) :=
  match bs with
  | [] => None
  | b :: rest =>
      let n := Byte.to_N b in
      if (n <? 128)%N then Some (ascii_of_N n, rest)
      else match rest with
           | b2 :: rest' =>
               Some (ascii_of_N ((n - 192) * 64 + (Byte.to_N b2 - 128)), rest')
           | [] => None
           end
  end.

Definition is_get_or_create (e : event) : bool :=
  match e with GetOrCreate _ => true | _ => false end.

(** Every dispatch request among the events is for a task that
    satisfies [Q]. *)
Definition dispatches (Q : ConsumeTask -> Prop) (e : event) : Prop :=
  match e with AsyncTask t => Q t | _ => True end.

(** The sample server with its database out of order. *)
Definition database_down (env : Env string) : Env string := {|
  today := today env;
  is_mime_type_supported := is_mime_type_supported env;
  sanitize_filename := sanitize_filename env;
  SCRATCH_DIR := SCRATCH_DIR env;
  rules_of := rules_of env;
  str_query := str_query env;
  respond := respond env;
  respond_folder_list := respond_folder_list env;
  respond_fetch := respond_fetch env;
  respond_get_or_create := fun w _ =>
    (w, Raise (Exn DatabaseError "database is locked"));
  respond_from_buffer := respond_from_buffer env;
  respond_mkstemp := respond_mkstemp env;
|}.

Definition with_correspondent_from (s : CorrespondentSource) (r : MailRule)
  : MailRule := {|
  rule_str := rule_str r; account := account r; order := order r;
  folder := folder r; maximum_age := maximum_age r;
  filter_from := filter_from r; filter_subject := filter_subject r;
  filter_body := filter_body r;
  filter_attachment_filename := filter_attachment_filename r;
  attachment_type := attachment_type r; action := action r;
  action_parameter := action_parameter r;
  assign_title_from := assign_title_from r;
  assign_correspondent_from := s;
  assign_correspondent := assign_correspondent r;
  assign_document_type := assign_document_type r;
  assign_tags := assign_tags r |}.

(** The uids a mailbox command names. *)
Definition event_uids (e : event) : list string :=
  match e with
  | Delete uids | Flag uids _ _ | Move uids _ => uids
  | Uid _ uid _ => [uid]
  | _ => []
  end.

(** The errors [handle_mail_rule] raises for a folder that does not
    exist and for a fetch that fails. *)
Definition folder_error (rule : MailRule) : exn :=
  Exn MailError
    ("Rule " +++ rule_str rule +++ ": Folder " +++ folder rule
     +++ " does not exist in account " +++ account_str (account rule)).

Definition fetch_error (rule : MailRule) : exn :=
  Exn MailError
    ("Rule " +++ rule_str rule +++ ": Error while fetching folder " +++ folder rule).

(** The first log record of [handle_mail_rule]. *)
Definition selecting_log (rule : MailRule) : event :=
  Log "debug" ("Rule " +++ rule_str rule +++ ": Selecting folder " +++ folder rule).

(** A server that answers every fetch with [f]. *)
Definition with_fetch {W} (f : W -> W * outcome Fetched) (env : Env W) : Env W := {|
  today := today env;
  is_mime_type_supported := is_mime_type_supported env;
  sanitize_filename := sanitize_filename env;
  SCRATCH_DIR := SCRATCH_DIR env;
  rules_of := rules_of env;
  str_query := str_query env;
  respond := respond env;
  respond_folder_list := respond_folder_list env;
  respond_fetch := fun w _ _ _ => f w;
  respond_get_or_create := respond_get_or_create env;
  respond_from_buffer := respond_from_buffer env;
  respond_mkstemp := respond_mkstemp env;
|}.

(** Two attachments that differ at most in their content disposition. *)
Definition same_but_disposition (a b : MailAttachment) : Prop :=
  filename a = filename b /\
  content_type a = content_type b /\
  payload a = payload b.

Definition same_but_dispositions (m m' : MailMessage) : Prop :=
  uid m = uid m' /\ subject m = subject m' /\ from_ m = from_ m' /\
  from_values m = from_values m' /\
  Forall2 same_but_disposition (attachments m) (attachments m').

(** The attachment passes the two tests that come before its payload is
    looked at. *)
Definition passes_filters (rule : MailRule) (att : MailAttachment) : Prop :=
  skipped_by_disposition rule att = false /\ skipped_by_filename rule att = false.

(** The payloads an event reads or writes. *)
Definition event_payload (e : event) : option (list Byte.byte) :=
  match e with
  | FromBuffer buffer => Some buffer
  | WriteFile _ content => Some content
  | _ => None
  end.

Definition with_attachment_type (s : AttachmentProcessing) (r : MailRule)
  : MailRule := {|
  rule_str := rule_str r; account := account r; order := order r;
  folder := folder r; maximum_age := maximum_age r;
  filter_from := filter_from r; filter_subject := filter_subject r;
  filter_body := filter_body r;
  filter_attachment_filename := filter_attachment_filename r;
  attachment_type := s; action := action r;
  action_parameter := action_parameter r;
  assign_title_from := assign_title_from r;
  assign_correspondent_from := assign_correspondent_from r;
  assign_correspondent := assign_correspondent r;
  assign_document_type := assign_document_type r;
  assign_tags := assign_tags r |}.

(** An inline part: a PDF the mail does not mark as an attachment. *)
Definition inline_attachment (f : string) (content : list Byte.byte)
  : MailAttachment := {|
  filename := f;
  content_type := "application/pdf";
  content_disposition := "inline";
  payload := content;
|}.

(** What every dispatch request of a rule carries, whatever the
    message. *)
Definition rule_settings (rule : MailRule) (t : ConsumeTask) : Prop :=
  override_tag_ids t = assign_tags rule /\
  override_document_type_id t
    = option_map document_type_id (assign_document_type rule) /\
  (String.length (task_name t) <= 100)%nat /\
  match assign_correspondent_from rule with
  | FROM_NOTHING => override_correspondent_id t = None
  | FROM_CUSTOM =>
      override_correspondent_id t
      = option_map correspondent_id (assign_correspondent rule)
  | FROM_EMAIL | FROM_NAME => True
  end.


Definition with_assignments (tags : list Z) (doc : option DocumentType)
    (corr : option Correspondent) (r : MailRule) : MailRule := {|
  rule_str := rule_str r; account := account r; order := order r;
  folder := folder r; maximum_age := maximum_age r;
  filter_from := filter_from r; filter_subject := filter_subject r;
  filter_body := filter_body r;
  filter_attachment_filename := filter_attachment_filename r;
  attachment_type := attachment_type r; action := action r;
  action_parameter := action_parameter r;
  assign_title_from := assign_title_from r;
  assign_correspondent_from := FROM_CUSTOM;
  assign_correspondent := corr;
  assign_document_type := doc;
  assign_tags := tags |}.

Section DispatchBlock.

Context {W : Type} (env : Env W).

(** What [handle_message] does with an attachment it dispatches, before
    the dispatch request: it sniffs the payload, makes the scratch
    directory, makes a temporary file [tmp], writes the payload to it, and
    logs. *)
Definition dispatch_block (m : MailMessage) (rule : MailRule)
    (att : MailAttachment) (tmp : string) : list event :=
  [FromBuffer (payload att);
   Makedirs (SCRATCH_DIR env);
   Mkstemp "paperless-mail-" (SCRATCH_DIR env);
   WriteFile tmp (payload att);
   Log "info"
     ("Rule " +++ rule_str rule +++ ": Consuming attachment " +++ filename att
      +++ " from mail " +++ subject m +++ " from " +++ from_ m)].

End DispatchBlock.

(** The payload an event hands to [magic.from_buffer]. *)
Definition sniffed (e : event) : option (list Byte.byte) :=
  match e with FromBuffer buffer => Some buffer | _ => None end.

(** The record the message loop logs when the handling of [m] raises
    [e]. *)
Definition message_error_log (rule : MailRule) (m : MailMessage) (e : exn) : event :=
  Log "error"
    ("Rule " +++ rule_str rule +++ ": Error while processing mail "
     +++ uid m +++ ": " +++ str_exn e).

(** * Properties *)

(** ** Criteria *)

Lemma lookup_set_if (cond : bool) (k k' : string) (v : crit_value)
    (d : gmap string crit_value) :
  set_if cond k v d !! k' =
  if cond then (if decide (k = k') then Some v else d !! k') else d !! k'.
Proof.
  unfold set_if. destruct cond; [|done]. apply lookup_insert.
Qed.

Lemma truthy_Some (s : string) : truthy (Some s) = true <-> s <> "".
Proof.
  unfold truthy. destruct (String.eqb_spec s ""); simpl; split; congruence.
Qed.

Lemma lookup_set_filter_eq (k : string) (f : option string)
    (d : gmap string crit_value) (v : crit_value) :
  d !! k = None ->
  set_filter k f d !! k = Some v <-> exists s, f = Some s /\ s <> "" /\ v = VStr s.
Proof.
  intros Hd. unfold set_filter. destruct f as [s|].
  - rewrite lookup_set_if. destruct (truthy (Some s)) eqn:Ht.
    + rewrite decide_True by done. apply truthy_Some in Ht. split.
      * intros [= <-]. eauto.
      * intros (s' & [= <-] & _ & ->). done.
    + rewrite Hd. split; [done|]. intros (s' & [= <-] & Hne & _).
      apply truthy_Some in Hne. congruence.
  - rewrite Hd. split; [done|]. intros (s' & [=] & _).
Qed.

Lemma lookup_set_filter_ne (k k' : string) (f : option string)
    (d : gmap string crit_value) :
  k <> k' -> set_filter k f d !! k' = d !! k'.
Proof.
  intros Hne. unfold set_filter. destruct f as [s|]; [|done].
  rewrite lookup_set_if. destruct (truthy (Some s)); [|done].
  by rewrite decide_False.
Qed.

Lemma get_criteria_filter_key (a : RuleAction) (k : string) :
  k ∈ filter_keys -> get_criteria a !! k = None.
Proof.
  unfold filter_keys. rewrite !elem_of_cons, elem_of_nil.
  intros [->|[->|[->|[->|[]]]]]; destruct a; done.
Qed.

Lemma make_criterias_Ok (today : Z) (rule : MailRule) :
  age_limit_representable today rule ->
  make_criterias today rule =
  Ok (get_criteria (get_rule_action rule)
      ∪ set_filter "body" (filter_body rule)
          (set_filter "subject" (filter_subject rule)
             (set_filter "from_" (filter_from rule)
                (set_if (0 <? maximum_age rule) "date_gte"
                   (VDate (today - maximum_age rule)) ∅)))).
Proof.
  intros [Habs [Hlo Hhi]]. unfold make_criterias, timedelta, date_sub.
  destruct (Z.leb_spec (Z.abs (maximum_age rule)) timedelta_max_days); [|lia].
  destruct (Z.leb_spec date_min_ordinal (today - maximum_age rule)); [|lia].
  destruct (Z.leb_spec (today - maximum_age rule) date_max_ordinal); [|lia].
  reflexivity.
Qed.

Lemma make_criterias_Raise (today : Z) (rule : MailRule) :
  ~ age_limit_representable today rule ->
  exists msg, make_criterias today rule = Raise (Exn OverflowError msg).
Proof.
  intros Hn. unfold make_criterias, timedelta, date_sub.
  destruct (Z.leb_spec (Z.abs (maximum_age rule)) timedelta_max_days); [|eauto].
  destruct (Z.leb_spec date_min_ordinal (today - maximum_age rule));
    [|simpl; eauto].
  destruct (Z.leb_spec (today - maximum_age rule) date_max_ordinal);
    [|simpl; eauto].
  exfalso. apply Hn. unfold age_limit_representable. lia.
Qed.

(** C1, as amended.  When today minus [maximum_age] days is a date that
    [datetime] can represent, [make_criterias] returns a map which holds a
    date lower bound, equal to that date, exactly when [maximum_age > 0];
    holds the sender, subject and body filters exactly when the rule's
    filter is set (not [None], not empty); and holds, besides, exactly the
    pre-filter of the rule's action: [seen = False] for MarkRead,
    [flagged = False] for Flag, nothing for Move and Delete, the keyword
    under [no_keyword] and [gmail_label] for Tag.  Otherwise
    [make_criterias] raises [OverflowError]. *)
Theorem make_criterias_spec (today : Z) (rule : MailRule) :
  (age_limit_representable today rule ->
   exists c : gmap string crit_value,
     make_criterias today rule = Ok c /\
     (forall v, c !! "date_gte" = Some v <->
                0 < maximum_age rule /\ v = VDate (today - maximum_age rule)) /\
     (forall v, c !! "from_" = Some v <->
                exists s, filter_from rule = Some s /\ s <> "" /\ v = VStr s) /\
     (forall v, c !! "subject" = Some v <->
                exists s, filter_subject rule = Some s /\ s <> "" /\ v = VStr s) /\
     (forall v, c !! "body" = Some v <->
                exists s, filter_body rule = Some s /\ s <> "" /\ v = VStr s) /\
     (forall k, k ∉ filter_keys ->
        c !! k =
        match action rule with
        | MARK_READ => if decide (k = "seen") then Some (VBool false) else None
        | FLAG => if decide (k = "flagged") then Some (VBool false) else None
        | MOVE | DELETE => None
        | TAG =>
            if decide (k = "no_keyword" \/ k = "gmail_label")
            then Some (VStr (action_parameter rule)) else None
        end)) /\
  (~ age_limit_representable today rule ->
   exists msg, make_criterias today rule = Raise (Exn OverflowError msg)).
Proof.
  split; [|apply make_criterias_Raise].
  intros Hrep. eexists. split; [by apply make_criterias_Ok|].
  set (dated := set_if _ _ _ _).
  assert (Hdated : forall k, k <> "date_gte" -> dated !! k = None).
  { intros k Hk. subst dated. rewrite lookup_set_if, lookup_empty.
    destruct (0 <? maximum_age rule); [by rewrite decide_False|done]. }
  assert (Hkey : forall k flat, k ∈ filter_keys ->
            (get_criteria (get_rule_action rule) ∪ flat) !! k
            = flat !! k).
  { intros k flat Hk.
    rewrite lookup_union, get_criteria_filter_key by done.
    by destruct (flat !! k). }
  split; [|split; [|split; [|split]]].
  - intros v. rewrite Hkey by (unfold filter_keys; set_solver).
    rewrite !lookup_set_filter_ne by done.
    subst dated. rewrite lookup_set_if, lookup_empty.
    destruct (Z.ltb_spec 0 (maximum_age rule)).
    + rewrite decide_True by done. split.
      * intros [= <-]. done.
      * intros [_ ->]. done.
    + split; [done|]. intros [? _]. lia.
  - intros v. rewrite Hkey by (unfold filter_keys; set_solver).
    rewrite !lookup_set_filter_ne by done.
    apply lookup_set_filter_eq. by apply Hdated.
  - intros v. rewrite Hkey by (unfold filter_keys; set_solver).
    rewrite !lookup_set_filter_ne by done.
    apply lookup_set_filter_eq.
    rewrite lookup_set_filter_ne by done. by apply Hdated.
  - intros v. rewrite Hkey by (unfold filter_keys; set_solver).
    apply lookup_set_filter_eq.
    rewrite !lookup_set_filter_ne by done. by apply Hdated.
  - intros k Hk. unfold filter_keys in Hk.
    rewrite !not_elem_of_cons in Hk. destruct Hk as (H1 & H2 & H3 & H4 & _).
    rewrite lookup_union.
    rewrite !lookup_set_filter_ne, Hdated by done.
    rewrite (right_id None _).
    unfold get_rule_action. destruct (action rule); simpl.
    + apply lookup_empty.
    + apply lookup_empty.
    + rewrite lookup_singleton. repeat case_decide; congruence.
    + rewrite lookup_singleton. repeat case_decide; congruence.
    + rewrite lookup_insert, lookup_singleton.
      destruct (decide ("no_keyword" = k)) as [<-|Hk].
      * by rewrite decide_True by auto.
      * destruct (decide ("gmail_label" = k)) as [<-|Hl].
        -- by rewrite decide_True by auto.
        -- rewrite decide_False; [done|]. intros [->| ->]; congruence.
Qed.

(** C1 as stated fails: a rule whose [maximum_age] reaches back before
    year 1 makes [make_criterias] raise instead of returning a map. *)
Lemma make_criterias_age_before_year_one :
  make_criterias 739924 (with_maximum_age 4000000 (sample_rule DELETE ""))
    = Raise (Exn OverflowError "date value out of range") /\
  ~ exists c, make_criterias 739924
                (with_maximum_age 4000000 (sample_rule DELETE "")) = Ok c.
Proof.
  split; [reflexivity|]. intros [c Hc]. vm_compute in Hc. discriminate.
Qed.

Lemma make_criterias_spec_witness :
  (exists c : gmap string crit_value,
     make_criterias 739924 (sample_rule MARK_READ "") = Ok c /\
     (forall v, c !! "date_gte" = Some v <-> 0 < 30 /\ v = VDate (739924 - 30))) /\
  (exists msg,
     make_criterias 739924 (with_maximum_age 4000000 (sample_rule DELETE ""))
     = Raise (Exn OverflowError msg)).
Proof.
  split.
  - destruct (make_criterias_spec 739924 (sample_rule MARK_READ "")) as [H _].
    destruct H as (c & Hc & Hd & _).
    { unfold age_limit_representable, timedelta_max_days, date_min_ordinal,
        date_max_ordinal. simpl. lia. }
    exists c. split; [exact Hc | exact Hd].
  - apply (proj2 (make_criterias_spec 739924
                    (with_maximum_age 4000000 (sample_rule DELETE "")))).
    unfold age_limit_representable, timedelta_max_days, date_min_ordinal,
      date_max_ordinal. simpl. lia.
Defined.

(** ** Strings *)

Lemma append_cons (x : ascii) (a b : string) :
  String x a +++ b = String x (a +++ b).
Proof. reflexivity. Qed.

Lemma append_nil_l (a : string) : "" +++ a = a.
Proof. reflexivity. Qed.

Lemma append_assoc (a b c : string) : (a +++ b) +++ c = a +++ (b +++ c).
Proof.
  induction a as [|x a IH]; [done|]. by rewrite !append_cons, IH.
Qed.

Lemma append_nil_r (a : string) : a +++ "" = a.
Proof. induction a as [|x a IH]; [done|]. by rewrite append_cons, IH. Qed.

Lemma strip_prefix_Some (lit s rest : string) :
  strip_prefix lit s = Some rest <-> s = lit +++ rest.
Proof.
  revert s. induction lit as [|a lit IH]; intros s; simpl.
  - rewrite append_nil_l. split; congruence.
  - rewrite append_cons. destruct s as [|b s]; [split; discriminate|].
    destruct (Ascii.eqb_spec a b) as [->|Hne].
    + rewrite IH. split; congruence.
    + split; [discriminate|]. intros [= ? ?]. done.
Qed.

Lemma at_dollar_true (rest : string) :
  at_dollar rest = true <-> rest = "" \/ rest = String LF "".
Proof.
  destruct rest as [|c [|d rest]]; simpl.
  - split; auto.
  - destruct (Ascii.eqb_spec c LF) as [->|Hne].
    + split; auto.
    + split; [done|]. intros [H|H]; [discriminate|congruence].
  - split; [done|]. intros [|]; discriminate.
Qed.

Lemma gmail_pattern_at_true (s : string) :
  gmail_pattern_at s = true <->
  exists domain tail,
    (domain = "gmail.com" \/ domain = "googlemail.com") /\
    (tail = "" \/ tail = String LF "") /\ s = domain +++ tail.
Proof.
  unfold gmail_pattern_at. rewrite orb_true_iff. split.
  - intros [H|H].
    + destruct (strip_prefix "gmail.com" s) as [rest|] eqn:Hs; [|done].
      apply strip_prefix_Some in Hs. apply at_dollar_true in H.
      exists "gmail.com", rest. auto.
    + destruct (strip_prefix "googlemail.com" s) as [rest|] eqn:Hs; [|done].
      apply strip_prefix_Some in Hs. apply at_dollar_true in H.
      exists "googlemail.com", rest. auto.
  - intros (domain & tail & [->| ->] & Ht & ->).
    + left. rewrite (proj2 (strip_prefix_Some "gmail.com" _ tail) eq_refl).
      by apply at_dollar_true.
    + right. rewrite (proj2 (strip_prefix_Some "googlemail.com" _ tail) eq_refl).
      by apply at_dollar_true.
Qed.

Lemma re_search_gmail_true (host : string) :
  re_search_gmail host = true <->
  exists front s, host = front +++ s /\ gmail_pattern_at s = true.
Proof.
  induction host as [|c host IH].
  - split.
    + intros H. vm_compute in H. discriminate.
    + intros (front & s & Heq & Hs). destruct front; [|done].
      rewrite append_nil_l in Heq. subst s. vm_compute in Hs. discriminate.
  - change (re_search_gmail (String c host))
      with (gmail_pattern_at (String c host) || re_search_gmail host).
    rewrite orb_true_iff, IH. split.
    + intros [H|(front & s & -> & Hs)].
      * by exists "", (String c host).
      * by exists (String c front), s.
    + intros (front & s & Heq & Hs). destruct front as [|d front].
      * left. rewrite append_nil_l in Heq. by subst s.
      * right. rewrite append_cons in Heq. injection Heq as -> ->. eauto.
Qed.

(** What the pattern of [TagMailAction.post_consume] accepts: a host that
    ends with one of the two domains, or with one of them and a line
    feed. *)
Lemma re_search_gmail_spec (host : string) :
  re_search_gmail host = true <->
  gmail_domain_suffix host \/
  exists h, host = h +++ String LF "" /\ gmail_domain_suffix h.
Proof.
  rewrite re_search_gmail_true. unfold gmail_domain_suffix, ends_with. split.
  - intros (front & s & -> & Hs). apply gmail_pattern_at_true in Hs.
    destruct Hs as (domain & tail & Hd & [->| ->] & ->).
    + left. rewrite append_nil_r. destruct Hd as [->| ->]; eauto.
    + right. exists (front +++ domain). rewrite append_assoc. split; [done|].
      destruct Hd as [->| ->]; eauto.
  - intros [[[front ->]|[front ->]]|(h & -> & [[front ->]|[front ->]])].
    + exists front, "gmail.com". split; [done|].
      apply gmail_pattern_at_true. exists "gmail.com", "". auto.
    + exists front, "googlemail.com". split; [done|].
      apply gmail_pattern_at_true. exists "googlemail.com", "". auto.
    + exists front, ("gmail.com" +++ String LF ""). rewrite append_assoc.
      split; [done|]. apply gmail_pattern_at_true.
      exists "gmail.com", (String LF ""). auto.
    + exists front, ("googlemail.com" +++ String LF ""). rewrite append_assoc.
      split; [done|]. apply gmail_pattern_at_true.
      exists "googlemail.com", (String LF ""). auto.
Qed.

Lemma ends_with_last_char (s : string) (c : ascii) :
  ends_with s (String c "") -> last_char s = Some c.
Proof.
  intros [front ->]. induction front as [|a front IH]; [done|].
  rewrite append_cons. cbn [last_char]. rewrite IH.
  destruct front; reflexivity.
Qed.

Lemma re_search_gmail_suffix (host : string) :
  ~ ends_with host (String LF "") ->
  re_search_gmail host = true <-> gmail_domain_suffix host.
Proof.
  intros Hlf. rewrite re_search_gmail_spec. split; [|auto].
  intros [H|(h & -> & _)]; [done|]. exfalso. apply Hlf. by exists h.
Qed.

(** ** The monad *)

Lemma filter_none {A} (P : A -> Prop) `{forall x, Decision (P x)} (l : list A) :
  Forall (fun x => ~ P x) l -> filter P l = [].
Proof.
  induction 1 as [|x l Hx _ IH]; [done|]. by rewrite filter_cons_False.
Qed.

Section Runs.

Context {W : Type}.

Lemma bind_run {A B} (m : prog W A) (k : A -> prog W B) (w : W) :
  bind m k w =
  match m w with
  | (w1, t1, Ok a) => let '(w2, t2, r) := k a w1 in (w2, t1 ++ t2, r)
  | (w1, t1, Raise e) => (w1, t1, Raise e)
  end.
Proof. reflexivity. Qed.

Lemma emits_ret {A} (P : event -> Prop) (a : A) : emits P (ret (W:=W) a).
Proof. intros w. constructor. Qed.

Lemma emits_raise {A} (P : event -> Prop) (e : exn) : emits P (raise (W:=W) (A:=A) e).
Proof. intros w. constructor. Qed.

Lemma emits_lift {A} (P : event -> Prop) (r : outcome A) : emits P (lift (W:=W) r).
Proof. intros w. constructor. Qed.

Lemma emits_bind {A B} (P : event -> Prop) (m : prog W A) (k : A -> prog W B) :
  emits P m -> (forall a, emits P (k a)) -> emits P (bind m k).
Proof.
  intros Hm Hk w. unfold events_of. rewrite bind_run.
  specialize (Hm w). unfold events_of in Hm.
  destruct (m w) as [[w1 t1] [a|e]]; simpl in *; [|done].
  specialize (Hk a w1). unfold events_of in Hk.
  destruct (k a w1) as [[w2 t2] r]; simpl in *.
  by apply Forall_app.
Qed.

Lemma emits_try_except {A} (P : event -> Prop) (m : prog W A)
    (handler : exn -> option (prog W A)) :
  emits P m ->
  (forall e h, handler e = Some h -> emits P h) ->
  emits P (try_except m handler).
Proof.
  intros Hm Hh w. unfold events_of, try_except.
  specialize (Hm w). unfold events_of in Hm.
  destruct (m w) as [[w1 t1] [a|e]]; simpl in *; [done|].
  destruct (handler e) as [h|] eqn:He; [|done].
  specialize (Hh e h He w1). unfold events_of in Hh.
  destruct (h w1) as [[w2 t2] r]; simpl in *.
  by apply Forall_app.
Qed.

Lemma emits_finally {A} (P : event -> Prop) (m : prog W A) (cleanup : list event) :
  emits P m -> Forall P cleanup -> emits P (finally m cleanup).
Proof.
  intros Hm Hc w. unfold events_of, finally.
  specialize (Hm w). unfold events_of in Hm.
  destruct (m w) as [[w1 t1] r]; simpl in *. by apply Forall_app.
Qed.

Context (env : Env W).

Lemma emits_log (P : event -> Prop) (level msg : string) :
  P (Log level msg) -> emits P (log (W:=W) level msg).
Proof. intros H w. by repeat constructor. Qed.

Lemma emits_call (P : event -> Prop) (e : event) : P e -> emits P (call env e).
Proof.
  intros H w. unfold events_of, call.
  destruct (respond env w e) as [w' r]. by repeat constructor.
Qed.

Lemma emits_from_buffer (P : event -> Prop) (buffer : list Byte.byte) :
  P (FromBuffer buffer) -> emits P (from_buffer env buffer).
Proof.
  intros H w. unfold events_of, from_buffer.
  destruct (respond_from_buffer env w buffer) as [w' r]. by repeat constructor.
Qed.

Lemma emits_mkstemp (P : event -> Prop) (prefix dir : string) :
  P (Mkstemp prefix dir) -> emits P (mkstemp env prefix dir).
Proof.
  intros H w. unfold events_of, mkstemp.
  destruct (respond_mkstemp env w prefix dir) as [w' r]. by repeat constructor.
Qed.

Lemma emits_get_or_create (P : event -> Prop) (n : string) :
  P (GetOrCreate n) -> emits P (get_or_create env n).
Proof.
  intros H w. unfold events_of, get_or_create.
  destruct (respond_get_or_create env w n) as [w' r]. by repeat constructor.
Qed.

Lemma emits_folder_list (P : event -> Prop) :
  P FolderList -> emits P (folder_list env).
Proof.
  intros H w. unfold events_of, folder_list.
  destruct (respond_folder_list env w) as [w' r]. by repeat constructor.
Qed.

Lemma emits_fetch (P : event -> Prop) q ms cs :
  P (Fetch q ms cs) -> emits P (fetch env q ms cs).
Proof.
  intros H w. unfold events_of, fetch.
  destruct (respond_fetch env w q ms cs) as [w' r]. by repeat constructor.
Qed.

(** ** The Tag action *)

Lemma store_labels_run (keyword : string) (uids : list string) (w : W) :
  exists n,
    events_of (store_labels env keyword uids w)
      = map (store_label keyword) (take n uids) /\
    (forall u, result_of (store_labels env keyword uids w) = Ok u ->
               n = length uids).
Proof.
  revert w. induction uids as [|uid uids IH]; intros w.
  - exists 0%nat. done.
  - cbn [store_labels]. rewrite bind_run. unfold call.
    change (Uid "STORE" uid ["X-GM-LABELS"; keyword])
      with (store_label keyword uid).
    destruct (respond env w (store_label keyword uid)) as [w1 [[]|e]].
    + destruct (IH w1) as (n & Hev & Hres).
      unfold events_of, result_of in *.
      destruct (store_labels env keyword uids w1) as [[w2 t2] r]; simpl in *.
      exists (S n). split; [by rewrite Hev|].
      intros u Hu. f_equal. eauto.
    + exists 1%nat. split; [|done]. simpl. by destruct uids.
Qed.

Lemma store_labels_complete (keyword : string) (uids : list string) (w : W) :
  (forall w' uid, uid ∈ uids ->
     (respond env w' (store_label keyword uid)).2 = Ok tt) ->
  events_of (store_labels env keyword uids w) = map (store_label keyword) uids /\
  result_of (store_labels env keyword uids w) = Ok tt.
Proof.
  revert w. induction uids as [|uid uids IH]; intros w Hok; [done|].
  cbn [store_labels]. rewrite bind_run. unfold call.
  change (Uid "STORE" uid ["X-GM-LABELS"; keyword])
    with (store_label keyword uid).
  pose proof (Hok w uid ltac:(left)) as H1.
  destruct (respond env w (store_label keyword uid)) as [w1 r1].
  simpl in H1. subst r1.
  destruct (IH w1) as [Hev Hres]; [intros; apply Hok; by right|].
  unfold events_of, result_of in *.
  destruct (store_labels env keyword uids w1) as [[w2 t2] r]; simpl in *.
  by subst.
Qed.

(** C3.  For a Tag action with keyword [keyword] and a batch [uids]: when
    the host matches the Gmail pattern, [post_consume] issues the raw
    command [UID STORE uid X-GM-LABELS keyword] for the uids of the batch,
    one each and in order, and nothing else; it goes through the whole
    batch unless a command raises, and does so whenever none raises.
    Otherwise it issues the single call that sets the flag [keyword] on the
    whole batch.  The pattern matches exactly the hosts that end with
    gmail.com or googlemail.com (a host name does not end in a line
    feed). *)
Theorem tag_post_consume (keyword : string) (M : MailBox) (uids : list string)
    (parameter : string) (w : W) :
  let host := _host M in
  let run := post_consume env (TagMailAction keyword) M uids parameter w in
  (~ ends_with host (String LF "") ->
   (re_search_gmail host = true <-> gmail_domain_suffix host)) /\
  (re_search_gmail host = true ->
   (exists n,
      events_of run = map (store_label keyword) (take n uids) /\
      (forall u, result_of run = Ok u -> n = length uids)) /\
   ((forall w' uid, uid ∈ uids ->
       (respond env w' (store_label keyword uid)).2 = Ok tt) ->
    events_of run = map (store_label keyword) uids /\ result_of run = Ok tt)) /\
  (re_search_gmail host = false ->
   events_of run = [Flag uids [keyword] true]).
Proof.
  simpl. split; [apply re_search_gmail_suffix|]. split.
  - intros ->. split; [apply store_labels_run|apply store_labels_complete].
  - intros ->. unfold events_of, call.
    by destruct (respond env w (Flag uids [keyword] true)).
Qed.

End Runs.

Lemma tag_post_consume_witness :
  (re_search_gmail "imap.gmail.com" = true <-> gmail_domain_suffix "imap.gmail.com") /\
  events_of (post_consume (sample_env sample_mailbox []) (TagMailAction "Invoices")
               (get_mailbox "imap.gmail.com" 993 SSL) ["1"; "3"] "Invoices" "INBOX")
    = [store_label "Invoices" "1"; store_label "Invoices" "3"] /\
  events_of (post_consume (sample_env sample_mailbox []) (TagMailAction "Invoices")
               sample_mailbox_host ["1"; "3"] "Invoices" "INBOX")
    = [Flag ["1"; "3"] ["Invoices"] true].
Proof.
  split; [|split].
  - apply (tag_post_consume (sample_env sample_mailbox []) "Invoices"
             (get_mailbox "imap.gmail.com" 993 SSL) ["1"; "3"] "Invoices" "INBOX").
    intros H. apply ends_with_last_char in H. vm_compute in H. discriminate.
  - apply (tag_post_consume (sample_env sample_mailbox []) "Invoices"
             (get_mailbox "imap.gmail.com" 993 SSL) ["1"; "3"] "Invoices" "INBOX").
    + reflexivity.
    + intros w' uid _. reflexivity.
  - apply (tag_post_consume (sample_env sample_mailbox []) "Invoices"
             sample_mailbox_host ["1"; "3"] "Invoices" "INBOX").
    reflexivity.
Defined.

(** ** Filename globs *)



Lemma same_up_to_case_refl (s : string) : same_up_to_case s s.
Proof. induction s; constructor; auto. Qed.



(** ** The attachment pipeline *)

Section Pipeline.

Context {W : Type} (env : Env W).

Lemma emits_weaken {A} (P Q : event -> Prop) (m : prog W A) :
  (forall e, P e -> Q e) -> emits P m -> emits Q m.
Proof. intros HPQ Hm w. eapply Forall_impl; [apply Hm|done]. Qed.

Lemma emits_correspondent_from_name (P : event -> Prop) (n : string) :
  (forall l msg, P (Log l msg)) -> (forall c, P (GetOrCreate c)) ->
  emits P (_correspondent_from_name env n).
Proof.
  intros Hlog Hget. apply emits_try_except.
  - apply emits_bind; [by apply emits_get_or_create|].
    intros c. apply emits_ret.
  - intros e h. destruct (is_class DatabaseError e); [|done].
    intros [= <-]. apply emits_bind; [by apply emits_log|].
    intros _. apply emits_ret.
Qed.

Lemma emits_get_correspondent (P : event -> Prop) (m : MailMessage)
    (rule : MailRule) :
  (forall l msg, P (Log l msg)) -> (forall c, P (GetOrCreate c)) ->
  emits P (get_correspondent env m rule).
Proof.
  intros Hlog Hget. unfold get_correspondent.
  destruct (assign_correspondent_from rule);
    try apply emits_ret; try by apply emits_correspondent_from_name.
  destruct (from_values m) as [v|]; [|by apply emits_correspondent_from_name].
  destruct (0 <? String.length (name v))%nat;
    by apply emits_correspondent_from_name.
Qed.

Lemma emits_handle_attachments m rule corr tags doc atts n :
  emits (fun e => pipeline_event e = true)
    (handle_attachments env m rule corr tags doc atts n).
Proof.
  revert n. induction atts as [|att atts IH]; intros n; [apply emits_ret|].
  cbn [handle_attachments].
  destruct (skipped_by_disposition rule att).
  { apply emits_bind; [by apply emits_log|]. intros _. apply IH. }
  destruct (skipped_by_filename rule att); [apply IH|].
  apply emits_bind; [by apply emits_from_buffer|]. intros mime.
  destruct (is_mime_type_supported env mime).
  - apply emits_bind; [by apply emits_call|]. intros _.
    apply emits_bind; [by apply emits_mkstemp|]. intros tmp.
    apply emits_bind; [by apply emits_call|]. intros _.
    apply emits_bind; [by apply emits_log|]. intros _.
    apply emits_bind; [by apply emits_call|]. intros _.
    apply IH.
  - apply emits_bind; [by apply emits_log|]. intros _. apply IH.
Qed.

Lemma emits_handle_message m rule :
  emits (fun e => pipeline_event e = true) (handle_message env m rule).
Proof.
  unfold handle_message. destruct (attachments m) as [|a atts] eqn:Ha.
  - apply emits_ret.
  - apply emits_bind; [by apply emits_log|]. intros _.
    apply emits_bind; [by apply emits_get_correspondent|]. intros corr.
    apply emits_handle_attachments.
Qed.

Lemma emits_handle_messages rule messages c :
  emits (fun e => pipeline_event e = true) (handle_messages env rule messages c).
Proof.
  revert c. induction messages as [|m messages IH]; intros c; [apply emits_ret|].
  cbn [handle_messages]. apply emits_bind; [|intros c'; apply IH].
  apply emits_try_except.
  - apply emits_bind; [apply emits_handle_message|]. intros n. apply emits_ret.
  - intros e h [= <-]. apply emits_bind; [by apply emits_log|].
    intros _. apply emits_ret.
Qed.

(** The declared content type of an attachment plays no part. *)
Lemma handle_attachments_declared_type m m' rule corr tags doc atts atts' :
  subject m = subject m' -> from_ m = from_ m' ->
  Forall2 same_but_declared_type atts atts' ->
  forall n,
    handle_attachments env m rule corr tags doc atts n
    = handle_attachments env m' rule corr tags doc atts' n.
Proof.
  intros Hs Hf Hatts. induction Hatts as [|a b atts atts' (Hn & Hd & Hp) _ IH];
    intros n; [done|].
  cbn [handle_attachments].
  unfold skipped_by_disposition, skipped_by_filename, get_title.
  rewrite Hs, Hf, Hn, Hd, Hp, !IH. reflexivity.
Qed.

Lemma handle_message_declared_type m m' rule w :
  same_but_declared_types m m' ->
  handle_message env m rule w = handle_message env m' rule w.
Proof.
  intros (_ & Hs & Hf & Hv & Hatts). unfold handle_message.
  assert (Hc : get_correspondent env m rule = get_correspondent env m' rule).
  { unfold get_correspondent. by rewrite Hf, Hv. }
  destruct (attachments m) as [|a atts], (attachments m') as [|b atts'];
    try done; try (by inversion Hatts).
  rewrite !bind_run, Hs, Hf, Hc, (Forall2_length _ _ _ Hatts).
  unfold log. rewrite !bind_run.
  destruct (get_correspondent env m' rule w) as [[w1 t1] [corr|e]]; [|done].
  by rewrite (handle_attachments_declared_type m m' rule corr _ _ _ _ Hs Hf Hatts).
Qed.

(** An attachment that passes the disposition and filename tests and
    whose payload sniffs as a supported type is written to a file and
    dispatched. *)
Lemma handle_attachments_dispatch m rule corr tags doc att rest n
    w w1 mime w2 w3 tmp w4 w5 :
  skipped_by_disposition rule att = false ->
  skipped_by_filename rule att = false ->
  respond_from_buffer env w (payload att) = (w1, Ok mime) ->
  is_mime_type_supported env mime = true ->
  respond env w1 (Makedirs (SCRATCH_DIR env)) = (w2, Ok tt) ->
  respond_mkstemp env w2 "paperless-mail-" (SCRATCH_DIR env) = (w3, Ok tmp) ->
  respond env w3 (WriteFile tmp (payload att)) = (w4, Ok tt) ->
  let task := {|
    path := tmp;
    override_filename := sanitize_filename env (filename att);
    override_title := get_title m att rule;
    override_correspondent_id := option_map correspondent_id corr;
    override_document_type_id := option_map document_type_id doc;
    override_tag_ids := tags;
    task_name := String.substring 0 100 (filename att) |} in
  respond env w4 (AsyncTask task) = (w5, Ok tt) ->
  handle_attachments env m rule corr tags doc (att :: rest) n w =
  let '(w', t, r) := handle_attachments env m rule corr tags doc rest (S n) w5 in
  (w',
   [FromBuffer (payload att); Makedirs (SCRATCH_DIR env);
    Mkstemp "paperless-mail-" (SCRATCH_DIR env); WriteFile tmp (payload att);
    Log "info"
      ("Rule " +++ rule_str rule +++ ": Consuming attachment " +++ filename att
       +++ " from mail " +++ subject m +++ " from " +++ from_ m);
    AsyncTask task] ++ t,
   r).
Proof.
  intros Hd Hf Hb Hs Hm Ht Hw task Ha.
  cbn [handle_attachments]. rewrite Hd, Hf.
  rewrite bind_run. unfold from_buffer. rewrite Hb, Hs.
  rewrite bind_run. unfold call at 1. rewrite Hm.
  rewrite bind_run. unfold mkstemp. rewrite Ht.
  rewrite bind_run. unfold call at 1. rewrite Hw.
  rewrite bind_run. unfold log at 1.
  rewrite bind_run. unfold call at 1. fold task. rewrite Ha.
  destruct (handle_attachments env m rule corr tags doc rest (S n) w5)
    as [[w' t] r].
  reflexivity.
Qed.

Lemma bind_assoc {A B C} (m : prog W A) (k : A -> prog W B) (h : B -> prog W C)
    (w : W) :
  bind (bind m k) h w = bind m (fun a => bind (k a) h) w.
Proof.
  unfold bind. destruct (m w) as [[w1 t1] [a|e]]; [|done].
  destruct (k a w1) as [[w2 t2] [b|e]]; [|done].
  destruct (h b w2) as [[w3 t3] r]. by rewrite app_assoc.
Qed.

Lemma bind_ext {A B} (m : prog W A) (k k' : A -> prog W B) (w : W) :
  (forall a w', k a w' = k' a w') -> bind m k w = bind m k' w.
Proof.
  intros H. unfold bind. destruct (m w) as [[w1 t1] [a|e]]; [|done].
  by rewrite H.
Qed.

(** The loop over the attachments of a message, cut in two: the second
    part starts with the count and in the world the first part leaves, and
    does not start when the first part raises. *)
Lemma handle_attachments_app m rule corr tags doc atts1 atts2 n w :
  handle_attachments env m rule corr tags doc (atts1 ++ atts2) n w =
  bind (handle_attachments env m rule corr tags doc atts1 n)
    (fun k => handle_attachments env m rule corr tags doc atts2 k) w.
Proof.
  revert n w. induction atts1 as [|att atts1 IH]; intros n w.
  { cbn [app handle_attachments]. unfold bind, ret.
    by destruct (handle_attachments env m rule corr tags doc atts2 n w)
      as [[w2 t2] r]. }
  cbn [app handle_attachments].
  destruct (skipped_by_disposition rule att).
  { rewrite bind_assoc. apply bind_ext. intros _ w'. apply IH. }
  destruct (skipped_by_filename rule att); [apply IH|].
  rewrite bind_assoc. apply bind_ext. intros mime w1.
  destruct (is_mime_type_supported env mime).
  - rewrite bind_assoc. apply bind_ext. intros _ w2.
    rewrite bind_assoc. apply bind_ext. intros tmp w3.
    rewrite bind_assoc. apply bind_ext. intros _ w4.
    rewrite bind_assoc. apply bind_ext. intros _ w5.
    rewrite bind_assoc. apply bind_ext. intros _ w6. apply IH.
  - rewrite bind_assoc. apply bind_ext. intros _ w2. apply IH.
Qed.
(** [handle_message] on a message one of whose attachments passes the
    disposition and filename tests and sniffs as a supported type, when
    the correspondent is resolved and the attachments before it are
    handled without an exception: that attachment is written to a file and
    dispatched, and the loop goes on with the count raised by one. *)
Lemma handle_message_dispatch m rule before att rest
    w w0 t0 corr wb tb nb w1 mime w2 w3 tmp w4 w5 :
  attachments m = before ++ att :: rest ->
  skipped_by_disposition rule att = false ->
  skipped_by_filename rule att = false ->
  get_correspondent env m rule w = (w0, t0, Ok corr) ->
  handle_attachments env m rule corr (assign_tags rule)
    (assign_document_type rule) before 0 w0 = (wb, tb, Ok nb) ->
  respond_from_buffer env wb (payload att) = (w1, Ok mime) ->
  is_mime_type_supported env mime = true ->
  respond env w1 (Makedirs (SCRATCH_DIR env)) = (w2, Ok tt) ->
  respond_mkstemp env w2 "paperless-mail-" (SCRATCH_DIR env) = (w3, Ok tmp) ->
  respond env w3 (WriteFile tmp (payload att)) = (w4, Ok tt) ->
  let task := {|
    path := tmp;
    override_filename := sanitize_filename env (filename att);
    override_title := get_title m att rule;
    override_correspondent_id := option_map correspondent_id corr;
    override_document_type_id :=
      option_map document_type_id (assign_document_type rule);
    override_tag_ids := assign_tags rule;
    task_name := String.substring 0 100 (filename att) |} in
  respond env w4 (AsyncTask task) = (w5, Ok tt) ->
  handle_message env m rule w =
  let '(w', t, r) :=
    handle_attachments env m rule corr (assign_tags rule)
      (assign_document_type rule) rest (S nb) w5 in
  (w',
   Log "debug"
     ("Rule " +++ rule_str rule +++ ": Processing mail " +++ subject m
      +++ " from " +++ from_ m +++ " with "
      +++ pretty (length (attachments m)) +++ " attachment(s)")
   :: t0 ++ tb
   ++ [FromBuffer (payload att); Makedirs (SCRATCH_DIR env);
       Mkstemp "paperless-mail-" (SCRATCH_DIR env); WriteFile tmp (payload att);
       Log "info"
         ("Rule " +++ rule_str rule +++ ": Consuming attachment " +++ filename att
          +++ " from mail " +++ subject m +++ " from " +++ from_ m);
       AsyncTask task]
   ++ t,
   r).
Proof.
  intros Hatts Hd Hf Hcorr Hbefore Hb Hs Hm Ht Hw task Ha.
  unfold handle_message.
  destruct (attachments m) as [|a l] eqn:Hal.
  { by destruct before. }
  rewrite bind_run. unfold log at 1. rewrite bind_run, Hcorr, Hatts.
  rewrite handle_attachments_app, bind_run, Hbefore.
  rewrite (handle_attachments_dispatch m rule corr (assign_tags rule)
             (assign_document_type rule) att rest nb wb w1 mime w2 w3 tmp w4 w5
             Hd Hf Hb Hs Hm Ht Hw Ha).
  fold task.
  destruct (handle_attachments env m rule corr (assign_tags rule)
              (assign_document_type rule) rest (S nb) w5) as [[w' t] r].
  reflexivity.
Qed.

(** C9.  [handle_message] treats alike two messages that differ only in
    the content types their attachments declare: it leaves the same world,
    causes the same events and returns the same count.  An attachment that
    passes the disposition and filename tests and whose payload sniffs as a
    supported type is dispatched, whatever content type it declares (in
    particular [application/octet-stream]): by the loop over the
    attachments, and so by [handle_message], for an attachment at any
    place in the message, once the correspondent is resolved and the
    attachments before it are handled without an exception. *)
Theorem declared_content_type_ignored (rule : MailRule) :
  (forall m m' w,
     same_but_declared_types m m' ->
     handle_message env m rule w = handle_message env m' rule w) /\
  (forall m corr tags doc att rest n w w1 mime w2 w3 tmp w4 w5,
     content_type att = "application/octet-stream" ->
     skipped_by_disposition rule att = false ->
     skipped_by_filename rule att = false ->
     respond_from_buffer env w (payload att) = (w1, Ok mime) ->
     is_mime_type_supported env mime = true ->
     respond env w1 (Makedirs (SCRATCH_DIR env)) = (w2, Ok tt) ->
     respond_mkstemp env w2 "paperless-mail-" (SCRATCH_DIR env) = (w3, Ok tmp) ->
     respond env w3 (WriteFile tmp (payload att)) = (w4, Ok tt) ->
     let task := {|
       path := tmp;
       override_filename := sanitize_filename env (filename att);
       override_title := get_title m att rule;
       override_correspondent_id := option_map correspondent_id corr;
       override_document_type_id := option_map document_type_id doc;
       override_tag_ids := tags;
       task_name := String.substring 0 100 (filename att) |} in
     respond env w4 (AsyncTask task) = (w5, Ok tt) ->
     handle_attachments env m rule corr tags doc (att :: rest) n w =
     let '(w', t, r) :=
       handle_attachments env m rule corr tags doc rest (S n) w5 in
     (w',
      [FromBuffer (payload att); Makedirs (SCRATCH_DIR env);
       Mkstemp "paperless-mail-" (SCRATCH_DIR env);
       WriteFile tmp (payload att);
       Log "info"
         ("Rule " +++ rule_str rule +++ ": Consuming attachment "
          +++ filename att +++ " from mail " +++ subject m +++ " from "
          +++ from_ m);
       AsyncTask task] ++ t,
      r)) /\
  (forall m before att rest w w0 t0 corr wb tb nb w1 mime w2 w3 tmp w4 w5,
     attachments m = before ++ att :: rest ->
     content_type att = "application/octet-stream" ->
     skipped_by_disposition rule att = false ->
     skipped_by_filename rule att = false ->
     get_correspondent env m rule w = (w0, t0, Ok corr) ->
     handle_attachments env m rule corr (assign_tags rule)
       (assign_document_type rule) before 0 w0 = (wb, tb, Ok nb) ->
     respond_from_buffer env wb (payload att) = (w1, Ok mime) ->
     is_mime_type_supported env mime = true ->
     respond env w1 (Makedirs (SCRATCH_DIR env)) = (w2, Ok tt) ->
     respond_mkstemp env w2 "paperless-mail-" (SCRATCH_DIR env) = (w3, Ok tmp) ->
     respond env w3 (WriteFile tmp (payload att)) = (w4, Ok tt) ->
     let task := {|
       path := tmp;
       override_filename := sanitize_filename env (filename att);
       override_title := get_title m att rule;
       override_correspondent_id := option_map correspondent_id corr;
       override_document_type_id :=
         option_map document_type_id (assign_document_type rule);
       override_tag_ids := assign_tags rule;
       task_name := String.substring 0 100 (filename att) |} in
     respond env w4 (AsyncTask task) = (w5, Ok tt) ->
     handle_message env m rule w =
     (let '(w', t, r) :=
        handle_attachments env m rule corr (assign_tags rule)
          (assign_document_type rule) rest (S nb) w5 in
      (w',
       Log "debug"
         ("Rule " +++ rule_str rule +++ ": Processing mail " +++ subject m
          +++ " from " +++ from_ m +++ " with "
          +++ pretty (length (attachments m)) +++ " attachment(s)")
       :: t0 ++ tb
       ++ [FromBuffer (payload att); Makedirs (SCRATCH_DIR env);
           Mkstemp "paperless-mail-" (SCRATCH_DIR env);
           WriteFile tmp (payload att);
           Log "info"
             ("Rule " +++ rule_str rule +++ ": Consuming attachment "
              +++ filename att +++ " from mail " +++ subject m +++ " from "
              +++ from_ m);
           AsyncTask task]
       ++ t,
       r)) /\
     AsyncTask task ∈ events_of (handle_message env m rule w)).
Proof.
  split; [|split].
  - intros m m' w H. by apply handle_message_declared_type.
  - intros m corr tags doc att rest n w w1 mime w2 w3 tmp w4 w5
      _ Hd Hf Hb Hs Hm Ht Hw task Ha.
    by apply (handle_attachments_dispatch m rule corr tags doc att rest n
                w w1 mime w2 w3 tmp w4 w5).
  - intros m before att rest w w0 t0 corr wb tb nb w1 mime w2 w3 tmp w4 w5
      Hatts _ Hd Hf Hcorr Hbefore Hb Hs Hm Ht Hw task Ha.
    pose proof (handle_message_dispatch m rule before att rest
                  w w0 t0 corr wb tb nb w1 mime w2 w3 tmp w4 w5
                  Hatts Hd Hf Hcorr Hbefore Hb Hs Hm Ht Hw Ha) as Hrun.
    fold task in Hrun. split; [exact Hrun|]. rewrite Hrun. unfold events_of.
    destruct (handle_attachments env m rule corr (assign_tags rule)
                (assign_document_type rule) rest (S nb) w5) as [[w' t] r].
    cbn [fst snd]. apply elem_of_cons. right.
    apply elem_of_app. right. apply elem_of_app. right.
    apply elem_of_app. left. rewrite !elem_of_cons. do 5 right. by left.
Qed.

End Pipeline.

Lemma declared_content_type_ignored_witness :
  let env := sample_env sample_mailbox [] in
  let rule := sample_rule MARK_READ "" in
  let note := sample_attachment "note.txt" "text/plain" [Byte.x41] in
  let generic := sample_attachment "a.pdf" "application/octet-stream" pdf_magic in
  let declared_generic := sample_message "1" [note; generic] in
  let declared_pdf :=
    sample_message "1" [note; sample_attachment "a.pdf" "application/pdf" pdf_magic] in
  let task := {|
    path := "/tmp/paperless/paperless-mail-x";
    override_filename := "a.pdf";
    override_title := "Invoice";
    override_correspondent_id := None;
    override_document_type_id := None;
    override_tag_ids := [];
    task_name := "a.pdf" |} in
  handle_message env declared_generic rule "INBOX"
    = handle_message env declared_pdf rule "INBOX" /\
  result_of (handle_attachments env declared_generic rule None [] None
               [generic] 0 "INBOX") = Ok 1%nat /\
  AsyncTask task ∈ events_of (handle_message env declared_generic rule "INBOX") /\
  result_of (handle_message env declared_generic rule "INBOX") = Ok 1%nat.
Proof.
  intros env rule note generic declared_generic declared_pdf task.
  destruct (declared_content_type_ignored env rule) as (H1 & H2 & H3).
  split; [|split; [|split]].
  - apply H1. repeat split. repeat constructor.
  - rewrite (H2 declared_generic None [] None generic
               [] 0%nat "INBOX" "INBOX" "application/pdf" "INBOX" "INBOX"
               "/tmp/paperless/paperless-mail-x" "INBOX" "INBOX");
      reflexivity.
  - apply (H3 declared_generic [note] generic [] "INBOX" "INBOX" [] None
             "INBOX"
             [FromBuffer [Byte.x41];
              Log "debug"
                "Rule acct.rule: Skipping attachment note.txt since guessed mime type text/plain is not supported by paperless"]
             0%nat "INBOX" "application/pdf" "INBOX" "INBOX"
             "/tmp/paperless/paperless-mail-x" "INBOX" "INBOX");
      reflexivity.
  - reflexivity.
Defined.

(** ** One rule *)

Section Rule.

Context {W : Type} (env : Env W).

(** The message loop lets no exception out, and its counters are those of
    the messages that completed. *)
Lemma handle_messages_run (rule : MailRule) (messages : list MailMessage)
    (c : RuleCounters) (w : W) :
  exists w' t c',
    handle_messages env rule messages c w = (w', t, Ok c') /\
    post_consume_messages c'
      = post_consume_messages c
        ++ dispatched_uids (message_results env rule messages w) /\
    total_processed_files c'
      = (total_processed_files c
         + completed_total (message_results env rule messages w))%nat /\
    mails_processed c'
      = (mails_processed c
         + completed_count (message_results env rule messages w))%nat.
Proof.
  revert c w. induction messages as [|m messages IH]; intros c w.
  - exists w, [], c. simpl. rewrite app_nil_r. repeat split; lia.
  - cbn [handle_messages message_results]. rewrite bind_run.
    unfold try_except at 1. rewrite bind_run.
    destruct (handle_message env m rule w) as [[w1 t1] [n|e]].
    + cbn [ret]. 
      match goal with
      | |- context [handle_messages env rule messages ?c1 w1] =>
          destruct (IH c1 w1) as (w' & t & c' & Hrun & Hu & Ht & Hm)
      end.
      rewrite Hrun. do 3 eexists. split; [reflexivity|].
      cbn [post_consume_messages total_processed_files mails_processed] in *.
      cbn [dispatched_uids completed_total completed_count].
      rewrite Hu, Ht, Hm. repeat split; try lia.
      destruct (0 <? n)%nat; [|done]. by rewrite <- app_assoc.
    + cbn. destruct (IH c w1) as (w' & t & c' & Hrun & Hu & Ht & Hm).
      rewrite Hrun. do 3 eexists. split; [reflexivity|]. done.
Qed.

(** A message without attachments: nothing happens, the count is 0. *)
Lemma handle_message_no_attachments (rule : MailRule) (m : MailMessage) (w : W) :
  attachments m = [] -> handle_message env m rule w = (w, [], Ok 0%nat).
Proof. intros H. unfold handle_message. by rewrite H. Qed.

(** Attachments that are all skipped: the loop over them completes, counts
    none, and dispatches none. *)
Lemma handle_attachments_all_skipped m rule corr tags doc atts n w :
  Forall (skipped env rule) atts ->
  exists w' t,
    handle_attachments env m rule corr tags doc atts n w = (w', t, Ok n) /\
    Forall (fun e => is_async_task e = false) t.
Proof.
  intros Hs. revert w. induction Hs as [|att atts Hatt _ IH]; intros w.
  - exists w, []. split; [done|constructor].
  - cbn [handle_attachments].
    destruct (skipped_by_disposition rule att) eqn:Hd.
    { rewrite bind_run. unfold log. destruct (IH w) as (w' & t & -> & Ht).
      do 2 eexists. split; [reflexivity|]. by constructor. }
    destruct (skipped_by_filename rule att) eqn:Hf; [apply IH|].
    destruct Hatt as [?|[?|Hu]]; [congruence..|].
    destruct (Hu w) as (w1 & mime & Hb & Hsup).
    rewrite bind_run. unfold from_buffer. rewrite Hb, Hsup.
    rewrite bind_run. unfold log. destruct (IH w1) as (w' & t & -> & Ht).
    do 2 eexists. split; [reflexivity|]. by repeat constructor.
Qed.

(** The count [handle_attachments] returns is the number of dispatch
    requests it sent, added to the count it started with. *)
Lemma handle_attachments_count m rule corr tags doc atts n w w' t n' :
  handle_attachments env m rule corr tags doc atts n w = (w', t, Ok n') ->
  n' = (n + length (filter (fun e => is_async_task e = true) t))%nat.
Proof.
  revert n w w' t n'. induction atts as [|att atts IH]; intros n w w' t n'.
  - intros [= <- <- <-]. simpl. lia.
  - cbn [handle_attachments].
    destruct (skipped_by_disposition rule att).
    { rewrite bind_run. unfold log.
      destruct (handle_attachments env m rule corr tags doc atts n w)
        as [[w2 t2] r2] eqn:Hrest.
      intros [= <- <- ->]. apply IH in Hrest. by rewrite filter_cons_False. }
    destruct (skipped_by_filename rule att); [apply IH|].
    rewrite bind_run. unfold from_buffer.
    destruct (respond_from_buffer env w (payload att)) as [w1 [mime|e]]; [|done].
    destruct (is_mime_type_supported env mime).
    + rewrite bind_run. unfold call at 1.
      destruct (respond env w1 _) as [w2 [[]|e]]; [|done].
      rewrite bind_run. unfold mkstemp.
      destruct (respond_mkstemp env w2 _ _) as [w3 [tmp|e]]; [|done].
      rewrite bind_run. unfold call at 1.
      destruct (respond env w3 _) as [w4 [[]|e]]; [|done].
      rewrite bind_run. unfold log at 1.
      rewrite bind_run. unfold call at 1.
      destruct (respond env w4 _) as [w5 [[]|e]]; [|done].
      destruct (handle_attachments env m rule corr tags doc atts (S n) w5)
        as [[w6 t6] r6] eqn:Hrest.
      intros [= <- <- ->]. apply IH in Hrest. subst n'.
      cbn [app]. rewrite !filter_cons_False by done.
      rewrite filter_cons_True by done. simpl. lia.
    + rewrite bind_run. unfold log.
      destruct (handle_attachments env m rule corr tags doc atts n w1)
        as [[w2 t2] r2] eqn:Hrest.
      intros [= <- <- ->]. apply IH in Hrest. subst n'.
      cbn [app]. by rewrite !filter_cons_False by done.
Qed.

Lemma handle_message_count m rule w w' t n :
  handle_message env m rule w = (w', t, Ok n) ->
  n = length (filter (fun e => is_async_task e = true) t).
Proof.
  unfold handle_message. destruct (attachments m) as [|a atts].
  { by intros [= <- <- <-]. }
  rewrite bind_run. unfold log at 1. rewrite bind_run.
  pose proof (emits_get_correspondent env (fun e => is_async_task e = false)
                m rule ltac:(done) ltac:(done) w) as Hc.
  unfold events_of in Hc.
  destruct (get_correspondent env m rule w) as [[w1 t1] [corr|e]]; [|done].
  simpl in Hc.
  destruct (handle_attachments env m rule corr _ _ (a :: atts) 0 w1)
    as [[w2 t2] r2] eqn:Hatts.
  intros [= <- <- ->]. apply handle_attachments_count in Hatts. subst n.
  cbn [app]. rewrite filter_cons_False by done. rewrite filter_app.
  rewrite (filter_none _ t1); [done|].
  eapply Forall_impl; [apply Hc|]. intros e -> . done.
Qed.

(** The files the message loop counts were all requested for dispatch. *)
Lemma handle_messages_count rule messages c w w' t c' :
  handle_messages env rule messages c w = (w', t, Ok c') ->
  (total_processed_files c' <=
   total_processed_files c + length (filter (fun e => is_async_task e = true) t))%nat.
Proof.
  revert c w w' t c'. induction messages as [|m messages IH]; intros c w w' t c'.
  - intros [= <- <- <-]. lia.
  - cbn [handle_messages]. rewrite bind_run. unfold try_except at 1.
    rewrite bind_run.
    destruct (handle_message env m rule w) as [[w1 t1] [n|e]] eqn:Hm.
    + cbn [ret].
      match goal with
      | |- context [handle_messages env rule messages ?c1 w1] =>
          destruct (handle_messages env rule messages c1 w1)
            as [[w2 t2] r2] eqn:Hrest
      end.
      intros [= <- <- ->]. apply IH in Hrest. apply handle_message_count in Hm.
      cbn [total_processed_files] in Hrest.
      rewrite app_nil_r, filter_app, length_app. lia.
    + cbn. destruct (handle_messages env rule messages c w1)
        as [[w2 t2] r2] eqn:Hrest.
      intros [= <- <- ->]. apply IH in Hrest.
      rewrite !filter_app, !length_app. lia.
Qed.

(** [handle_mail_rule] when the folder can be selected, the criteria can
    be built, and the fetch yields its messages without an error: the
    message loop runs, then the action on the batch the loop recorded. *)
Lemma handle_mail_rule_run (M : MailBox) (rule : MailRule)
    (w w1 w2 w3 : W) (c : gmap string crit_value) (fetched : Fetched)
    (t3 : list event) (cs : RuleCounters) :
  respond env w (FolderSet (folder rule)) = (w1, Ok tt) ->
  make_criterias (today env w1) rule = Ok c ->
  respond_fetch env w1 (criterias_imap c) false (character_set (account rule))
    = (w2, Ok fetched) ->
  fetch_interrupted fetched = None ->
  handle_messages env rule (fetched_messages fetched) no_messages_yet w2
    = (w3, t3, Ok cs) ->
  handle_mail_rule env M rule w =
  let '(w4, t4, r4) :=
    post_consume env (get_rule_action rule) M
      (post_consume_messages cs) (action_parameter rule) w3 in
  (w4,
   search_events env rule c ++ t3 ++ action_logs rule cs ++ t4,
   match r4 with
   | Ok _ => Ok (total_processed_files cs)
   | Raise e => Raise (post_consume_error rule e)
   end).
Proof.
  intros Hfolder Hcrit Hfetch Hint Hloop. unfold handle_mail_rule.
  rewrite bind_run. unfold log at 1.
  rewrite bind_run. unfold try_except at 1, call at 1. rewrite Hfolder.
  rewrite bind_run. unfold date_today.
  rewrite bind_run. unfold lift. rewrite Hcrit.
  rewrite bind_run. unfold log at 1.
  rewrite bind_run. unfold try_except at 1, fetch. rewrite Hfetch.
  rewrite bind_run. fold no_messages_yet. rewrite Hloop.
  rewrite bind_run, Hint. unfold ret at 1.
  rewrite bind_run. unfold log at 1.
  rewrite bind_run. unfold log at 1.
  rewrite bind_run. unfold try_except.
  destruct (post_consume env (get_rule_action rule) M
              (post_consume_messages cs) (action_parameter rule) w3)
    as [[w4 t4] [[]|e]].
  - cbn. unfold search_events, action_logs. cbn [app].
    by rewrite ?app_nil_r, <- ?app_assoc.
  - cbn. unfold search_events, action_logs, post_consume_error. cbn [app].
    by rewrite ?app_nil_r, <- ?app_assoc.
Qed.

End Rule.

Section RuleTraces.

Context {W : Type} (env : Env W).

Lemma handle_mail_rule_phases (M : MailBox) (rule : MailRule) :
  handle_mail_rule env M rule =
  (log "debug"
     ("Rule " +++ rule_str rule +++ ": Selecting folder " +++ folder rule) ;;;
   select_folder env rule ;;;
   search_and_consume env M rule).
Proof. reflexivity. Qed.

Lemma emits_store_labels (P : event -> Prop) keyword uids :
  (forall c u a, P (Uid c u a)) -> emits P (store_labels env keyword uids).
Proof.
  intros HP. induction uids as [|u uids IH]; [apply emits_ret|].
  cbn [store_labels]. apply emits_bind; [by apply emits_call|]. by intros _.
Qed.

Lemma emits_post_consume a M uids parameter :
  emits (fun e => action_event e = true) (post_consume env a M uids parameter).
Proof.
  destruct a; cbn [post_consume]; try by apply emits_call.
  destruct (re_search_gmail (_host M));
    [by apply emits_store_labels|by apply emits_call].
Qed.

Lemma emits_log_folders (P : event -> Prop) names :
  (forall l msg, P (Log l msg)) -> emits P (log_folders (W:=W) names).
Proof.
  intros HP. induction names as [|n names IH]; [apply emits_ret|].
  cbn [log_folders]. apply emits_bind; [by apply emits_log|]. by intros _.
Qed.

Lemma emits_consume_fetched M rule messages :
  emits (fun e => pipeline_event e || action_event e = true)
    (consume_fetched env M rule messages).
Proof.
  unfold consume_fetched. apply emits_bind.
  { eapply emits_weaken; [|apply emits_handle_messages].
    by intros e ->. }
  intros c. apply emits_bind.
  { destruct (fetch_interrupted messages); [apply emits_raise|apply emits_ret]. }
  intros _. apply emits_bind; [by apply emits_log|]. intros _.
  apply emits_bind; [by apply emits_log|]. intros _.
  apply emits_bind; [|intros _; apply emits_ret].
  apply emits_try_except.
  - eapply emits_weaken; [|apply emits_post_consume].
    intros e ->. apply orb_true_r.
  - intros e h [= <-]. apply emits_raise.
Qed.

(** Once the folder is selected and the criteria are [c], the rule logs,
    fetches with the query made of [c], and causes pipeline and action
    events only. *)
Lemma search_and_consume_events (M : MailBox) (rule : MailRule) (w : W)
    (c : gmap string crit_value) :
  make_criterias (today env w) rule = Ok c ->
  exists t,
    events_of (search_and_consume env M rule w)
    = [Log "debug"
         ("Rule " +++ rule_str rule +++ ": Searching folder with criteria "
          +++ str_query env (criterias_imap c));
       Fetch (criterias_imap c) false (character_set (account rule))] ++ t /\
    Forall (fun e => pipeline_event e || action_event e = true) t.
Proof.
  intros Hc. unfold search_and_consume, events_of.
  rewrite bind_run. unfold date_today.
  rewrite bind_run. unfold lift. rewrite Hc.
  rewrite bind_run. unfold log at 1.
  rewrite bind_run. unfold try_except at 1, fetch.
  destruct (respond_fetch env w (criterias_imap c) false _) as [w2 [fetched|e]].
  - pose proof (emits_consume_fetched M rule fetched w2) as Hem.
    unfold events_of in Hem.
    destruct (consume_fetched env M rule fetched w2) as [[w3 t3] r3].
    exists t3. split; [|exact Hem]. reflexivity.
  - exists []. split; [reflexivity|constructor].
Qed.

Lemma emits_search_and_consume M rule :
  emits (fun e => rule_event e = true /\ is_folder_set e = false)
    (search_and_consume env M rule).
Proof.
  unfold search_and_consume.
  apply emits_bind; [intros w; constructor|]. intros now.
  apply emits_bind; [apply emits_lift|]. intros c.
  apply emits_bind; [by apply emits_log|]. intros _.
  apply emits_bind.
  - apply emits_try_except; [by apply emits_fetch|].
    intros e h [= <-]. apply emits_raise.
  - intros fetched. eapply emits_weaken; [|apply emits_consume_fetched].
    intros e He. destruct e; try done.
Qed.

Lemma emits_list_folders (P : event -> Prop) :
  (forall l msg, P (Log l msg)) -> P FolderList -> emits P (list_folders env).
Proof.
  intros Hlog Hlist. apply emits_try_except.
  - apply emits_bind; [by apply emits_folder_list|].
    intros names. by apply emits_log_folders.
  - intros e h [= <-]. by apply emits_log.
Qed.

(** The folder selection, case by case: a missing folder is reported with
    the folders there are, as far as they can be listed, and the rule
    fails with a [MailError]; any other error passes. *)
Lemma select_folder_run (rule : MailRule) (w : W) :
  select_folder env rule w =
  match respond env w (FolderSet (folder rule)) with
  | (w1, Ok _) => (w1, [FolderSet (folder rule)], Ok tt)
  | (w1, Raise e) =>
      if is_class MailboxFolderSelectError e then
        (world_of (list_folders env w1),
         [FolderSet (folder rule);
          Log "error"
            ("Unable to access folder " +++ folder rule
             +++ ", attempting folder listing")]
         ++ events_of (list_folders env w1),
         Raise (Exn MailError
                  ("Rule " +++ rule_str rule +++ ": Folder " +++ folder rule
                   +++ " does not exist in account "
                   +++ account_str (account rule))))
      else (w1, [FolderSet (folder rule)], Raise e)
  end.
Proof.
  unfold select_folder, try_except at 1, call.
  destruct (respond env w (FolderSet (folder rule))) as [w1 [[]|e]]; [done|].
  destruct (is_class MailboxFolderSelectError e); [|done].
  rewrite bind_run. unfold log at 1. rewrite bind_run.
  assert (exists w2 t2, list_folders env w1 = (w2, t2, Ok tt)) as (w2 & t2 & ->).
  { unfold list_folders, try_except. rewrite bind_run. unfold folder_list.
    destruct (respond_folder_list env w1) as [w2 [names|e2]].
    - assert (exists t, log_folders (W:=W) names w2 = (w2, t, Ok tt)) as [t ->].
      { clear. induction names as [|n names [t IH]]; [by exists []|].
        cbn [log_folders]. rewrite bind_run. unfold log at 1. rewrite IH.
        by eexists. }
      by do 2 eexists.
    - unfold log. by do 2 eexists. }
  unfold raise, world_of, events_of. cbn.
  by rewrite ?app_nil_r.
Qed.

(** The fetches of a rule: one, with the query made of the criteria, once
    the folder is selected and the criteria are built; none otherwise. *)
Lemma handle_mail_rule_fetches (M : MailBox) (rule : MailRule) (w : W) :
  filter (fun e => is_fetch e = true) (events_of (handle_mail_rule env M rule w)) =
  match respond env w (FolderSet (folder rule)) with
  | (w1, Ok _) =>
      match make_criterias (today env w1) rule with
      | Ok c => [Fetch (criterias_imap c) false (character_set (account rule))]
      | Raise _ => []
      end
  | (_, Raise _) => []
  end.
Proof.
  rewrite handle_mail_rule_phases. unfold events_of.
  rewrite bind_run. unfold log at 1. rewrite bind_run, select_folder_run.
  destruct (respond env w (FolderSet (folder rule))) as [w1 [[]|e]].
  - destruct (make_criterias (today env w1) rule) as [c|e] eqn:Hc.
    + destruct (search_and_consume_events M rule w1 c Hc) as (t & Hev & Ht).
      unfold events_of in Hev.
      destruct (search_and_consume env M rule w1) as [[w2 t2] r2].
      simpl in Hev. subst t2. cbn [app fst snd].
      rewrite !filter_cons_False by done. rewrite filter_cons_True by done.
      f_equal. apply filter_none. eapply Forall_impl; [apply Ht|].
      intros e He. by destruct e.
    + unfold search_and_consume. rewrite bind_run. unfold date_today.
      rewrite bind_run. unfold lift. rewrite Hc. cbn [app fst snd].
      by rewrite !filter_cons_False by done.
  - destruct (is_class MailboxFolderSelectError e).
    + cbn [app fst snd]. rewrite !filter_cons_False by done.
      apply filter_none.
      eapply Forall_impl; [apply (emits_list_folders (fun e => is_fetch e = false))|];
        [done..|].
      intros e' ->. done.
    + cbn [app fst snd]. by rewrite !filter_cons_False by done.
Qed.

(** Every rule starts by selecting its folder, once, whatever happens
    next. *)
Lemma handle_mail_rule_events (M : MailBox) (rule : MailRule) (w : W) :
  exists rest,
    events_of (handle_mail_rule env M rule w)
    = [Log "debug"
         ("Rule " +++ rule_str rule +++ ": Selecting folder " +++ folder rule);
       FolderSet (folder rule)] ++ rest /\
    Forall (fun e => rule_event e = true /\ is_folder_set e = false) rest.
Proof.
  rewrite handle_mail_rule_phases. unfold events_of.
  rewrite bind_run. unfold log at 1. rewrite bind_run, select_folder_run.
  destruct (respond env w (FolderSet (folder rule))) as [w1 [[]|e]].
  - pose proof (emits_search_and_consume M rule w1) as Hem.
    unfold events_of in Hem.
    destruct (search_and_consume env M rule w1) as [[w2 t2] r2].
    exists t2. split; [reflexivity|exact Hem].
  - destruct (is_class MailboxFolderSelectError e).
    + eexists. split; [reflexivity|]. constructor; [done|].
      by apply emits_list_folders.
    + exists []. split; [reflexivity|constructor].
Qed.

Lemma emits_handle_mail_rule M rule :
  emits (fun e => rule_event e = true) (handle_mail_rule env M rule).
Proof.
  intros w. destruct (handle_mail_rule_events M rule w) as (rest & -> & Hrest).
  repeat constructor. eapply Forall_impl; [apply Hrest|]. by intros e [? _].
Qed.

End RuleTraces.

(** ** One account *)

Section Account.

Context {W : Type} (env : Env W).

(** One turn of the rule loop: the rule runs; if it raises, the error is
    logged and the total stays as it was; the loop goes on either way. *)
Lemma handle_rules_step (M : MailBox) (rule : MailRule) (rest : list MailRule)
    (total : nat) (w : W) :
  handle_rules env M (rule :: rest) total w =
  let '(w1, t1, r1) := handle_mail_rule env M rule w in
  let '(w2, t2, r2) :=
    handle_rules env M rest
      (match r1 with Ok n => total + n | Raise _ => total end)%nat w1 in
  (w2,
   t1 ++ match r1 with Ok _ => [] | Raise e => [rule_error_log rule e] end ++ t2,
   r2).
Proof.
  cbn [handle_rules]. rewrite bind_run. unfold try_except at 1.
  rewrite bind_run.
  destruct (handle_mail_rule env M rule w) as [[w1 t1] [n|e]].
  - cbn [ret]. destruct (handle_rules env M rest (total + n) w1) as [[w2 t2] r2].
    by rewrite app_nil_r.
  - rewrite bind_run. unfold log, ret.
    destruct (handle_rules env M rest total w1) as [[w2 t2] r2].
    unfold rule_error_log. by rewrite <- app_assoc.
Qed.

Lemma filter_folder_set_rule (M : MailBox) (rule : MailRule) (w : W) :
  filter (fun e => is_folder_set e = true) (events_of (handle_mail_rule env M rule w))
  = [FolderSet (folder rule)].
Proof.
  destruct (handle_mail_rule_events env M rule w) as (rest & -> & Hrest).
  cbn [app]. rewrite filter_cons_False by done.
  rewrite filter_cons_True by done. f_equal.
  apply filter_none. eapply Forall_impl; [apply Hrest|].
  intros e [_ ->]. done.
Qed.

(** The rule loop lets no exception out; it returns the total it started
    with plus the counts of the rules that completed; every rule selects
    its folder, in the order of the list; every failure is logged. *)
Lemma handle_rules_run (M : MailBox) (rules : list MailRule) (total : nat) (w : W) :
  exists w' t,
    handle_rules env M rules total w
      = (w', t, Ok (total + completed_total (rule_results env M rules w))%nat) /\
    filter (fun e => is_folder_set e = true) t
      = map (fun rule => FolderSet (folder rule)) rules /\
    (forall rule e, (rule, Raise e) ∈ rule_results env M rules w ->
                    rule_error_log rule e ∈ t).
Proof.
  revert total w. induction rules as [|rule rules IH]; intros total w.
  - exists w, []. cbn. rewrite Nat.add_0_r. split; [done|]. split; [done|].
    intros rule e H. by apply elem_of_nil in H.
  - rewrite handle_rules_step. cbn [rule_results].
    pose proof (filter_folder_set_rule M rule w) as Hf. unfold events_of in Hf.
    destruct (handle_mail_rule env M rule w) as [[w1 t1] r1]. simpl in Hf.
    destruct (IH (match r1 with Ok n => total + n | Raise _ => total end)%nat w1)
      as (w2 & t2 & -> & Hfilter & Hlog).
    exists w2. eexists. split; [|split].
    + f_equal. f_equal. destruct r1; cbn [completed_total]; lia.
    + rewrite !filter_app, Hf, Hfilter.
      destruct r1; [done|]. by rewrite filter_cons_False.
    + intros rule' e. rewrite elem_of_cons. intros [Heq|Hin].
      * injection Heq as -> <-.
        rewrite !elem_of_app. right. left. by apply list_elem_of_singleton.
      * rewrite !elem_of_app. right. right. by apply Hlog.
Qed.

Lemma rule_results_rules (M : MailBox) (rules : list MailRule) (w : W) :
  map fst (rule_results env M rules w) = rules.
Proof.
  revert w. induction rules as [|rule rules IH]; intros w; [done|].
  cbn [rule_results]. destruct (handle_mail_rule env M rule w) as [[w1 t1] r1].
  cbn. by rewrite IH.
Qed.

Lemma emits_handle_rules (M : MailBox) (rules : list MailRule) (total : nat) :
  emits (fun e => rule_event e = true) (handle_rules env M rules total).
Proof.
  revert total. induction rules as [|rule rules IH]; intros total;
    [apply emits_ret|].
  cbn [handle_rules]. apply emits_bind; [|intros n; apply IH].
  apply emits_try_except.
  - apply emits_bind; [apply emits_handle_mail_rule|]. intros n. apply emits_ret.
  - intros e h [= <-]. apply emits_bind; [by apply emits_log|].
    intros _. apply emits_ret.
Qed.

(** The authentication statement, case by case. *)
Lemma login_run (account : MailAccount) (w : W) :
  login env account w =
  match respond env w (Login (username account) (password account)) with
  | (w1, Ok _) => (w1, [Login (username account) (password account)], Ok tt)
  | (w1, Raise e) =>
      if is_class UnicodeEncodeError e then
        match respond env w1 (Authenticate "PLAIN" (plain_response account)) with
        | (w2, Ok _) =>
            match respond env w2 (FolderSet "INBOX") with
            | (w3, Ok _) =>
                (w3,
                 [Login (username account) (password account);
                  Log "debug" "Falling back to AUTH=PLAIN";
                  Authenticate "PLAIN" (plain_response account);
                  FolderSet "INBOX"],
                 Ok tt)
            | (w3, Raise _) =>
                (w3,
                 [Login (username account) (password account);
                  Log "debug" "Falling back to AUTH=PLAIN";
                  Authenticate "PLAIN" (plain_response account);
                  FolderSet "INBOX";
                  Log "error"
                    "Unable to authenticate with mail server using AUTH=PLAIN"],
                 Raise (authentication_error account))
            end
        | (w2, Raise _) =>
            (w2,
             [Login (username account) (password account);
              Log "debug" "Falling back to AUTH=PLAIN";
              Authenticate "PLAIN" (plain_response account);
              Log "error"
                "Unable to authenticate with mail server using AUTH=PLAIN"],
             Raise (authentication_error account))
        end
      else
        (w1,
         [Login (username account) (password account);
          Log "error"
            ("Error while authenticating account " +++ account_str account
             +++ ": " +++ str_exn e)],
         Raise (authentication_error account))
  end.
Proof.
  unfold login, try_except at 1, call at 1.
  destruct (respond env w (Login _ _)) as [w1 [[]|e]]; [done|].
  destruct (is_class UnicodeEncodeError e); [|reflexivity].
  rewrite bind_run. unfold log at 1. unfold try_except.
  rewrite bind_run. unfold call at 1. fold (plain_response account).
  destruct (respond env w1 (Authenticate _ _)) as [w2 [[]|e2]].
  - unfold call. destruct (respond env w2 (FolderSet "INBOX")) as [w3 [[]|e3]];
      reflexivity.
  - reflexivity.
Qed.

(** Whatever way authentication fails, the error raised is the
    [MailError] that names the account, and an error was logged. *)
Lemma login_raises (account : MailAccount) (w w' : W) (t : list event) (e : exn) :
  login env account w = (w', t, Raise e) ->
  e = authentication_error account /\
  exists msg, Log "error" msg ∈ t.
Proof.
  rewrite login_run.
  destruct (respond env w (Login _ _)) as [w1 [[]|e1]]; [done|].
  destruct (is_class UnicodeEncodeError e1).
  - destruct (respond env w1 (Authenticate _ _)) as [w2 [[]|e2]].
    + destruct (respond env w2 (FolderSet "INBOX")) as [w3 [[]|e3]]; [done|].
      intros [= <- <- <-]. split; [done|]. eexists.
      rewrite !elem_of_cons. do 4 right. by left.
    + intros [= <- <- <-]. split; [done|]. eexists.
      rewrite !elem_of_cons. do 3 right. by left.
  - intros [= <- <- <-]. split; [done|]. eexists.
    rewrite !elem_of_cons. right. by left.
Qed.

(** [handle_mail_account] once the mailbox is open: authentication, the
    rule loop, and the release of the session on every path. *)
Lemma handle_mail_account_run (account : MailAccount) (w w1 : W) :
  respond env w (Open (account_mailbox account)) = (w1, Ok tt) ->
  handle_mail_account env account w =
  match login env account w1 with
  | (w2, tl, Ok _) =>
      let '(w3, t, r) :=
        handle_rules env (account_mailbox account)
          (order_by_order (rules_of env account)) 0 w2 in
      (w3, open_events account ++ tl ++ [rule_count_log env account] ++ t ++ [Logout], r)
  | (w2, tl, Raise e) => (w2, open_events account ++ tl ++ [Logout], Raise e)
  end.
Proof.
  intros Hopen. unfold handle_mail_account, account_mailbox in *. cbv zeta.
  rewrite bind_run. unfold log at 1. unfold try_except at 1.
  rewrite bind_run. unfold call at 1. rewrite Hopen.
  unfold finally. rewrite bind_run.
  destruct (login env account w1) as [[w2 tl] [[]|e]] eqn:Hlogin.
  - rewrite bind_run. unfold log at 1.
    destruct (handle_rules_run (account_mailbox account)
                (order_by_order (rules_of env account)) 0 w2)
      as (w3 & t & Hrun & _).
    unfold account_mailbox in Hrun. rewrite Hrun.
    unfold open_events, rule_count_log. cbn [app].
    by rewrite ?app_nil_r, <- ?app_assoc.
  - apply login_raises in Hlogin as [-> _]. cbn.
    unfold open_events. cbn [app]. by rewrite ?app_nil_r, <- ?app_assoc.
Qed.


End Account.

(** ** The claims about rules and accounts *)

Section Claims.

Context {W : Type} (env : Env W).

(** The pre-filter of the action is in the criteria as it is. *)
Lemma make_criterias_action (today : Z) (rule : MailRule)
    (c : gmap string crit_value) (k : string) (v : crit_value) :
  make_criterias today rule = Ok c ->
  get_criteria (get_rule_action rule) !! k = Some v ->
  c !! k = Some v.
Proof.
  unfold make_criterias.
  destruct (timedelta (maximum_age rule)) as [delta|e]; [|done].
  destruct (date_sub today delta) as [limit|e]; [|done].
  intros [= <-] Hk. by apply lookup_union_Some_l.
Qed.

(** C2.  For a rule whose action is Tag with keyword [k]: every fetch of
    a run of the rule carries the query [AND(NOT(gmail_label = k), flat)],
    where [flat] is the criteria map [make_criterias] built without its
    [gmail_label] entry, and [flat] still holds [no_keyword = k]; and once
    the folder is selected and the criteria are built, the run makes
    exactly one fetch. *)
Theorem tag_rule_search_criteria (M : MailBox) (rule : MailRule) (w : W) :
  action rule = TAG ->
  let k := action_parameter rule in
  let tag_query c :=
    AND [NOT [] {[ "gmail_label" := VStr k ]}] (delete "gmail_label" c) in
  (forall q mark_seen charset,
     Fetch q mark_seen charset ∈ events_of (handle_mail_rule env M rule w) ->
     exists now c,
       make_criterias now rule = Ok c /\
       q = tag_query c /\
       delete "gmail_label" c !! "no_keyword" = Some (VStr k) /\
       delete "gmail_label" c !! "gmail_label" = None /\
       (forall key, key <> "gmail_label" ->
                    delete "gmail_label" c !! key = c !! key)) /\
  (forall w1 c,
     respond env w (FolderSet (folder rule)) = (w1, Ok tt) ->
     make_criterias (today env w1) rule = Ok c ->
     filter (fun e => is_fetch e = true) (events_of (handle_mail_rule env M rule w))
     = [Fetch (tag_query c) false (character_set (account rule))]).
Proof.
  intros Htag k tag_query.
  assert (forall now c, make_criterias now rule = Ok c ->
                        criterias_imap c = tag_query c) as Hquery.
  { intros now c Hc. unfold criterias_imap.
    rewrite (make_criterias_action _ _ _ "gmail_label" (VStr k) Hc); [done|].
    unfold get_rule_action. by rewrite Htag. }
  split.
  - intros q mark_seen charset Hin.
    assert (Fetch q mark_seen charset
            ∈ filter (fun e => is_fetch e = true)
                (events_of (handle_mail_rule env M rule w))) as Hf.
    { by apply list_elem_of_filter. }
    rewrite handle_mail_rule_fetches in Hf.
    destruct (respond env w (FolderSet (folder rule))) as [w1 [[]|e]];
      [|by apply elem_of_nil in Hf].
    destruct (make_criterias (today env w1) rule) as [c|e] eqn:Hc;
      [|by apply elem_of_nil in Hf].
    apply list_elem_of_singleton in Hf. injection Hf as -> -> ->.
    exists (today env w1), c. split; [done|].
    split; [by apply (Hquery (today env w1))|].
    split.
    { rewrite lookup_delete_ne by done.
      apply (make_criterias_action _ _ _ _ _ Hc).
      unfold get_rule_action. by rewrite Htag. }
    split; [apply lookup_delete_eq|].
    intros key Hkey. by apply lookup_delete_ne.
  - intros w1 c Hfolder Hc.
    by rewrite handle_mail_rule_fetches, Hfolder, Hc, (Hquery _ _ Hc).
Qed.

(** Membership in the batch: the uids of the messages whose pipeline
    completed with a positive count. *)
Lemma elem_of_dispatched_uids (results : list (MailMessage * outcome nat))
    (u : string) :
  u ∈ dispatched_uids results <->
  exists m n, (m, Ok n) ∈ results /\ (0 < n)%nat /\ uid m = u.
Proof.
  induction results as [|[m [n|e]] results IH]; cbn [dispatched_uids].
  - split; [by intros ?%elem_of_nil|]. by intros (? & ? & ?%elem_of_nil & _).
  - destruct (Nat.ltb_spec 0 n).
    + rewrite elem_of_cons, IH. split.
      * intros [->|(m' & n' & Hin & Hn & Hu)].
        -- exists m, n. split; [by left|done].
        -- exists m', n'. split; [by right|done].
      * intros (m' & n' & Hin & Hn & Hu).
        apply elem_of_cons in Hin as [[= -> ->]|Hin]; [by left|].
        right. eauto.
    + rewrite IH. split.
      * intros (m' & n' & Hin & Hn & Hu). exists m', n'. split; [by right|done].
      * intros (m' & n' & Hin & Hn & Hu).
        apply elem_of_cons in Hin as [[= -> ->]|Hin]; [lia|]. eauto.
  - rewrite IH. split.
    + intros (m' & n' & Hin & Hn & Hu). exists m', n'. split; [by right|done].
    + intros (m' & n' & Hin & Hn & Hu).
      apply elem_of_cons in Hin as [[=]|Hin]. eauto.
Qed.

(** A message whose attachments are all skipped dispatches nothing, and
    returns 0 unless resolving its correspondent raises. *)
Lemma handle_message_all_skipped (rule : MailRule) (m : MailMessage) (w : W) :
  Forall (skipped env rule) (attachments m) ->
  Forall (fun e => is_async_task e = false) (events_of (handle_message env m rule w)) /\
  (forall w1 t1 corr,
     get_correspondent env m rule w = (w1, t1, Ok corr) ->
     result_of (handle_message env m rule w) = Ok 0%nat).
Proof.
  intros Hs. destruct (attachments m) as [|a atts] eqn:Ha.
  { rewrite (handle_message_no_attachments env rule m w Ha).
    split; [constructor|done]. }
  assert (handle_message env m rule w =
          match get_correspondent env m rule w with
          | (w1, t1, Ok corr) =>
              let '(w2, t2, r) :=
                handle_attachments env m rule corr (assign_tags rule)
                  (assign_document_type rule) (attachments m) 0 w1 in
              (w2,
               Log "debug"
                 ("Rule " +++ rule_str rule +++ ": Processing mail " +++ subject m
                  +++ " from " +++ from_ m +++ " with "
                  +++ pretty (length (attachments m)) +++ " attachment(s)")
               :: t1 ++ t2, r)
          | (w1, t1, Raise e) =>
              (w1,
               Log "debug"
                 ("Rule " +++ rule_str rule +++ ": Processing mail " +++ subject m
                  +++ " from " +++ from_ m +++ " with "
                  +++ pretty (length (attachments m)) +++ " attachment(s)")
               :: t1, Raise e)
          end) as Hrun.
  { unfold handle_message. rewrite Ha.
    rewrite bind_run. unfold log at 1. rewrite bind_run.
    destruct (get_correspondent env m rule w) as [[w1 t1] [corr|e]]; [|done].
    by destruct (handle_attachments env m rule corr _ _ (a :: atts) 0 w1)
      as [[w2 t2] r2]. }
  rewrite Hrun. clear Hrun.
  pose proof (emits_get_correspondent env (fun e => is_async_task e = false)
                m rule ltac:(done) ltac:(done) w) as Hc.
  unfold events_of in Hc. rewrite <- Ha in Hs.
  destruct (get_correspondent env m rule w) as [[w1 t1] [corr|e]]; simpl in Hc.
  - destruct (handle_attachments_all_skipped env m rule corr (assign_tags rule)
                (assign_document_type rule) (attachments m) 0 w1 Hs)
      as (w2 & t2 & -> & Ht2).
    split; [|done]. unfold events_of. cbn [fst snd]. constructor; [done|].
    by apply Forall_app.
  - split; [|done]. unfold events_of. cbn [fst snd]. by constructor.
Qed.

(** C4, as amended.  In a rule pass that gets as far as the action, the
    uid batch handed to the action holds exactly the uids, in fetch order,
    of the fetched messages whose attachment pipeline completed without
    raising and returned a positive count, that is, dispatched at least
    one attachment (the count a message returns is the number of dispatch
    requests it sent); the count the rule returns is the sum of the counts
    of the messages that completed.  A message without attachments returns
    0 at once.  A message whose attachments are all skipped dispatches
    nothing and returns 0 (unless resolving its correspondent raises, which
    the message loop catches); either way it is not in the batch. *)
Theorem post_consume_batch (M : MailBox) (rule : MailRule) (w w1 w2 : W)
    (c : gmap string crit_value) (fetched : Fetched) :
  respond env w (FolderSet (folder rule)) = (w1, Ok tt) ->
  make_criterias (today env w1) rule = Ok c ->
  respond_fetch env w1 (criterias_imap c) false (character_set (account rule))
    = (w2, Ok fetched) ->
  fetch_interrupted fetched = None ->
  let results := message_results env rule (fetched_messages fetched) w2 in
  (exists w3 t3 cs,
     handle_messages env rule (fetched_messages fetched) no_messages_yet w2
       = (w3, t3, Ok cs) /\
     handle_mail_rule env M rule w =
     let '(w4, t4, r4) :=
       post_consume env (get_rule_action rule) M
         (dispatched_uids results) (action_parameter rule) w3 in
     (w4,
      search_events env rule c ++ t3 ++ action_logs rule cs ++ t4,
      match r4 with
      | Ok _ => Ok (completed_total results)
      | Raise e => Raise (post_consume_error rule e)
      end)) /\
  (forall u, u ∈ dispatched_uids results <->
             exists m n, (m, Ok n) ∈ results /\ (0 < n)%nat /\ uid m = u) /\
  (forall m w' w'' t n,
     handle_message env m rule w' = (w'', t, Ok n) ->
     n = length (filter (fun e => is_async_task e = true) t)) /\
  (forall m w', attachments m = [] ->
                handle_message env m rule w' = (w', [], Ok 0%nat)) /\
  (forall m w', Forall (skipped env rule) (attachments m) ->
     Forall (fun e => is_async_task e = false)
       (events_of (handle_message env m rule w')) /\
     (forall w'' t corr,
        get_correspondent env m rule w' = (w'', t, Ok corr) ->
        result_of (handle_message env m rule w') = Ok 0%nat)).
Proof.
  intros Hfolder Hc Hfetch Hint results. split; [|split; [|split; [|split]]].
  - destruct (handle_messages_run env rule (fetched_messages fetched)
                no_messages_yet w2) as (w3 & t3 & cs & Hloop & Hu & Ht & _).
    exists w3, t3, cs. split; [done|].
    rewrite (handle_mail_rule_run env M rule w w1 w2 w3 c fetched t3 cs
               Hfolder Hc Hfetch Hint Hloop).
    cbn in Hu, Ht. fold results in Hu, Ht. by rewrite Hu, Ht.
  - apply elem_of_dispatched_uids.
  - intros m w' w'' t n. apply handle_message_count.
  - intros m w'. apply handle_message_no_attachments.
  - intros m w'. apply handle_message_all_skipped.
Qed.

(** C10.  When the action of a rule raises after the messages were
    processed, [handle_mail_rule] raises a [MailError]; the files the rule
    counted, each of which was requested for dispatch, are added to no
    total: the rule loop logs the error and goes on with the total it had,
    so the account's total is what the other rules produce. *)
Theorem post_consume_failure_discards_count (M : MailBox) (rule : MailRule)
    (w w1 w2 w3 w4 : W) (c : gmap string crit_value) (fetched : Fetched)
    (t3 t4 : list event) (cs : RuleCounters) (e : exn) :
  respond env w (FolderSet (folder rule)) = (w1, Ok tt) ->
  make_criterias (today env w1) rule = Ok c ->
  respond_fetch env w1 (criterias_imap c) false (character_set (account rule))
    = (w2, Ok fetched) ->
  fetch_interrupted fetched = None ->
  handle_messages env rule (fetched_messages fetched) no_messages_yet w2
    = (w3, t3, Ok cs) ->
  post_consume env (get_rule_action rule) M
    (post_consume_messages cs) (action_parameter rule) w3 = (w4, t4, Raise e) ->
  let events := search_events env rule c ++ t3 ++ action_logs rule cs ++ t4 in
  handle_mail_rule env M rule w = (w4, events, Raise (post_consume_error rule e)) /\
  (total_processed_files cs
   <= length (filter (fun e => is_async_task e = true) events))%nat /\
  (forall rest total,
     handle_rules env M (rule :: rest) total w =
     let '(w5, t5, r5) := handle_rules env M rest total w4 in
     (w5, events ++ [rule_error_log rule (post_consume_error rule e)] ++ t5, r5)) /\
  (forall account wa wb tl rest,
     respond env wa (Open (account_mailbox account)) = (wb, Ok tt) ->
     login env account wb = (w, tl, Ok tt) ->
     M = account_mailbox account ->
     order_by_order (rules_of env account) = rule :: rest ->
     result_of (handle_mail_account env account wa)
     = Ok (completed_total (rule_results env M rest w4))).
Proof.
  intros Hfolder Hc Hfetch Hint Hloop Hpost events.
  assert (handle_mail_rule env M rule w
          = (w4, events, Raise (post_consume_error rule e))) as Hrule.
  { rewrite (handle_mail_rule_run env M rule w w1 w2 w3 c fetched t3 cs
               Hfolder Hc Hfetch Hint Hloop).
    by rewrite Hpost. }
  assert (forall rest total,
     handle_rules env M (rule :: rest) total w =
     let '(w5, t5, r5) := handle_rules env M rest total w4 in
     (w5, events ++ [rule_error_log rule (post_consume_error rule e)] ++ t5, r5))
    as Hrules.
  { intros rest total. by rewrite handle_rules_step, Hrule. }
  split; [done|]. split; [|split; [done|]].
  - apply handle_messages_count in Hloop. cbn in Hloop.
    subst events. rewrite !filter_app, !length_app. lia.
  - intros account wa wb tl rest Hopen Hlogin -> Hsorted.
    rewrite (handle_mail_account_run env account wa wb Hopen), Hlogin, Hsorted.
    rewrite Hrules.
    destruct (handle_rules_run env (account_mailbox account) rest 0 w4)
      as (w5 & t5 & -> & _).
    reflexivity.
Qed.

(** C6.  Once the mailbox is open and authentication has succeeded, the
    rules of the account run in ascending order of [order]; each of them
    selects its folder, whatever became of the rules before it; every
    exception a rule raises is logged by [handle_mail_account]; and the
    total returned is the sum of the counts of the rules that completed. *)
Theorem rule_failures_isolated (account : MailAccount) (w w1 w2 : W)
    (tl : list event) :
  respond env w (Open (account_mailbox account)) = (w1, Ok tt) ->
  login env account w1 = (w2, tl, Ok tt) ->
  let M := account_mailbox account in
  let rules := order_by_order (rules_of env account) in
  let results := rule_results env M rules w2 in
  Sorted order_le rules /\
  rules ≡ₚ rules_of env account /\
  map fst results = rules /\
  exists w3 t,
    handle_mail_account env account w
    = (w3, open_events account ++ tl ++ [rule_count_log env account] ++ t ++ [Logout],
       Ok (completed_total results)) /\
    filter (fun e => is_folder_set e = true) t
      = map (fun rule => FolderSet (folder rule)) rules /\
    (forall rule e, (rule, Raise e) ∈ results -> rule_error_log rule e ∈ t).
Proof.
  intros Hopen Hlogin M rules results.
  split; [|split; [|split]].
  - apply Sorted_merge_sort. intros r1 r2. unfold order_le. lia.
  - apply merge_sort_Permutation.
  - apply rule_results_rules.
  - rewrite (handle_mail_account_run env account w w1 Hopen), Hlogin.
    destruct (handle_rules_run env M rules 0 w2) as (w3 & t & Hrun & Hf & Hl).
    fold M rules. rewrite Hrun. exists w3, t. done.
Qed.

(** C5.  With the mailbox open: the SASL PLAIN fallback runs exactly when
    the standard login raises a [UnicodeEncodeError]; it sends a zero
    byte, the user name in UTF-8, a zero byte and the password in UTF-8,
    and then selects INBOX.  When the fallback fails, at either step, or
    when the standard login raises anything else, [handle_mail_account]
    logs an error and raises the [MailError] that names the account, and
    no rule is run; when the login or the fallback succeeds, the rule loop
    follows. *)
Theorem authentication_fallback (account : MailAccount) (w w1 : W) :
  respond env w (Open (account_mailbox account)) = (w1, Ok tt) ->
  let M := account_mailbox account in
  let rules := order_by_order (rules_of env account) in
  let standard := Login (username account) (password account) in
  let fallback := [Log "debug" "Falling back to AUTH=PLAIN";
                   Authenticate "PLAIN" (plain_response account)] in
  let failed := Log "error" "Unable to authenticate with mail server using AUTH=PLAIN" in
  plain_response account
    = Byte.x00 :: encode_utf8 (username account)
      ++ Byte.x00 :: encode_utf8 (password account) /\
  handle_mail_account env account w =
  match respond env w1 standard with
  | (w2, Ok _) =>
      let '(w', t, r) := handle_rules env M rules 0 w2 in
      (w', open_events account ++ [standard]
           ++ [rule_count_log env account] ++ t ++ [Logout], r)
  | (w2, Raise e) =>
      if is_class UnicodeEncodeError e then
        match respond env w2 (Authenticate "PLAIN" (plain_response account)) with
        | (w3, Ok _) =>
            match respond env w3 (FolderSet "INBOX") with
            | (w4, Ok _) =>
                let '(w', t, r) := handle_rules env M rules 0 w4 in
                (w', open_events account
                     ++ (standard :: fallback ++ [FolderSet "INBOX"])
                     ++ [rule_count_log env account] ++ t ++ [Logout], r)
            | (w4, Raise _) =>
                (w4, open_events account
                     ++ (standard :: fallback ++ [FolderSet "INBOX"; failed])
                     ++ [Logout],
                 Raise (authentication_error account))
            end
        | (w3, Raise _) =>
            (w3, open_events account ++ (standard :: fallback ++ [failed])
                 ++ [Logout],
             Raise (authentication_error account))
        end
      else
        (w2, open_events account
             ++ [standard;
                 Log "error"
                   ("Error while authenticating account " +++ account_str account
                    +++ ": " +++ str_exn e)]
             ++ [Logout],
         Raise (authentication_error account))
  end /\
  (forall w', Forall (fun e => is_authenticate e = false)
                (events_of (handle_rules env M rules 0 w'))).
Proof.
  intros Hopen M rules standard fallback failed. split; [reflexivity|]. split.
  - rewrite (handle_mail_account_run env account w w1 Hopen), login_run.
    fold standard.
    destruct (respond env w1 standard) as [w2 [[]|e]]; [reflexivity|].
    destruct (is_class UnicodeEncodeError e); [|reflexivity].
    destruct (respond env w2 (Authenticate _ _)) as [w3 [[]|e3]]; [|reflexivity].
    destruct (respond env w3 (FolderSet "INBOX")) as [w4 [[]|e4]]; reflexivity.
  - intros w'. eapply Forall_impl; [apply (emits_handle_rules env M rules 0 w')|].
    intros e He. by destruct e.
Qed.


End Claims.

(** ** The claims on the sample server *)

Lemma tag_rule_search_criteria_witness :
  let env := sample_env sample_mailbox [] in
  let rule := sample_rule TAG "Invoices" in
  let query :=
    AND [NOT [] {[ "gmail_label" := VStr "Invoices" ]}]
      (delete "gmail_label" (sample_criteria (TagMailAction "Invoices"))) in
  filter (fun e => is_fetch e = true)
    (events_of (handle_mail_rule env sample_mailbox_host rule ""))
  = [Fetch query false "UTF-8"] /\
  exists now c,
    make_criterias now rule = Ok c /\
    query = AND [NOT [] {[ "gmail_label" := VStr "Invoices" ]}]
              (delete "gmail_label" c) /\
    delete "gmail_label" c !! "no_keyword" = Some (VStr "Invoices").
Proof.
  intros env rule query.
  destruct (tag_rule_search_criteria env sample_mailbox_host rule "" eq_refl)
    as [Hevery Honce].
  assert (filter (fun e => is_fetch e = true)
            (events_of (handle_mail_rule env sample_mailbox_host rule ""))
          = [Fetch query false "UTF-8"]) as Hfetch.
  { apply (Honce "INBOX" (sample_criteria (TagMailAction "Invoices"))).
    - reflexivity.
    - vm_compute. reflexivity. }
  split; [exact Hfetch|].
  destruct (Hevery query false "UTF-8") as (now & c & Hc & Hq & Hk & _).
  { apply (list_elem_of_filter (fun e => is_fetch e = true)).
    rewrite Hfetch. apply list_elem_of_singleton. reflexivity. }
  exists now, c. split; [exact Hc|]. split; [exact Hq|exact Hk].
Defined.

(** C4 as stated fails: the third message of the sample inbox has an
    attachment dispatched and then raises, and its uid is not in the batch
    the action receives. *)
Lemma partly_dispatched_message_left_out :
  let env := sample_env sample_mailbox [] in
  let rule := sample_rule MARK_READ "" in
  sample_mailbox "INBOX" !! 2%nat = Some partly_written_message /\
  filter (fun e => is_async_task e = true)
    (events_of (handle_message env partly_written_message rule "INBOX"))
  = [AsyncTask {|
       path := "/tmp/paperless/paperless-mail-x";
       override_filename := "b.pdf";
       override_title := "Invoice";
       override_correspondent_id := None;
       override_document_type_id := None;
       override_tag_ids := [];
       task_name := "b.pdf" |}] /\
  result_of (handle_message env partly_written_message rule "INBOX")
  = Raise (Exn OtherException "No space left on device") /\
  last (events_of (handle_mail_rule env sample_mailbox_host rule ""))
  = Some (Flag ["1"] [SEEN] true) /\
  existsb (String.eqb (uid partly_written_message)) ["1"] = false.
Proof. repeat split; vm_compute; reflexivity. Qed.

Lemma post_consume_batch_witness :
  let env := sample_env sample_mailbox [] in
  let rule := sample_rule MARK_READ "" in
  let results := message_results env rule (sample_mailbox "INBOX") "INBOX" in
  let unsupported :=
    sample_message "4" [sample_attachment "d.txt" "application/pdf" [Byte.x41]] in
  (exists w3 t3 cs,
     handle_messages env rule (sample_mailbox "INBOX") no_messages_yet "INBOX"
       = (w3, t3, Ok cs) /\
     handle_mail_rule env sample_mailbox_host rule "" =
     let '(w4, t4, r4) :=
       post_consume env MarkReadMailAction sample_mailbox_host
         (dispatched_uids results) "" w3 in
     (w4,
      search_events env rule (sample_criteria MarkReadMailAction) ++ t3
      ++ action_logs rule cs ++ t4,
      match r4 with
      | Ok _ => Ok (completed_total results)
      | Raise e => Raise (post_consume_error rule e)
      end)) /\
  handle_message env (sample_message "2" []) rule "INBOX" = ("INBOX", [], Ok 0%nat) /\
  result_of (handle_message env unsupported rule "INBOX") = Ok 0%nat.
Proof.
  intros env rule results unsupported.
  destruct (post_consume_batch env sample_mailbox_host rule "" "INBOX" "INBOX"
              (sample_criteria MarkReadMailAction)
              {| fetched_messages := sample_mailbox "INBOX";
                 fetch_interrupted := None |})
    as (Hbatch & _ & _ & Hnone & Hskipped).
  - reflexivity.
  - vm_compute. reflexivity.
  - reflexivity.
  - reflexivity.
  - split; [exact Hbatch|]. split.
    + apply Hnone. reflexivity.
    + destruct (Hskipped unsupported "INBOX") as [_ Hzero].
      * change (attachments unsupported)
          with [sample_attachment "d.txt" "application/pdf" [Byte.x41]].
        constructor; [|constructor]. right. right. intros w.
        exists w, "text/plain". split; reflexivity.
      * apply (Hzero "INBOX" [] None). reflexivity.
Defined.

Lemma post_consume_failure_discards_count_witness :
  let rule := sample_rule TAG "Broken" in
  let env := sample_env small_mailbox [rule] in
  result_of (handle_mail_rule env sample_mailbox_host rule "")
    = Raise (post_consume_error rule (Exn OtherException "STORE failed")) /\
  (1 <= length (filter (fun e => is_async_task e = true)
                  (events_of (handle_mail_rule env sample_mailbox_host rule ""))))%nat /\
  result_of (handle_rules env sample_mailbox_host [rule] 0 "") = Ok 0%nat /\
  result_of (handle_mail_account env sample_account "") = Ok 0%nat.
Proof.
  intros rule env.
  pose (run := handle_messages env rule (small_mailbox "INBOX") no_messages_yet "INBOX").
  destruct (post_consume_failure_discards_count env sample_mailbox_host rule
              "" "INBOX" "INBOX" "INBOX" "INBOX"
              (sample_criteria (TagMailAction "Broken"))
              {| fetched_messages := small_mailbox "INBOX";
                 fetch_interrupted := None |}
              (events_of run) [Flag ["7"] ["Broken"] true]
              {| post_consume_messages := ["7"];
                 mails_processed := 1;
                 total_processed_files := 1 |}
              (Exn OtherException "STORE failed"))
    as (Hrule & Hcount & Hrules & Haccount).
  - reflexivity.
  - vm_compute. reflexivity.
  - reflexivity.
  - reflexivity.
  - vm_compute. reflexivity.
  - reflexivity.
  - split; [|split; [|split]].
    + rewrite Hrule. reflexivity.
    + rewrite Hrule. exact Hcount.
    + rewrite Hrules. reflexivity.
    + rewrite (Haccount sample_account "" "" [Login "user" "secret"] []);
        reflexivity.
Defined.

Lemma rule_failures_isolated_witness :
  let env := sample_env sample_mailbox sample_rules in
  let missing := with_folder "Missing" 1 (sample_rule DELETE "") in
  map order (order_by_order sample_rules) = [1; 2] /\
  exists w3 t,
    handle_mail_account env sample_account ""
    = (w3,
       open_events sample_account ++ [Login "user" "secret"]
       ++ [rule_count_log env sample_account] ++ t ++ [Logout],
       Ok 1%nat) /\
    filter (fun e => is_folder_set e = true) t
      = [FolderSet "Missing"; FolderSet "INBOX"] /\
    rule_error_log missing
      (Exn MailError
         "Rule acct.rule: Folder Missing does not exist in account acct") ∈ t.
Proof.
  intros env missing. split; [reflexivity|].
  destruct (rule_failures_isolated env sample_account "" "" ""
              [Login "user" "secret"] eq_refl eq_refl)
    as (_ & _ & _ & w3 & t & Hrun & Hfolders & Hlogged).
  exists w3, t. split; [exact Hrun|]. split; [exact Hfolders|].
  apply Hlogged. apply list_elem_of_In. vm_compute. left. reflexivity.
Defined.

Lemma authentication_fallback_witness :
  let env := sample_env small_mailbox [] in
  let account := with_credentials "imap.example.org" jose "secret" sample_account in
  firstn 6 (events_of (handle_mail_account env account ""))
  = open_events account
    ++ [Login jose "secret";
        Log "debug" "Falling back to AUTH=PLAIN";
        Authenticate "PLAIN"
          [Byte.x00; Byte.x6a; Byte.x6f; Byte.x73; Byte.xc3; Byte.xa9;
           Byte.x00; Byte.x73; Byte.x65; Byte.x63; Byte.x72; Byte.x65; Byte.x74];
        FolderSet "INBOX"].
Proof.
  intros env account.
  destruct (authentication_fallback env account "" "" eq_refl) as (_ & Hrun & _).
  rewrite Hrun. reflexivity.
Defined.


(** * Further properties *)

(** ** Titles *)

Lemma contains_char_app (c : ascii) (a b : string) :
  contains_char c (a +++ b) = contains_char c a || contains_char c b.
Proof.
  induction a as [|x a IH]; [done|].
  rewrite append_cons. cbn [contains_char]. by rewrite IH, orb_assoc.
Qed.

Lemma rsplit_char_None (c : ascii) (s : string) :
  contains_char c s = false -> rsplit_char c s = None.
Proof.
  induction s as [|a s IH]; [done|]. cbn [contains_char rsplit_char].
  intros [Ha Hs]%orb_false_iff. by rewrite (IH Hs), Ha.
Qed.

Lemma rsplit_char_last (c : ascii) (a b : string) :
  contains_char c b = false ->
  rsplit_char c (a +++ String c b) = Some (a, b).
Proof.
  intros Hb. induction a as [|x a IH].
  - rewrite append_nil_l. cbn [rsplit_char].
    by rewrite (rsplit_char_None _ _ Hb), Ascii.eqb_refl.
  - rewrite append_cons. cbn [rsplit_char]. by rewrite IH.
Qed.

Lemma rsplit_char_Some (c : ascii) (s before after : string) :
  rsplit_char c s = Some (before, after) ->
  s = before +++ String c after /\ contains_char c after = false.
Proof.
  revert before. induction s as [|a s IH]; intros before; [done|].
  cbn [rsplit_char]. destruct (rsplit_char c s) as [[b' a']|] eqn:Hs.
  - intros [= <- <-]. destruct (IH b' eq_refl) as [-> Ha]. by rewrite append_cons.
  - destruct (Ascii.eqb a c) eqn:Hac; [|done]. intros [= <- <-].
    apply Ascii.eqb_eq in Hac as ->. rewrite append_nil_l. split; [done|].
    clear IH. induction s as [|x s IH]; [done|]. cbn [rsplit_char] in Hs.
    cbn [contains_char].
    destruct (rsplit_char c s) as [[? ?]|]; [done|].
    destruct (Ascii.eqb x c); [done|]. by rewrite IH.
Qed.

Lemma rsplit_char_None_inv (c : ascii) (s : string) :
  rsplit_char c s = None -> contains_char c s = false.
Proof.
  induction s as [|x s IH]; [done|]. cbn [rsplit_char contains_char].
  destruct (rsplit_char c s) as [[? ?]|]; [done|].
  destruct (Ascii.eqb x c); [done|]. intros _. by rewrite IH.
Qed.

Lemma basename_no_slash (p : string) : contains_char "/" (basename p) = false.
Proof.
  unfold basename. destruct (rsplit_char "/" p) as [[d b]|] eqn:Hp.
  - by apply rsplit_char_Some in Hp as [_ ?].
  - by apply rsplit_char_None_inv.
Qed.

Lemma basename_of_path (dir base : string) :
  dir = "" \/ ends_with dir "/" ->
  contains_char "/" base = false ->
  basename (dir +++ base) = base.
Proof.
  intros [->|[front ->]] Hbase; unfold basename.
  - by rewrite append_nil_l, (rsplit_char_None _ _ Hbase).
  - rewrite append_assoc, append_cons, append_nil_l.
    by rewrite (rsplit_char_last _ _ _ Hbase).
Qed.

(** X1.  With the title taken from the file name, the title of an
    attachment named [dir/stem.ext] is [stem]: the directories and the
    last extension are dropped.  When [stem] is empty or made of dots only
    (a hidden file such as [.profile]), the whole name [stem.ext] is the
    title. *)
Theorem title_from_filename (m : MailMessage) (att : MailAttachment)
    (rule : MailRule) (dir stem ext : string) :
  assign_title_from rule = FROM_FILENAME ->
  filename att = dir +++ stem +++ String "." ext ->
  dir = "" \/ ends_with dir "/" ->
  contains_char "/" stem = false ->
  contains_char "/" ext = false ->
  contains_char "." ext = false ->
  get_title m att rule = if all_dots stem then stem +++ String "." ext else stem.
Proof.
  intros Hsel Hname Hdir Hstem Hext Hdot. unfold get_title. rewrite Hsel, Hname.
  rewrite basename_of_path; [|done|].
  - unfold splitext_root. by rewrite (rsplit_char_last _ _ _ Hdot).
  - rewrite contains_char_app. cbn [contains_char]. by rewrite Hstem, Hext.
Qed.

Lemma title_from_filename_witness :
  get_title (sample_message "1" [])
    (sample_attachment "2026/scans/invoice.final.pdf" "application/pdf" pdf_magic)
    (with_title_from FROM_FILENAME (sample_rule DELETE ""))
  = "invoice.final".
Proof.
  apply (title_from_filename _ _ _ "2026/scans/" "invoice.final" "pdf");
    [reflexivity| reflexivity | right; by exists "2026/scans" | reflexivity..].
Defined.

(** X2.  A title taken from the file name holds no slash, whatever the
    name, and is the start of the name's last component. *)
Theorem title_from_filename_no_directory (m : MailMessage)
    (att : MailAttachment) (rule : MailRule) :
  assign_title_from rule = FROM_FILENAME ->
  contains_char "/" (get_title m att rule) = false /\
  exists rest, basename (filename att) = get_title m att rule +++ rest.
Proof.
  intros Hsel. unfold get_title. rewrite Hsel. unfold splitext_root.
  pose proof (basename_no_slash (filename att)) as Hb.
  destruct (rsplit_char "." (basename (filename att))) as [[root e]|] eqn:Hr.
  - destruct (all_dots root).
    + split; [done|]. exists "". by rewrite append_nil_r.
    + apply rsplit_char_Some in Hr as [Hr _]. rewrite Hr in Hb |- *.
      rewrite contains_char_app in Hb. apply orb_false_iff in Hb as [Hb _].
      split; [done|]. by eexists.
  - split; [done|]. exists "". by rewrite append_nil_r.
Qed.

Lemma title_from_filename_no_directory_witness :
  let att := sample_attachment "a/b/.profile" "text/plain" [] in
  let rule := with_title_from FROM_FILENAME (sample_rule DELETE "") in
  contains_char "/" (get_title (sample_message "1" []) att rule) = false /\
  exists rest,
    basename (filename att) = get_title (sample_message "1" []) att rule +++ rest.
Proof.
  intros att rule. apply (title_from_filename_no_directory _ att rule). reflexivity.
Defined.

(** ** File name globs *)

Lemma translate_plain_text (s : string) :
  plain_text s = true -> translate s = map GLit (list_ascii_of_string s).
Proof.
  unfold translate. induction s as [|c s IH]; [done|].
  cbn [plain_text list_ascii_of_string translate_from map].
  intros [Hc Hs]%andb_true_iff. unfold is_glob_special in Hc.
  apply negb_true_iff in Hc.
  apply orb_false_iff in Hc as [[H1 H2]%orb_false_iff H3].
  by rewrite H1, H2, H3, (IH Hs).
Qed.

Lemma glob_match_literals (l s : list ascii) :
  glob_match (map GLit l) s = true <-> s = l.
Proof.
  revert s. induction l as [|a l IH]; intros [|c s]; cbn [map glob_match];
    try done.
  rewrite andb_true_iff, IH, Ascii.eqb_eq. split.
  - by intros [-> ->].
  - by intros [= -> ->].
Qed.

Lemma glob_match_star (toks : list glob_tok) (s : list ascii) :
  glob_match (GStar :: toks) s = true <->
  exists front back, s = front ++ back /\ glob_match toks back = true.
Proof.
  cbn [glob_match]. induction s as [|c s IH].
  - rewrite orb_false_r. split.
    + intros H. by exists [], [].
    + intros ([|? ?] & back & Hs & Hm); [|done]. cbn [app] in Hs. by subst back.
  - rewrite orb_true_iff, IH. split.
    + intros [H|(front & back & -> & H)].
      * by exists [], (c :: s).
      * by exists (c :: front), back.
    + intros ([|x front] & back & Hs & Hm).
      * left. cbn [app] in Hs. by subst back.
      * right. cbn [app] in Hs. injection Hs as -> ->. by exists front, back.
Qed.

Lemma lower_char_special (c : ascii) :
  is_glob_special (lower_char c) = is_glob_special c.
Proof. destruct c as [[] [] [] [] [] [] [] []]; reflexivity. Qed.

Lemma plain_text_lower (s : string) : plain_text (lower s) = plain_text s.
Proof.
  induction s as [|c s IH]; [done|]. cbn [lower plain_text].
  by rewrite lower_char_special, IH.
Qed.

Lemma list_ascii_of_string_inj (s t : string) :
  list_ascii_of_string s = list_ascii_of_string t -> s = t.
Proof.
  intros H. rewrite <- (string_of_list_ascii_of_string s),
    <- (string_of_list_ascii_of_string t). by rewrite H.
Qed.

Lemma list_ascii_of_string_app (s t : string) :
  list_ascii_of_string (s +++ t) = list_ascii_of_string s ++ list_ascii_of_string t.
Proof.
  induction s as [|c s IH]; [done|]. rewrite append_cons.
  cbn [list_ascii_of_string]. by rewrite IH.
Qed.

Lemma truthy_nonempty (p : string) : p <> "" -> truthy (Some p) = true.
Proof. intros Hp. cbn [truthy]. apply negb_true_iff. by apply String.eqb_neq. Qed.

(** X3.  A filename filter without [*], [?] and [[] lets through exactly
    the attachments whose name is the pattern, up to the case of
    letters. *)
Theorem filename_filter_plain_text (rule : MailRule) (att : MailAttachment)
    (p : string) :
  filter_attachment_filename rule = Some p -> p <> "" ->
  plain_text p = true ->
  skipped_by_filename rule att = false <-> lower (filename att) = lower p.
Proof.
  intros Hf Hp Hplain. unfold skipped_by_filename. rewrite Hf.
  rewrite (truthy_nonempty _ Hp), andb_true_l, negb_false_iff. unfold fnmatch.
  rewrite translate_plain_text by by rewrite plain_text_lower.
  rewrite glob_match_literals. split; [apply list_ascii_of_string_inj|by intros ->].
Qed.

Lemma filename_filter_plain_text_witness :
  skipped_by_filename (with_filename_filter "Invoice.PDF" (sample_rule DELETE ""))
    (sample_attachment "INVOICE.pdf" "application/pdf" pdf_magic) = false.
Proof.
  apply (filename_filter_plain_text _ _ "Invoice.PDF"); [reflexivity|done|reflexivity..].
Defined.

(** X4.  A filename filter made of [*] and a text without [*], [?] and
    [[] (such as [*.pdf]) lets through exactly the attachments whose name
    ends with that text, up to the case of letters; the filter [*] lets
    every attachment through. *)
Theorem filename_filter_suffix (rule : MailRule) (att : MailAttachment)
    (p : string) :
  filter_attachment_filename rule = Some (String "*" p) ->
  plain_text p = true ->
  skipped_by_filename rule att = false <->
  ends_with (lower (filename att)) (lower p).
Proof.
  intros Hf Hplain. unfold skipped_by_filename. rewrite Hf.
  rewrite truthy_nonempty, andb_true_l, negb_false_iff by done. unfold fnmatch.
  cbn [lower]. change (lower_char "*") with "*"%char.
  unfold translate. cbn [list_ascii_of_string translate_from].
  change (Ascii.eqb "*" "*") with true. cbv iota.
  change (translate_from 0 (list_ascii_of_string (lower p)))
    with (translate (lower p)).
  rewrite translate_plain_text by by rewrite plain_text_lower.
  rewrite glob_match_star. split.
  - intros (front & back & Hs & ->%glob_match_literals).
    exists (string_of_list_ascii front). apply list_ascii_of_string_inj.
    by rewrite list_ascii_of_string_app, list_ascii_of_string_of_list_ascii.
  - intros [front Hs]. exists (list_ascii_of_string front), (list_ascii_of_string (lower p)).
    split; [by rewrite Hs, list_ascii_of_string_app|by apply glob_match_literals].
Qed.

Lemma filename_filter_suffix_witness :
  skipped_by_filename (with_filename_filter "*.PDF" (sample_rule DELETE ""))
    (sample_attachment "scan.2026.Pdf" "application/pdf" pdf_magic) = false.
Proof.
  apply (filename_filter_suffix _ _ ".PDF"); [reflexivity..|].
  by exists "scan.2026".
Defined.

(** ** The PLAIN response *)

Lemma utf8_first_char (c : ascii) (rest : list Byte.byte) :
  utf8_first (utf8_char c ++ rest) = Some (c, rest).
Proof. destruct c as [[] [] [] [] [] [] [] []]; reflexivity. Qed.

Lemma encode_utf8_inj (s t : string) : encode_utf8 s = encode_utf8 t -> s = t.
Proof.
  revert t. induction s as [|c s IH]; intros [|d t]; cbn [encode_utf8]; [done|..].
  - intros H. apply (f_equal utf8_first) in H.
    by rewrite utf8_first_char in H.
  - intros H. apply (f_equal utf8_first) in H.
    by rewrite utf8_first_char in H.
  - intros H. apply (f_equal utf8_first) in H.
    rewrite !utf8_first_char in H. injection H as -> H. by rewrite (IH _ H).
Qed.

Lemma utf8_char_zero (c : ascii) :
  existsb (Byte.eqb Byte.x00) (utf8_char c) = Ascii.eqb c zero.
Proof. destruct c as [[] [] [] [] [] [] [] []]; reflexivity. Qed.

Lemma encode_utf8_zero (s : string) :
  existsb (Byte.eqb Byte.x00) (encode_utf8 s) = contains_char zero s.
Proof.
  induction s as [|c s IH]; [done|]. cbn [encode_utf8 contains_char].
  by rewrite existsb_app, utf8_char_zero, IH.
Qed.

Lemma split_at_first {A} (f : A -> bool) (x : A) (l1 l2 r1 r2 : list A) :
  f x = true -> existsb f l1 = false -> existsb f l2 = false ->
  l1 ++ x :: r1 = l2 ++ x :: r2 -> l1 = l2 /\ r1 = r2.
Proof.
  intros Hx. revert l2. induction l1 as [|a l1 IH]; intros [|b l2]; cbn [existsb app].
  - by intros _ _ [= ->].
  - intros _ [Hb _]%orb_false_iff [= <- _]. congruence.
  - intros [Ha _]%orb_false_iff _ [= -> _]. congruence.
  - intros [_ H1]%orb_false_iff [_ H2]%orb_false_iff [= -> H].
    destruct (IH l2 H1 H2 H) as [-> ->]. done.
Qed.

(** X5.  The response of the PLAIN fallback determines the credentials:
    two accounts whose user names hold no NUL character and whose
    responses are the same bytes have the same user name and the same
    password. *)
Theorem plain_response_injective (a b : MailAccount) :
  contains_char zero (username a) = false ->
  contains_char zero (username b) = false ->
  plain_response a = plain_response b ->
  username a = username b /\ password a = password b.
Proof.
  intros Ha Hb. unfold plain_response. cbn [app]. intros [= H].
  apply (split_at_first (Byte.eqb Byte.x00)) in H as [Hu Hp];
    [|done|by rewrite encode_utf8_zero..].
  split; by apply encode_utf8_inj.
Qed.

Lemma plain_response_injective_witness :
  let a := with_credentials "imap.example.org" jose "secret" sample_account in
  let b := with_credentials "mail.example.org" jose "secret" sample_account in
  username a = username b /\ password a = password b.
Proof.
  intros a b. apply (plain_response_injective a b); reflexivity.
Defined.

(** ** The search query *)


Section Search.

Context {W : Type} (env : Env W).


End Search.


(** ** Correspondents *)

Ltac in_events :=
  apply list_elem_of_In; vm_compute; repeat (first [left; reflexivity | right]).

Section Correspondents.

Context {W : Type} (env : Env W).

Lemma correspondent_from_name_run (n : string) (w : W) :
  _correspondent_from_name env n w =
  match respond_get_or_create env w n with
  | (w1, Ok c) => (w1, [GetOrCreate n], Ok (Some c))
  | (w1, Raise e) =>
      if is_class DatabaseError e then
        (w1,
         [GetOrCreate n;
          Log "error"
            ("Error while retrieving correspondent " +++ n +++ ": " +++ str_exn e)],
         Ok None)
      else (w1, [GetOrCreate n], Raise e)
  end.
Proof.
  unfold _correspondent_from_name, try_except. rewrite bind_run.
  unfold get_or_create.
  destruct (respond_get_or_create env w n) as [w1 [c|e]]; [done|].
  by destruct (is_class DatabaseError e).
Qed.

(** X7.  [get_correspondent] lets no [DatabaseError] out.  It asks the
    database at most once: not at all when the rule assigns no
    correspondent or a fixed one, for the sender's address when the rule
    says so, and, when the rule asks for the sender's name, for the
    display name if the message has one that is not empty, for the
    address otherwise.  The correspondent it returns is the rule's fixed
    one or the one the database gave. *)
Theorem get_correspondent_lookup (m : MailMessage) (rule : MailRule) (w : W) :
  let run := get_correspondent env m rule w in
  (forall e, result_of run = Raise e -> is_class DatabaseError e = false) /\
  (length (filter (fun e => is_get_or_create e = true) (events_of run)) <= 1)%nat /\
  (forall n, GetOrCreate n ∈ events_of run ->
     match assign_correspondent_from rule with
     | FROM_EMAIL => n = from_ m
     | FROM_NAME =>
         match from_values m with
         | Some v => if decide (name v = "") then n = from_ m else n = name v
         | None => n = from_ m
         end
     | FROM_NOTHING | FROM_CUSTOM => False
     end) /\
  (forall c, result_of run = Ok (Some c) ->
     (assign_correspondent_from rule = FROM_CUSTOM /\
      assign_correspondent rule = Some c) \/
     exists n w1, GetOrCreate n ∈ events_of run /\
                  respond_get_or_create env w n = (w1, Ok c)).
Proof.
  assert (Hone : forall n,
    let run := _correspondent_from_name env n w in
    (forall e, result_of run = Raise e -> is_class DatabaseError e = false) /\
    (length (filter (fun e => is_get_or_create e = true) (events_of run)) <= 1)%nat /\
    (forall n', GetOrCreate n' ∈ events_of run -> n' = n) /\
    (forall c, result_of run = Ok (Some c) ->
       exists n' w1, GetOrCreate n' ∈ events_of run /\
                     respond_get_or_create env w n' = (w1, Ok c))).
  { intros n. cbv zeta. rewrite correspondent_from_name_run.
    unfold result_of, events_of.
    destruct (respond_get_or_create env w n) as [w1 [c|e]] eqn:Hr; cbn [fst snd].
    - repeat split; [done|vm_compute; lia| |].
      + by intros n' [= ->]%list_elem_of_singleton.
      + intros c' [= <-]. exists n, w1. split; [by left|done].
    - destruct (is_class DatabaseError e) eqn:He; cbn [fst snd].
      + repeat split; [done|vm_compute; lia| |done].
        intros n'. rewrite !elem_of_cons, elem_of_nil. by intros [[= ->]|[|]].
      + repeat split; [by intros ? [= <-]|vm_compute; lia| |done].
        by intros n' [= ->]%list_elem_of_singleton. }
  cbv zeta. unfold get_correspondent.
  destruct (assign_correspondent_from rule) eqn:Hsel.
  - unfold ret, result_of, events_of. cbn [fst snd]. repeat split; try done.
    + vm_compute. lia.
    + by intros n ?%elem_of_nil.
  - destruct (Hone (from_ m)) as (H1 & H2 & H3 & H4).
    repeat split; [exact H1|exact H2|exact H3|]. intros c Hc. right. by apply H4.
  - destruct (from_values m) as [v|].
    + destruct (decide (name v = "")) as [Hv|Hv].
      * rewrite Hv. cbn [String.length Nat.ltb Nat.leb].
        destruct (Hone (from_ m)) as (H1 & H2 & H3 & H4).
        repeat split; [exact H1|exact H2|exact H3|]. intros c Hc. right. by apply H4.
      * assert ((0 <? String.length (name v))%nat = true) as ->.
        { destruct (name v); [done|]. done. }
        destruct (Hone (name v)) as (H1 & H2 & H3 & H4).
        repeat split; [exact H1|exact H2|exact H3|]. intros c Hc. right. by apply H4.
    + destruct (Hone (from_ m)) as (H1 & H2 & H3 & H4).
      repeat split; [exact H1|exact H2|exact H3|]. intros c Hc. right. by apply H4.
  - unfold ret, result_of, events_of. cbn [fst snd]. repeat split; try done.
    + vm_compute. lia.
    + by intros n ?%elem_of_nil.
    + intros c [= Hc]. by left.
Qed.

End Correspondents.

Section Dispatches.

Context {W : Type} (env : Env W).

(** What holds of every task [handle_attachments] can build holds of
    every dispatch request it sends. *)
Lemma emits_dispatches_handle_attachments (Q : ConsumeTask -> Prop)
    m rule corr tags doc atts n :
  (forall att tmp, att ∈ atts ->
     Q {| path := tmp;
          override_filename := sanitize_filename env (filename att);
          override_title := get_title m att rule;
          override_correspondent_id := option_map correspondent_id corr;
          override_document_type_id := option_map document_type_id doc;
          override_tag_ids := tags;
          task_name := String.substring 0 100 (filename att) |}) ->
  emits (dispatches Q) (handle_attachments env m rule corr tags doc atts n).
Proof.
  revert n. induction atts as [|att atts IH]; intros n HQ; [apply emits_ret|].
  assert (forall k, emits (dispatches Q)
                      (handle_attachments env m rule corr tags doc atts k)) as IH'.
  { intros k. apply IH. intros a tmp Ha. apply HQ. by right. }
  cbn [handle_attachments].
  destruct (skipped_by_disposition rule att).
  { apply emits_bind; [by apply emits_log|]. intros _. apply IH'. }
  destruct (skipped_by_filename rule att); [apply IH'|].
  apply emits_bind; [by apply emits_from_buffer|]. intros mime.
  destruct (is_mime_type_supported env mime).
  - apply emits_bind; [by apply emits_call|]. intros _.
    apply emits_bind; [by apply emits_mkstemp|]. intros tmp.
    apply emits_bind; [by apply emits_call|]. intros _.
    apply emits_bind; [by apply emits_log|]. intros _.
    apply emits_bind; [apply emits_call; apply HQ; by left|]. intros _.
    apply IH'.
  - apply emits_bind; [by apply emits_log|]. intros _. apply IH'.
Qed.

Lemma emits_dispatches_handle_message (Q : ConsumeTask -> Prop) m rule :
  (forall corr att tmp, att ∈ attachments m ->
     Q {| path := tmp;
          override_filename := sanitize_filename env (filename att);
          override_title := get_title m att rule;
          override_correspondent_id := option_map correspondent_id corr;
          override_document_type_id :=
            option_map document_type_id (assign_document_type rule);
          override_tag_ids := assign_tags rule;
          task_name := String.substring 0 100 (filename att) |}) ->
  emits (dispatches Q) (handle_message env m rule).
Proof.
  intros HQ. unfold handle_message.
  destruct (attachments m) as [|a atts] eqn:Ha; [apply emits_ret|].
  apply emits_bind; [by apply emits_log|]. intros _.
  apply emits_bind; [by apply emits_get_correspondent|]. intros corr.
  apply emits_dispatches_handle_attachments. intros att tmp Hin. by apply HQ.
Qed.

(** X8.  A database error while the correspondent is looked up does not
    fail the message: the error is logged and the attachments are handled
    as usual, every dispatch request going out without a correspondent. *)
Theorem correspondent_database_error_tolerated (m : MailMessage)
    (rule : MailRule) (w : W) :
  assign_correspondent_from rule = FROM_EMAIL \/
  assign_correspondent_from rule = FROM_NAME ->
  (forall n, exists w1 e,
     respond_get_or_create env w n = (w1, Raise e) /\
     is_class DatabaseError e = true) ->
  attachments m <> [] ->
  exists n w1 e,
    respond_get_or_create env w n = (w1, Raise e) /\
    handle_message env m rule w =
    (let '(w2, t2, r) :=
       handle_attachments env m rule None (assign_tags rule)
         (assign_document_type rule) (attachments m) 0 w1 in
     (w2,
      [Log "debug"
         ("Rule " +++ rule_str rule +++ ": Processing mail " +++ subject m
          +++ " from " +++ from_ m +++ " with "
          +++ pretty (length (attachments m)) +++ " attachment(s)");
       GetOrCreate n;
       Log "error"
         ("Error while retrieving correspondent " +++ n +++ ": " +++ str_exn e)]
      ++ t2,
      r)) /\
    Forall (dispatches (fun t => override_correspondent_id t = None))
      (events_of (handle_message env m rule w)).
Proof.
  intros Hsel Hdown Hatts.
  assert (exists n, get_correspondent env m rule = _correspondent_from_name env n)
    as [n Hn].
  { unfold get_correspondent. destruct Hsel as [-> | ->]; [by eexists|].
    destruct (from_values m) as [v|]; [|by eexists].
    destruct (0 <? String.length (name v))%nat; by eexists. }
  destruct (Hdown n) as (w1 & e & Hr & He). exists n, w1, e.
  split; [exact Hr|].
  assert (handle_message env m rule w =
    (let '(w2, t2, r) :=
       handle_attachments env m rule None (assign_tags rule)
         (assign_document_type rule) (attachments m) 0 w1 in
     (w2,
      [Log "debug"
         ("Rule " +++ rule_str rule +++ ": Processing mail " +++ subject m
          +++ " from " +++ from_ m +++ " with "
          +++ pretty (length (attachments m)) +++ " attachment(s)");
       GetOrCreate n;
       Log "error"
         ("Error while retrieving correspondent " +++ n +++ ": " +++ str_exn e)]
      ++ t2,
      r))) as Hrun.
  { unfold handle_message. destruct (attachments m) as [|a atts]; [done|].
    rewrite bind_run. unfold log at 1. rewrite bind_run, Hn.
    rewrite correspondent_from_name_run, Hr, He.
    by destruct (handle_attachments env m rule None _ _ (a :: atts) 0 w1)
      as [[w2 t2] r]. }
  split; [exact Hrun|]. rewrite Hrun.
  pose proof (emits_dispatches_handle_attachments
                (fun t => override_correspondent_id t = None)
                m rule None (assign_tags rule) (assign_document_type rule)
                (attachments m) 0 ltac:(done) w1) as Hem.
  unfold events_of in *.
  destruct (handle_attachments env m rule None _ _ (attachments m) 0 w1)
    as [[w2 t2] r].
  cbn [fst snd] in *. by repeat constructor.
Qed.

End Dispatches.

Lemma correspondent_database_error_tolerated_witness :
  let env := database_down (sample_env small_mailbox []) in
  let rule := with_correspondent_from FROM_EMAIL (sample_rule DELETE "") in
  let m := sample_message "7" [sample_attachment "a.pdf" "application/pdf" pdf_magic] in
  result_of (handle_message env m rule "INBOX") = Ok 1%nat /\
  Forall (dispatches (fun t => override_correspondent_id t = None))
    (events_of (handle_message env m rule "INBOX")).
Proof.
  intros env rule m.
  destruct (correspondent_database_error_tolerated env m rule "INBOX")
    as (n & w1 & e & _ & _ & Hnone).
  - by left.
  - intros n. by exists "INBOX", (Exn DatabaseError "database is locked").
  - done.
  - split; [reflexivity|exact Hnone].
Defined.

(** ** The paths through a rule *)

Section RulePaths.

Context {W : Type} (env : Env W).

(** [handle_mail_rule], path by path. *)
Lemma handle_mail_rule_paths (M : MailBox) (rule : MailRule) (w : W) :
  handle_mail_rule env M rule w =
  match select_folder env rule w with
  | (w1, t1, Raise e) => (w1, selecting_log rule :: t1, Raise e)
  | (w1, t1, Ok _) =>
      match make_criterias (today env w1) rule with
      | Raise e => (w1, selecting_log rule :: t1, Raise e)
      | Ok c =>
          let searching :=
            [Log "debug"
               ("Rule " +++ rule_str rule +++ ": Searching folder with criteria "
                +++ str_query env (criterias_imap c));
             Fetch (criterias_imap c) false (character_set (account rule))] in
          match respond_fetch env w1 (criterias_imap c) false
                  (character_set (account rule)) with
          | (w2, Raise _) =>
              (w2, selecting_log rule :: t1 ++ searching, Raise (fetch_error rule))
          | (w2, Ok fetched) =>
              match handle_messages env rule (fetched_messages fetched)
                      no_messages_yet w2 with
              | (w3, t3, Raise e) =>
                  (w3, selecting_log rule :: t1 ++ searching ++ t3, Raise e)
              | (w3, t3, Ok cs) =>
                  match fetch_interrupted fetched with
                  | Some e =>
                      (w3, selecting_log rule :: t1 ++ searching ++ t3, Raise e)
                  | None =>
                      let '(w4, t4, r4) :=
                        post_consume env (get_rule_action rule) M
                          (post_consume_messages cs) (action_parameter rule) w3 in
                      (w4,
                       selecting_log rule
                       :: t1 ++ searching ++ t3 ++ action_logs rule cs ++ t4,
                       match r4 with
                       | Ok _ => Ok (total_processed_files cs)
                       | Raise e => Raise (post_consume_error rule e)
                       end)
                  end
              end
          end
      end
  end.
Proof.
  rewrite handle_mail_rule_phases. rewrite bind_run. unfold log at 1.
  rewrite bind_run. fold (selecting_log rule).
  destruct (select_folder env rule w) as [[w1 t1] [[]|e]]; [|done].
  unfold search_and_consume. rewrite bind_run. unfold date_today.
  rewrite bind_run. unfold lift.
  destruct (make_criterias (today env w1) rule) as [c|e].
  2: { cbn [app]. by rewrite ?app_nil_r. }
  rewrite bind_run. unfold log at 1.
  rewrite bind_run. unfold try_except at 1, fetch.
  destruct (respond_fetch env w1 (criterias_imap c) false _) as [w2 [fetched|e]].
  2: { unfold raise, fetch_error. cbn [app]. by rewrite ?app_nil_r. }
  unfold consume_fetched. rewrite bind_run. fold no_messages_yet.
  destruct (handle_messages env rule (fetched_messages fetched) no_messages_yet w2)
    as [[w3 t3] [cs|e]].
  2: { cbn [app]. done. }
  rewrite bind_run.
  destruct (fetch_interrupted fetched) as [e|].
  { unfold raise. cbn [app]. by rewrite ?app_nil_r. }
  unfold ret at 1.
  rewrite bind_run. unfold log at 1.
  rewrite bind_run. unfold log at 1.
  rewrite bind_run. unfold try_except.
  destruct (post_consume env (get_rule_action rule) M
              (post_consume_messages cs) (action_parameter rule) w3)
    as [[w4 t4] [[]|e]].
  - cbn. unfold action_logs. cbn [app].
    by rewrite ?app_nil_r, <- ?app_assoc.
  - cbn. unfold action_logs, post_consume_error. cbn [app].
    by rewrite ?app_nil_r, <- ?app_assoc.
Qed.

End RulePaths.

Section RuleFailures.

Context {W : Type} (env : Env W).

Lemma log_folders_run (names : list string) (w : W) :
  log_folders names w
  = (w, map (fun n => Log "info" ("Located folder: " +++ n)) names, Ok tt).
Proof.
  induction names as [|n names IH]; [done|].
  cbn [log_folders map]. rewrite bind_run. unfold log at 1. by rewrite IH.
Qed.

Lemma list_folders_run (w : W) :
  list_folders env w =
  match respond_folder_list env w with
  | (w1, Ok names) =>
      (w1, FolderList :: map (fun n => Log "info" ("Located folder: " +++ n)) names,
       Ok tt)
  | (w1, Raise e) =>
      (w1,
       [FolderList;
        Log "error"
          ("Exception during folder listing, unable to provide list folders: "
           +++ str_exn e)],
       Ok tt)
  end.
Proof.
  unfold list_folders, try_except. rewrite bind_run. unfold folder_list.
  destruct (respond_folder_list env w) as [w1 [names|e]]; [|done].
  by rewrite log_folders_run.
Qed.

(** X9.  When the folder of a rule cannot be selected because it does
    not exist, the rule reports it, lists the folders of the account as
    far as they can be listed, and fails with the [MailError] that names
    the rule, the folder and the account, whether or not the listing
    worked; it neither searches nor fetches.  Any other error of the
    selection passes as it is, without a listing. *)
Theorem missing_folder_fails_rule (M : MailBox) (rule : MailRule) (w w1 : W)
    (e : exn) :
  respond env w (FolderSet (folder rule)) = (w1, Raise e) ->
  handle_mail_rule env M rule w =
  if is_class MailboxFolderSelectError e then
    let attempt :=
      [selecting_log rule; FolderSet (folder rule);
       Log "error"
         ("Unable to access folder " +++ folder rule
          +++ ", attempting folder listing");
       FolderList] in
    match respond_folder_list env w1 with
    | (w2, Ok names) =>
        (w2,
         attempt ++ map (fun n => Log "info" ("Located folder: " +++ n)) names,
         Raise (folder_error rule))
    | (w2, Raise e2) =>
        (w2,
         attempt
         ++ [Log "error"
               ("Exception during folder listing, unable to provide list folders: "
                +++ str_exn e2)],
         Raise (folder_error rule))
    end
  else (w1, [selecting_log rule; FolderSet (folder rule)], Raise e).
Proof.
  intros Hsel. rewrite handle_mail_rule_paths, select_folder_run, Hsel.
  destruct (is_class MailboxFolderSelectError e); [|done].
  rewrite list_folders_run. unfold folder_error.
  by destruct (respond_folder_list env w1) as [w2 [names|e2]].
Qed.

(** X10.  When the fetch of a rule raises, whatever the exception, the
    rule fails with the [MailError] that names the rule and the folder;
    no message is handled and no action is run. *)
Theorem fetch_failure_fails_rule (M : MailBox) (rule : MailRule) (w w1 w2 : W)
    (c : gmap string crit_value) (e : exn) :
  respond env w (FolderSet (folder rule)) = (w1, Ok tt) ->
  make_criterias (today env w1) rule = Ok c ->
  respond_fetch env w1 (criterias_imap c) false (character_set (account rule))
    = (w2, Raise e) ->
  handle_mail_rule env M rule w
  = (w2, search_events env rule c, Raise (fetch_error rule)).
Proof.
  intros Hsel Hc Hfetch.
  by rewrite handle_mail_rule_paths, select_folder_run, Hsel, Hc, Hfetch.
Qed.

(** X11.  When the messages of a fetch stop coming because of an error,
    the messages that did come have been handled, attachments dispatched
    and all, but the rule fails with that error as it is, and runs no
    action on any of them. *)
Theorem interrupted_fetch_skips_action (M : MailBox) (rule : MailRule)
    (w w1 w2 : W) (c : gmap string crit_value) (fetched : Fetched) (e : exn) :
  respond env w (FolderSet (folder rule)) = (w1, Ok tt) ->
  make_criterias (today env w1) rule = Ok c ->
  respond_fetch env w1 (criterias_imap c) false (character_set (account rule))
    = (w2, Ok fetched) ->
  fetch_interrupted fetched = Some e ->
  exists w3 t3 cs,
    handle_messages env rule (fetched_messages fetched) no_messages_yet w2
      = (w3, t3, Ok cs) /\
    handle_mail_rule env M rule w = (w3, search_events env rule c ++ t3, Raise e) /\
    Forall (fun e => action_event e = false)
      (events_of (handle_mail_rule env M rule w)).
Proof.
  intros Hsel Hc Hfetch Hint.
  destruct (handle_messages_run env rule (fetched_messages fetched)
              no_messages_yet w2) as (w3 & t3 & cs & Hloop & _).
  exists w3, t3, cs. split; [exact Hloop|].
  assert (handle_mail_rule env M rule w
          = (w3, search_events env rule c ++ t3, Raise e)) as Hrun.
  { by rewrite handle_mail_rule_paths, select_folder_run, Hsel, Hc, Hfetch,
      Hloop, Hint. }
  split; [exact Hrun|]. rewrite Hrun. unfold events_of. cbn [fst snd].
  apply Forall_app. split; [by repeat constructor|].
  pose proof (emits_handle_messages env rule (fetched_messages fetched)
                no_messages_yet w2) as Hem.
  rewrite Hloop in Hem. eapply Forall_impl; [exact Hem|].
  intros e' He'. by destruct e'.
Qed.

(** X12.  A rule whose [maximum_age] takes the age limit out of the
    range of dates fails with [OverflowError] as soon as its folder is
    selected: it neither searches nor fetches. *)
Theorem unrepresentable_age_fails_rule (M : MailBox) (rule : MailRule)
    (w w1 : W) :
  respond env w (FolderSet (folder rule)) = (w1, Ok tt) ->
  ~ age_limit_representable (today env w1) rule ->
  exists msg,
    handle_mail_rule env M rule w
    = (w1, [selecting_log rule; FolderSet (folder rule)],
       Raise (Exn OverflowError msg)).
Proof.
  intros Hsel Hage. destruct (make_criterias_Raise _ _ Hage) as [msg Hc].
  exists msg. by rewrite handle_mail_rule_paths, select_folder_run, Hsel, Hc.
Qed.

End RuleFailures.

Lemma missing_folder_fails_rule_witness :
  handle_mail_rule (sample_env sample_mailbox []) sample_mailbox_host
    (with_folder "Missing" 1 (sample_rule DELETE "")) ""
  = ("",
     [selecting_log (with_folder "Missing" 1 (sample_rule DELETE ""));
      FolderSet "Missing";
      Log "error" "Unable to access folder Missing, attempting folder listing";
      FolderList;
      Log "info" "Located folder: INBOX";
      Log "info" "Located folder: Archive"],
     Raise (folder_error (with_folder "Missing" 1 (sample_rule DELETE "")))).
Proof.
  exact (missing_folder_fails_rule (sample_env sample_mailbox []) sample_mailbox_host
           (with_folder "Missing" 1 (sample_rule DELETE "")) "" ""
           (Exn MailboxFolderSelectError "folder does not exist") eq_refl).
Defined.

Lemma fetch_failure_fails_rule_witness :
  let env := with_fetch (fun w => (w, Raise (Exn OtherException "connection lost")))
               (sample_env sample_mailbox []) in
  let rule := sample_rule DELETE "" in
  handle_mail_rule env sample_mailbox_host rule ""
  = ("INBOX", search_events env rule (sample_criteria DeleteMailAction),
     Raise (fetch_error rule)).
Proof.
  intros env rule.
  apply (fetch_failure_fails_rule env sample_mailbox_host rule "" "INBOX" "INBOX"
           (sample_criteria DeleteMailAction)
           (Exn OtherException "connection lost")).
  - reflexivity.
  - vm_compute. reflexivity.
  - reflexivity.
Defined.

Lemma interrupted_fetch_skips_action_witness :
  let lost := Exn OtherException "connection lost" in
  let env := with_fetch
               (fun w => (w, Ok {| fetched_messages := small_mailbox w;
                                   fetch_interrupted := Some lost |}))
               (sample_env small_mailbox []) in
  let rule := sample_rule DELETE "" in
  result_of (handle_mail_rule env sample_mailbox_host rule "") = Raise lost /\
  length (filter (fun e => is_async_task e = true)
            (events_of (handle_mail_rule env sample_mailbox_host rule ""))) = 1%nat /\
  Forall (fun e => action_event e = false)
    (events_of (handle_mail_rule env sample_mailbox_host rule "")).
Proof.
  intros lost env rule.
  destruct (interrupted_fetch_skips_action env sample_mailbox_host rule
              "" "INBOX" "INBOX" (sample_criteria DeleteMailAction)
              {| fetched_messages := small_mailbox "INBOX";
                 fetch_interrupted := Some lost |} lost)
    as (w3 & t3 & cs & _ & _ & Hnone).
  - reflexivity.
  - vm_compute. reflexivity.
  - reflexivity.
  - reflexivity.
  - split; [reflexivity|]. split; [vm_compute; reflexivity|exact Hnone].
Defined.

Lemma unrepresentable_age_fails_rule_witness :
  exists msg,
    handle_mail_rule (sample_env sample_mailbox []) sample_mailbox_host
      (with_maximum_age 4000000 (sample_rule DELETE "")) ""
    = ("INBOX",
       [selecting_log (with_maximum_age 4000000 (sample_rule DELETE ""));
        FolderSet "INBOX"],
       Raise (Exn OverflowError msg)).
Proof.
  apply (unrepresentable_age_fails_rule (sample_env sample_mailbox [])
           sample_mailbox_host (with_maximum_age 4000000 (sample_rule DELETE ""))
           "" "INBOX").
  - reflexivity.
  - unfold age_limit_representable. vm_compute. intros [_ [H _]]. by apply H.
Defined.

(** ** What a rule does to the mailbox *)

Section RuleActions.

Context {W : Type} (env : Env W).

Lemma event_uids_action (e : event) : action_event e = false -> event_uids e = [].
Proof. by destruct e. Qed.

Lemma emits_select_folder (P : event -> Prop) (rule : MailRule) :
  (forall l msg, P (Log l msg)) -> P FolderList -> P (FolderSet (folder rule)) ->
  emits P (select_folder env rule).
Proof.
  intros Hlog Hlist Hset. apply emits_try_except; [by apply emits_call|].
  intros e h. destruct (is_class MailboxFolderSelectError e); [|done].
  intros [= <-]. apply emits_bind; [by apply emits_log|]. intros _.
  apply emits_bind; [by apply emits_list_folders|]. intros _. apply emits_raise.
Qed.

(** The commands of an action name uids of the batch only. *)
Lemma post_consume_uids (a : RuleAction) (M : MailBox) (uids : list string)
    (parameter : string) (w : W) :
  Forall (fun e => forall u, u ∈ event_uids e -> u ∈ uids)
    (events_of (post_consume env a M uids parameter w)).
Proof.
  assert (forall e, (forall u, u ∈ event_uids e -> u ∈ uids) ->
            Forall (fun e => forall u, u ∈ event_uids e -> u ∈ uids)
              (events_of (call env e w))) as Hcall.
  { intros e He. unfold call, events_of.
    destruct (respond env w e) as [w1 r]. by repeat constructor. }
  destruct a; cbn [post_consume]; try by apply Hcall.
  destruct (re_search_gmail (_host M)); [|by apply Hcall].
  destruct (store_labels_run env keyword uids w) as (n & -> & _).
  apply Forall_forall. intros e (u & -> & Hu)%list_elem_of_fmap u'.
  cbn [store_label event_uids]. intros ->%list_elem_of_singleton.
  by apply (subseteq_take n uids).
Qed.

(** The events of a rule are events that are not commands of the action,
    followed by the commands of the action, which run only at the end of
    a pass that fetched its messages without an error. *)
Lemma handle_mail_rule_reads_then_acts (M : MailBox) (rule : MailRule) (w : W) :
  exists reads acts,
    events_of (handle_mail_rule env M rule w) = reads ++ acts /\
    Forall (fun e => action_event e = false) reads /\
    (acts = [] \/
     exists w1 c w2 fetched w3 t3 cs,
       respond env w (FolderSet (folder rule)) = (w1, Ok tt) /\
       make_criterias (today env w1) rule = Ok c /\
       respond_fetch env w1 (criterias_imap c) false (character_set (account rule))
         = (w2, Ok fetched) /\
       fetch_interrupted fetched = None /\
       handle_messages env rule (fetched_messages fetched) no_messages_yet w2
         = (w3, t3, Ok cs) /\
       acts = events_of (post_consume env (get_rule_action rule) M
                           (post_consume_messages cs) (action_parameter rule) w3)).
Proof.
  rewrite handle_mail_rule_paths.
  pose proof (emits_select_folder (fun e => action_event e = false) rule
                ltac:(done) ltac:(done) ltac:(done) w) as Hsel.
  pose proof (select_folder_run env rule w) as Hrun.
  destruct (select_folder env rule w) as [[w1 t1] [[]|e]]; unfold events_of in *;
    cbn [fst snd] in Hsel.
  2: { exists (selecting_log rule :: t1), []. rewrite app_nil_r.
       split; [done|]. split; [by constructor|by left]. }
  assert (respond env w (FolderSet (folder rule)) = (w1, Ok tt)) as Hset.
  { destruct (respond env w (FolderSet (folder rule))) as [w1' [[]|e]].
    - by injection Hrun as -> _.
    - by destruct (is_class MailboxFolderSelectError e). }
  destruct (make_criterias (today env w1) rule) as [c|e] eqn:Hc.
  2: { exists (selecting_log rule :: t1), []. rewrite app_nil_r.
       split; [done|]. split; [by constructor|by left]. }
  cbv zeta.
  destruct (respond_fetch env w1 (criterias_imap c) false _)
    as [w2 [fetched|e]] eqn:Hfetch.
  2: { eexists _, []. rewrite app_nil_r. split; [done|].
       split; [|by left]. constructor; [done|].
       apply Forall_app. split; [done|by repeat constructor]. }
  pose proof (emits_handle_messages env rule (fetched_messages fetched)
                no_messages_yet w2) as Hem.
  unfold events_of in Hem.
  destruct (handle_messages env rule (fetched_messages fetched) no_messages_yet w2)
    as [[w3 t3] [cs|e]] eqn:Hloop; cbn [fst snd] in Hem.
  2: { eexists _, []. rewrite app_nil_r. split; [done|].
       split; [|by left]. constructor; [done|].
       apply Forall_app. split; [done|]. apply Forall_app.
       split; [by repeat constructor|].
       eapply Forall_impl; [exact Hem|]. intros e' He'. by destruct e'. }
  assert (Forall (fun e => action_event e = false) t3) as Hpipe.
  { eapply Forall_impl; [exact Hem|]. intros e' He'. by destruct e'. }
  destruct (fetch_interrupted fetched) as [e|] eqn:Hint.
  { eexists _, []. rewrite app_nil_r. split; [done|]. split; [|by left].
    constructor; [done|]. apply Forall_app. split; [done|].
    apply Forall_app. split; [by repeat constructor|done]. }
  destruct (post_consume env (get_rule_action rule) M (post_consume_messages cs)
              (action_parameter rule) w3) as [[w4 t4] r4] eqn:Hact.
  exists (selecting_log rule
          :: t1 ++ [Log "debug"
                      ("Rule " +++ rule_str rule
                       +++ ": Searching folder with criteria "
                       +++ str_query env (criterias_imap c));
                    Fetch (criterias_imap c) false (character_set (account rule))]
             ++ t3 ++ action_logs rule cs), t4.
  cbn [fst snd]. split; [|split].
  - rewrite <- (app_comm_cons _ t4 (selecting_log rule)). f_equal.
    by rewrite <- !app_assoc.
  - constructor; [done|]. apply Forall_app. split; [done|].
    apply Forall_app. split; [by repeat constructor|].
    apply Forall_app. split; [done|by repeat constructor].
  - right. exists w1, c, w2, fetched, w3, t3, cs.
    repeat split; try done. by rewrite Hact.
Qed.

(** X13.  In every pass of a rule, whatever fails, the commands of the
    action (delete, flag, move, store) come last: nothing the rule does
    after the first of them is anything but such a command, so every
    selection, fetch, sniff, write and dispatch of the pass precedes
    them. *)
Theorem actions_follow_reads (M : MailBox) (rule : MailRule) (w : W) :
  exists reads acts,
    events_of (handle_mail_rule env M rule w) = reads ++ acts /\
    Forall (fun e => action_event e = false) reads /\
    Forall (fun e => action_event e = true) acts.
Proof.
  destruct (handle_mail_rule_reads_then_acts M rule w)
    as (reads & acts & Hev & Hreads & Hacts).
  exists reads, acts. split; [exact Hev|]. split; [exact Hreads|].
  destruct Hacts as [->|(w1 & c & w2 & fetched & w3 & t3 & cs & _ & _ & _ & _ & _ & ->)];
    [constructor|apply emits_post_consume].
Qed.

(** X14.  Every uid that any command of a rule's pass names is the uid
    of a message the pass fetched and whose handling completed with a
    positive count: a rule never deletes, flags, moves or labels anything
    else. *)
Theorem rule_acts_on_dispatched_only (M : MailBox) (rule : MailRule) (w : W)
    (e : event) (u : string) :
  e ∈ events_of (handle_mail_rule env M rule w) ->
  u ∈ event_uids e ->
  exists w1 c w2 fetched m n,
    respond env w (FolderSet (folder rule)) = (w1, Ok tt) /\
    make_criterias (today env w1) rule = Ok c /\
    respond_fetch env w1 (criterias_imap c) false (character_set (account rule))
      = (w2, Ok fetched) /\
    (m, Ok n) ∈ message_results env rule (fetched_messages fetched) w2 /\
    (0 < n)%nat /\ uid m = u.
Proof.
  destruct (handle_mail_rule_reads_then_acts M rule w)
    as (reads & acts & -> & Hreads & Hacts).
  intros [He|He]%elem_of_app Hu.
  { rewrite Forall_forall in Hreads. rewrite (event_uids_action e) in Hu.
    - by apply elem_of_nil in Hu.
    - by apply Hreads. }
  destruct Hacts as [->|(w1 & c & w2 & fetched & w3 & t3 & cs
                         & Hset & Hc & Hfetch & _ & Hloop & ->)].
  { by apply elem_of_nil in He. }
  pose proof (post_consume_uids (get_rule_action rule) M (post_consume_messages cs)
                (action_parameter rule) w3) as Huids.
  rewrite Forall_forall in Huids. apply (Huids e He) in Hu.
  destruct (handle_messages_run env rule (fetched_messages fetched)
              no_messages_yet w2) as (w3' & t3' & cs' & Hloop' & Hbatch & _).
  rewrite Hloop in Hloop'. injection Hloop' as _ _ <-.
  rewrite Hbatch in Hu. cbn [no_messages_yet post_consume_messages app] in Hu.
  apply elem_of_dispatched_uids in Hu as (m & n & Hin & Hn & Hm).
  by exists w1, c, w2, fetched, m, n.
Qed.

(** X15.  A pass that fetches no message still runs the action, on the
    empty batch: one delete, flag or move command that names no uid,
    except for Tag on a Gmail host, which sends one command per uid and
    so sends none. *)
Theorem empty_fetch_runs_action (M : MailBox) (rule : MailRule) (w w1 w2 : W)
    (c : gmap string crit_value) (fetched : Fetched) :
  respond env w (FolderSet (folder rule)) = (w1, Ok tt) ->
  make_criterias (today env w1) rule = Ok c ->
  respond_fetch env w1 (criterias_imap c) false (character_set (account rule))
    = (w2, Ok fetched) ->
  fetched_messages fetched = [] ->
  fetch_interrupted fetched = None ->
  events_of (handle_mail_rule env M rule w)
  = search_events env rule c ++ action_logs rule no_messages_yet
    ++ match action rule with
       | DELETE => [Delete []]
       | MARK_READ => [Flag [] [SEEN] true]
       | MOVE => [Move [] (action_parameter rule)]
       | FLAG => [Flag [] [FLAGGED] true]
       | TAG =>
           if re_search_gmail (_host M) then []
           else [Flag [] [action_parameter rule] true]
       end.
Proof.
  intros Hset Hc Hfetch Hnone Hint.
  rewrite (handle_mail_rule_run env M rule w w1 w2 w2 c fetched [] no_messages_yet
             Hset Hc Hfetch Hint) by by rewrite Hnone.
  unfold get_rule_action, events_of. cbn [no_messages_yet post_consume_messages].
  destruct (action rule); cbn [post_consume store_labels]; unfold call, ret.
  5: destruct (re_search_gmail (_host M)); [done|].
  all: by match goal with
          | |- context [respond env ?w' ?e] => destruct (respond env w' e) as [w3 r]
          end.
Qed.

(** X16.  The count a rule returns never exceeds the number of dispatch
    requests its pass sent. *)
Theorem rule_count_within_dispatches (M : MailBox) (rule : MailRule) (w : W)
    (n : nat) :
  result_of (handle_mail_rule env M rule w) = Ok n ->
  (n <= length (filter (fun e => is_async_task e = true)
                  (events_of (handle_mail_rule env M rule w))))%nat.
Proof.
  rewrite handle_mail_rule_paths. unfold result_of, events_of.
  destruct (select_folder env rule w) as [[w1 t1] [[]|e]]; [|done].
  destruct (make_criterias (today env w1) rule) as [c|e]; [|done].
  cbv zeta.
  destruct (respond_fetch env w1 (criterias_imap c) false _)
    as [w2 [fetched|e]]; [|done].
  destruct (handle_messages env rule (fetched_messages fetched) no_messages_yet w2)
    as [[w3 t3] [cs|e]] eqn:Hloop; [|done].
  destruct (fetch_interrupted fetched) as [e|]; [done|].
  destruct (post_consume env (get_rule_action rule) M (post_consume_messages cs)
              (action_parameter rule) w3) as [[w4 t4] [[]|e]]; [|done].
  cbn [fst snd]. intros [= <-]. apply handle_messages_count in Hloop.
  cbn [no_messages_yet total_processed_files] in Hloop.
  rewrite filter_cons_False by done. rewrite !filter_app, !length_app. lia.
Qed.

End RuleActions.

Lemma rule_acts_on_dispatched_only_witness :
  let env := sample_env sample_mailbox [] in
  let rule := sample_rule MARK_READ "" in
  exists w1 c w2 fetched m n,
    respond env "" (FolderSet (folder rule)) = (w1, Ok tt) /\
    make_criterias (today env w1) rule = Ok c /\
    respond_fetch env w1 (criterias_imap c) false (character_set (account rule))
      = (w2, Ok fetched) /\
    (m, Ok n) ∈ message_results env rule (fetched_messages fetched) w2 /\
    (0 < n)%nat /\ uid m = "1".
Proof.
  intros env rule.
  apply (rule_acts_on_dispatched_only env sample_mailbox_host rule ""
           (Flag ["1"] [SEEN] true) "1"); in_events.
Defined.

Lemma empty_fetch_runs_action_witness :
  let env := sample_env sample_mailbox [] in
  let rule := with_folder "Archive" 0 (sample_rule DELETE "") in
  events_of (handle_mail_rule env sample_mailbox_host rule "")
  = search_events env rule (sample_criteria DeleteMailAction)
    ++ action_logs rule no_messages_yet ++ [Delete []].
Proof.
  intros env rule.
  apply (empty_fetch_runs_action env sample_mailbox_host rule "" "Archive" "Archive"
           (sample_criteria DeleteMailAction)
           {| fetched_messages := []; fetch_interrupted := None |}).
  - reflexivity.
  - vm_compute. reflexivity.
  - reflexivity.
  - reflexivity.
  - reflexivity.
Defined.

Lemma rule_count_within_dispatches_witness :
  let env := sample_env sample_mailbox [] in
  let run := handle_mail_rule env sample_mailbox_host (sample_rule MARK_READ "") "" in
  result_of run = Ok 1%nat /\
  length (filter (fun e => is_async_task e = true) (events_of run)) = 2%nat /\
  (1 <= length (filter (fun e => is_async_task e = true) (events_of run)))%nat.
Proof.
  intros env run. split; [reflexivity|]. split; [vm_compute; reflexivity|].
  apply (rule_count_within_dispatches env sample_mailbox_host
           (sample_rule MARK_READ "") ""). reflexivity.
Defined.

(** ** What a message's attachments lead to *)

Section Attachments.

Context {W : Type} (env : Env W).

Lemma substring_length (n : nat) (s : string) :
  (String.length (String.substring 0 n s) <= n)%nat.
Proof.
  revert s. induction n as [|n IH]; intros [|c s]; cbn; try lia.
  specialize (IH s). lia.
Qed.

(** X17.  Only attachments that pass the disposition test and the
    filename test have their payload sniffed or written to a file: every
    payload [handle_message] hands to [magic.from_buffer] or writes is the
    payload of such an attachment of the message. *)
Theorem filtered_attachments_untouched (m : MailMessage) (rule : MailRule)
    (w : W) (e : event) (content : list Byte.byte) :
  e ∈ events_of (handle_message env m rule w) ->
  event_payload e = Some content ->
  exists att, att ∈ attachments m /\ passes_filters rule att /\ payload att = content.
Proof.
  set (P := fun (atts : list MailAttachment) (e : event) => forall content, event_payload e = Some content ->
              exists att : MailAttachment,
                att ∈ atts /\ passes_filters rule att /\ payload att = content).
  assert (forall atts corr tags doc n,
            emits (P atts) (handle_attachments env m rule corr tags doc atts n))
    as Hatts.
  { intros atts corr tags doc. induction atts as [|att atts IH]; intros n;
      [apply emits_ret|].
    assert (forall k, emits (P (att :: atts))
                        (handle_attachments env m rule corr tags doc atts k)) as IH'.
    { intros k. eapply emits_weaken; [|apply IH]. intros e' He' b Hb.
      destruct (He' b Hb) as (a & Ha & Hpass & Hpay). exists a.
      split; [by right|done]. }
    assert (forall l msg, P (att :: atts) (Log l msg)) as Hlog by done.
    cbn [handle_attachments].
    destruct (skipped_by_disposition rule att) eqn:Hd.
    { apply emits_bind; [by apply emits_log|]. intros _. apply IH'. }
    destruct (skipped_by_filename rule att) eqn:Hf; [apply IH'|].
    assert (forall f, P (att :: atts) (WriteFile f (payload att))) as Hwrite.
    { intros f b [= <-]. exists att. split; [by left|done]. }
    apply emits_bind.
    { apply emits_from_buffer. intros b [= <-]. exists att. split; [by left|done]. }
    intros mime. destruct (is_mime_type_supported env mime).
    - apply emits_bind; [by apply emits_call|]. intros _.
      apply emits_bind; [by apply emits_mkstemp|]. intros tmp.
      apply emits_bind; [by apply emits_call|]. intros _.
      apply emits_bind; [by apply emits_log|]. intros _.
      apply emits_bind; [by apply emits_call|]. intros _.
      apply IH'.
    - apply emits_bind; [by apply emits_log|]. intros _. apply IH'. }
  assert (emits (P (attachments m)) (handle_message env m rule)) as Hm.
  { unfold handle_message. destruct (attachments m) as [|a atts] eqn:Ha;
      [apply emits_ret|].
    apply emits_bind; [by apply emits_log|]. intros _.
    apply emits_bind; [by apply emits_get_correspondent|]. intros corr.
    apply Hatts. }
  intros He Hcontent. specialize (Hm w). rewrite Forall_forall in Hm.
  by apply (Hm e He).
Qed.

Lemma handle_attachments_bound m rule corr tags doc atts n w w' t n' :
  handle_attachments env m rule corr tags doc atts n w = (w', t, Ok n') ->
  (n' <= n + length atts)%nat.
Proof.
  revert n w w' t n'. induction atts as [|att atts IH]; intros n w w' t n'.
  - intros [= <- <- <-]. cbn. lia.
  - cbn [handle_attachments length].
    destruct (skipped_by_disposition rule att).
    { rewrite bind_run. unfold log.
      destruct (handle_attachments env m rule corr tags doc atts n w)
        as [[w2 t2] r2] eqn:Hrest.
      intros [= <- <- ->]. apply IH in Hrest. lia. }
    destruct (skipped_by_filename rule att).
    { intros Hrest. apply IH in Hrest. lia. }
    rewrite bind_run. unfold from_buffer.
    destruct (respond_from_buffer env w (payload att)) as [w1 [mime|e]]; [|done].
    destruct (is_mime_type_supported env mime).
    + rewrite bind_run. unfold call at 1.
      destruct (respond env w1 _) as [w2 [[]|e]]; [|done].
      rewrite bind_run. unfold mkstemp.
      destruct (respond_mkstemp env w2 _ _) as [w3 [tmp|e]]; [|done].
      rewrite bind_run. unfold call at 1.
      destruct (respond env w3 _) as [w4 [[]|e]]; [|done].
      rewrite bind_run. unfold log at 1.
      rewrite bind_run. unfold call at 1.
      destruct (respond env w4 _) as [w5 [[]|e]]; [|done].
      destruct (handle_attachments env m rule corr tags doc atts (S n) w5)
        as [[w6 t6] r6] eqn:Hrest.
      intros [= <- <- ->]. apply IH in Hrest. lia.
    + rewrite bind_run. unfold log.
      destruct (handle_attachments env m rule corr tags doc atts n w1)
        as [[w2 t2] r2] eqn:Hrest.
      intros [= <- <- ->]. apply IH in Hrest. lia.
Qed.

(** X18.  The count [handle_message] returns is at most the number of
    attachments of the message. *)
Theorem message_count_within_attachments (m : MailMessage) (rule : MailRule)
    (w : W) (n : nat) :
  result_of (handle_message env m rule w) = Ok n ->
  (n <= length (attachments m))%nat.
Proof.
  unfold handle_message, result_of. destruct (attachments m) as [|a atts] eqn:Ha.
  { intros [= <-]. cbn. lia. }
  rewrite bind_run. unfold log at 1. rewrite bind_run.
  destruct (get_correspondent env m rule w) as [[w1 t1] [corr|e]]; [|done].
  destruct (handle_attachments env m rule corr _ _ (a :: atts) 0 w1)
    as [[w2 t2] [k|e]] eqn:Hatts; [|done].
  cbn [snd]. intros [= <-]. apply handle_attachments_bound in Hatts. lia.
Qed.

Lemma handle_attachments_disposition m m' rule corr tags doc atts atts' :
  attachment_type rule = EVERYTHING ->
  subject m = subject m' -> from_ m = from_ m' ->
  Forall2 same_but_disposition atts atts' ->
  forall n,
    handle_attachments env m rule corr tags doc atts n
    = handle_attachments env m' rule corr tags doc atts' n.
Proof.
  intros Hall Hs Hf Hatts. induction Hatts as [|a b atts atts' (Hn & Ht & Hp) _ IH];
    intros n; [done|].
  cbn [handle_attachments].
  unfold skipped_by_disposition, skipped_by_filename, get_title.
  rewrite Hall, !andb_false_r, Hs, Hf, Hn, Hp, !IH. reflexivity.
Qed.

(** X19.  For a rule that processes every part of a mail, the content
    disposition of the parts plays no role: [handle_message] leaves the
    same world, causes the same events and returns the same count for two
    messages that differ only in the dispositions of their attachments. *)
Theorem disposition_ignored_for_everything (rule : MailRule) (m m' : MailMessage)
    (w : W) :
  attachment_type rule = EVERYTHING ->
  same_but_dispositions m m' ->
  handle_message env m rule w = handle_message env m' rule w.
Proof.
  intros Hall (_ & Hs & Hf & Hv & Hatts). unfold handle_message.
  assert (Hc : get_correspondent env m rule = get_correspondent env m' rule).
  { unfold get_correspondent. by rewrite Hf, Hv. }
  destruct (attachments m) as [|a atts], (attachments m') as [|b atts'];
    try done; try (by inversion Hatts).
  rewrite !bind_run, Hs, Hf, Hc, (Forall2_length _ _ _ Hatts).
  unfold log. rewrite !bind_run.
  destruct (get_correspondent env m' rule w) as [[w1 t1] [corr|e]]; [|done].
  by rewrite (handle_attachments_disposition m m' rule corr _ _ _ _ Hall Hs Hf Hatts).
Qed.

End Attachments.

Lemma filtered_attachments_untouched_witness :
  let env := sample_env sample_mailbox [] in
  let m := sample_message "8" [inline_attachment "logo.pdf" [Byte.x00];
                               sample_attachment "a.pdf" "application/pdf" pdf_magic] in
  exists att,
    att ∈ attachments m /\ passes_filters (sample_rule DELETE "") att /\
    payload att = pdf_magic.
Proof.
  intros env m.
  apply (filtered_attachments_untouched env m (sample_rule DELETE "") "INBOX"
           (FromBuffer pdf_magic)); [in_events|reflexivity].
Defined.

Lemma message_count_within_attachments_witness :
  let env := sample_env sample_mailbox [] in
  let m := sample_message "8" [inline_attachment "logo.pdf" [Byte.x00];
                               sample_attachment "a.pdf" "application/pdf" pdf_magic] in
  result_of (handle_message env m (sample_rule DELETE "") "INBOX") = Ok 1%nat /\
  (1 <= length (attachments m))%nat.
Proof.
  intros env m. split; [reflexivity|].
  apply (message_count_within_attachments env m (sample_rule DELETE "") "INBOX").
  reflexivity.
Defined.

Lemma disposition_ignored_for_everything_witness :
  let env := sample_env sample_mailbox [] in
  let rule := with_attachment_type EVERYTHING (sample_rule DELETE "") in
  handle_message env (sample_message "8" [inline_attachment "a.pdf" pdf_magic])
    rule "INBOX"
  = handle_message env
      (sample_message "8" [sample_attachment "a.pdf" "application/pdf" pdf_magic])
      rule "INBOX".
Proof.
  intros env rule. apply (disposition_ignored_for_everything env rule).
  - reflexivity.
  - repeat split; try reflexivity. by repeat constructor.
Defined.

(** ** Dispatch requests *)

Section Settings.

Context {W : Type} (env : Env W).

Lemma emits_handle_message_settings (m : MailMessage) (rule : MailRule) :
  emits (dispatches (rule_settings rule)) (handle_message env m rule).
Proof.
  intros w. unfold handle_message, events_of.
  destruct (attachments m) as [|a atts] eqn:Ha; [constructor|].
  rewrite bind_run. unfold log at 1. rewrite bind_run.
  pose proof (emits_get_correspondent env (dispatches (rule_settings rule))
                m rule ltac:(done) ltac:(done) w) as Hc.
  unfold events_of in Hc.
  destruct (get_correspondent env m rule w) as [[w1 t1] [corr|e]] eqn:Hcorr;
    cbn [fst snd] in Hc |- *; [|by constructor].
  assert (emits (dispatches (rule_settings rule))
            (handle_attachments env m rule corr (assign_tags rule)
               (assign_document_type rule) (a :: atts) 0)) as Hatts.
  { apply emits_dispatches_handle_attachments. intros att tmp _.
    unfold rule_settings.
    cbn [override_tag_ids override_document_type_id task_name
         override_correspondent_id].
    split; [done|]. split; [done|]. split; [apply substring_length|].
    unfold get_correspondent in Hcorr.
    destruct (assign_correspondent_from rule); try done.
    - by injection Hcorr as _ _ <-.
    - by injection Hcorr as _ _ <-. }
  specialize (Hatts w1). unfold events_of in Hatts.
  destruct (handle_attachments env m rule corr _ _ (a :: atts) 0 w1) as [[w2 t2] r2].
  cbn [fst snd app] in *. constructor; [done|]. by apply Forall_app.
Qed.

Lemma emits_handle_mail_rule_settings (M : MailBox) (rule : MailRule) :
  emits (dispatches (rule_settings rule)) (handle_mail_rule env M rule).
Proof.
  rewrite handle_mail_rule_phases.
  apply emits_bind; [by apply emits_log|]. intros _.
  apply emits_bind; [by apply emits_select_folder|]. intros _.
  unfold search_and_consume.
  apply emits_bind; [intros w; constructor|]. intros now.
  apply emits_bind; [apply emits_lift|]. intros c.
  apply emits_bind; [by apply emits_log|]. intros _.
  apply emits_bind.
  { apply emits_try_except; [by apply emits_fetch|].
    intros e h [= <-]. apply emits_raise. }
  intros fetched. unfold consume_fetched. apply emits_bind.
  { generalize {| post_consume_messages := []; mails_processed := 0%nat;
                  total_processed_files := 0%nat |}.
    induction (fetched_messages fetched) as [|m messages IH]; intros cs;
      [apply emits_ret|].
    cbn [handle_messages]. apply emits_bind; [|intros c'; apply IH].
    apply emits_try_except.
    - apply emits_bind; [apply emits_handle_message_settings|].
      intros n. apply emits_ret.
    - intros e h [= <-]. apply emits_bind; [by apply emits_log|].
      intros _. apply emits_ret. }
  intros cs. apply emits_bind.
  { destruct (fetch_interrupted fetched); [apply emits_raise|apply emits_ret]. }
  intros _. apply emits_bind; [by apply emits_log|]. intros _.
  apply emits_bind; [by apply emits_log|]. intros _.
  apply emits_bind; [|intros _; apply emits_ret].
  apply emits_try_except.
  - eapply emits_weaken; [|apply emits_post_consume]. intros e He. by destruct e.
  - intros e h [= <-]. apply emits_raise.
Qed.

(** X20.  Every dispatch request of a rule's pass carries the rule's tag
    ids and the id of the rule's document type (or none), and a task name
    of at most 100 characters; it carries no correspondent when the rule
    assigns none, and the rule's fixed correspondent when the rule assigns
    a fixed one. *)
Theorem dispatch_carries_rule_settings (M : MailBox) (rule : MailRule) (w : W)
    (t : ConsumeTask) :
  AsyncTask t ∈ events_of (handle_mail_rule env M rule w) ->
  rule_settings rule t.
Proof.
  intros Hin. pose proof (emits_handle_mail_rule_settings M rule w) as Hem.
  rewrite Forall_forall in Hem. exact (Hem _ Hin).
Qed.

End Settings.

Lemma dispatch_carries_rule_settings_witness :
  let env := sample_env small_mailbox [] in
  let rule := with_assignments [3; 5] (Some {| document_type_id := 2 |})
                (Some {| correspondent_id := 9 |}) (sample_rule DELETE "") in
  rule_settings rule
    {| path := "/tmp/paperless/paperless-mail-x";
       override_filename := "a.pdf";
       override_title := "Invoice";
       override_correspondent_id := Some 9;
       override_document_type_id := Some 2;
       override_tag_ids := [3; 5];
       task_name := "a.pdf" |}.
Proof.
  intros env rule.
  apply (dispatch_carries_rule_settings env sample_mailbox_host rule "").
  in_events.
Defined.

(** ** The order of a dispatch *)

Section DispatchOrder.

Context {W : Type} (env : Env W).

Lemma split_after_event (a : event) (r pre : list event) (t : ConsumeTask)
    (post : list event) :
  is_async_task a = false ->
  a :: r = pre ++ AsyncTask t :: post ->
  exists pre0, pre = a :: pre0 /\ r = pre0 ++ AsyncTask t :: post.
Proof.
  intros Ha. destruct pre as [|p pre]; cbn [app].
  - intros [= -> _]. done.
  - intros [= <- ->]. by exists pre.
Qed.

Ltac peel H :=
  apply split_after_event in H as (? & -> & H); [|done].

Ltac no_dispatch H :=
  unfold events_of in H; cbn [fst snd app] in H; repeat peel H;
  match type of H with [] = ?pre ++ _ => by destruct pre end.

Lemma handle_attachments_dispatch_block m rule corr tags doc atts n w
    pre t post :
  events_of (handle_attachments env m rule corr tags doc atts n w)
    = pre ++ AsyncTask t :: post ->
  exists pre' att,
    att ∈ atts /\ passes_filters rule att /\
    pre = pre' ++ dispatch_block env m rule att (path t) /\
    override_filename t = sanitize_filename env (filename att) /\
    override_title t = get_title m att rule /\
    task_name t = String.substring 0 100 (filename att).
Proof.
  revert n w pre. induction atts as [|att atts IH]; intros n w pre H.
  { cbn in H. by destruct pre. }
  assert (forall k w' pre0,
            events_of (handle_attachments env m rule corr tags doc atts k w')
              = pre0 ++ AsyncTask t :: post ->
            forall front, exists pre' a,
              a ∈ att :: atts /\ passes_filters rule a /\
              front ++ pre0 = pre' ++ dispatch_block env m rule a (path t) /\
              override_filename t = sanitize_filename env (filename a) /\
              override_title t = get_title m a rule /\
              task_name t = String.substring 0 100 (filename a)) as IH'.
  { intros k w' pre0 Hrest front.
    destruct (IH k w' pre0 Hrest) as (pre' & a & Hin & Hpass & -> & Hfields).
    exists (front ++ pre'), a. split; [by right|]. split; [done|].
    split; [by rewrite app_assoc|done]. }
  cbn [handle_attachments] in H.
  destruct (skipped_by_disposition rule att) eqn:Hd.
  { rewrite bind_run in H. unfold log in H.
    destruct (handle_attachments env m rule corr tags doc atts n w)
      as [[w2 t2] r2] eqn:Hrest.
    unfold events_of in H. cbn [fst snd app] in H. peel H.
    apply (IH' n w _) with (front := [_]). unfold events_of. by rewrite Hrest. }
  destruct (skipped_by_filename rule att) eqn:Hf.
  { by apply (IH' n w pre H []). }
  rewrite bind_run in H. unfold from_buffer in H.
  destruct (respond_from_buffer env w (payload att)) as [w1 [mime|e]];
    [|no_dispatch H].
  destruct (is_mime_type_supported env mime).
  - rewrite bind_run in H. unfold call at 1 in H.
    destruct (respond env w1 _) as [w2 [[]|e]]; [|no_dispatch H].
    rewrite bind_run in H. unfold mkstemp in H.
    destruct (respond_mkstemp env w2 _ _) as [w3 [tmp|e]]; [|no_dispatch H].
    rewrite bind_run in H. unfold call at 1 in H.
    destruct (respond env w3 _) as [w4 [[]|e]]; [|no_dispatch H].
    rewrite bind_run in H. unfold log at 1 in H.
    rewrite bind_run in H. unfold call at 1 in H.
    destruct (respond env w4 _) as [w5 [[]|e]].
    + destruct (handle_attachments env m rule corr tags doc atts (S n) w5)
        as [[w6 t6] r6] eqn:Hrest.
      unfold events_of in H. cbn [fst snd app] in H. do 5 peel H.
      match type of H with _ = ?p ++ _ => destruct p as [|p pre6] end;
        cbn [app] in H.
      * injection H as <- _. exists [], att. split; [by left|]. by repeat split.
      * injection H as <- H.
        apply (IH' (S n) w5 pre6) with (front := [_; _; _; _; _; _]).
        unfold events_of. by rewrite Hrest.
    + unfold events_of in H. cbn [fst snd app] in H. do 5 peel H.
      match type of H with _ = ?p ++ _ => destruct p as [|p pre6] end;
        cbn [app] in H.
      * injection H as <- _. exists [], att. split; [by left|]. by repeat split.
      * injection H as _ H. by destruct pre6.
  - rewrite bind_run in H. unfold log in H.
    destruct (handle_attachments env m rule corr tags doc atts n w1)
      as [[w2 t2] r2] eqn:Hrest.
    unfold events_of in H. cbn [fst snd app] in H. do 2 peel H.
    apply (IH' n w1 _) with (front := [_; _]). unfold events_of. by rewrite Hrest.
Qed.

(** X21.  Every dispatch request [handle_message] sends is for an
    attachment of the message that passed the disposition test and the
    filename test, and comes right after that attachment was handled:
    its payload sniffed, the scratch directory made, a temporary file
    made, that same payload written to the file the request names, and
    the dispatch logged.  The request carries the sanitized file name, the
    title and the first 100 characters of the name of that attachment. *)
Theorem dispatch_follows_write (m : MailMessage) (rule : MailRule) (w : W)
    (pre : list event) (t : ConsumeTask) (post : list event) :
  events_of (handle_message env m rule w) = pre ++ AsyncTask t :: post ->
  exists pre' att,
    att ∈ attachments m /\ passes_filters rule att /\
    pre = pre' ++ dispatch_block env m rule att (path t) /\
    override_filename t = sanitize_filename env (filename att) /\
    override_title t = get_title m att rule /\
    task_name t = String.substring 0 100 (filename att).
Proof.
  unfold handle_message. destruct (attachments m) as [|a atts] eqn:Ha.
  { intros H. cbn in H. by destruct pre. }
  rewrite bind_run. unfold log at 1. rewrite bind_run.
  pose proof (emits_get_correspondent env (fun e => is_async_task e = false)
                m rule ltac:(done) ltac:(done) w) as Hc.
  unfold events_of in Hc |- *.
  destruct (get_correspondent env m rule w) as [[w1 t1] [corr|e]];
    cbn [fst snd] in Hc.
  - destruct (handle_attachments env m rule corr (assign_tags rule)
                (assign_document_type rule) (a :: atts) 0 w1)
      as [[w2 t2] r2] eqn:Hatts.
    cbn [fst snd app]. intros H. peel H.
    assert (exists pre0, x = t1 ++ pre0 /\ t2 = pre0 ++ AsyncTask t :: post)
      as (pre0 & -> & Ht2).
    { clear Hatts. revert x H. induction Hc as [|p t1 Hp _ IH]; intros x H.
      - by exists x.
      - cbn [app] in H. peel H. destruct (IH _ H) as (pre0 & -> & Ht2).
        by exists pre0. }
    destruct (handle_attachments_dispatch_block m rule corr (assign_tags rule)
                (assign_document_type rule) (a :: atts) 0 w1 pre0 t post)
      as (pre' & att & Hin & Hpass & -> & Hfields).
    { unfold events_of. by rewrite Hatts. }
    eexists (_ :: t1 ++ pre'), att. split; [done|]. split; [done|].
    split; [|done]. cbn [app]. by rewrite <- app_assoc.
  - cbn [fst snd app]. intros H. peel H. exfalso.
    revert x H. induction Hc as [|p t1 Hp _ IH]; intros x H.
    + by destruct x.
    + cbn [app] in H. peel H. by apply (IH _ H).
Qed.

End DispatchOrder.

Lemma dispatch_follows_write_witness :
  let env := sample_env sample_mailbox [] in
  let rule := sample_rule DELETE "" in
  let att := sample_attachment "b.pdf" "application/pdf" pdf_magic in
  let task := {| path := "/tmp/paperless/paperless-mail-x";
                 override_filename := "b.pdf";
                 override_title := "Invoice";
                 override_correspondent_id := None;
                 override_document_type_id := None;
                 override_tag_ids := [];
                 task_name := "b.pdf" |} in
  exists pre' a,
    a ∈ attachments partly_written_message /\ passes_filters rule a /\
    Log "debug"
      "Rule acct.rule: Processing mail Invoice from billing@example.org with 2 attachment(s)"
    :: dispatch_block env partly_written_message rule att (path task)
    = pre' ++ dispatch_block env partly_written_message rule a (path task) /\
    override_filename task = sanitize_filename env (filename a) /\
    override_title task = get_title partly_written_message a rule /\
    task_name task = String.substring 0 100 (filename a).
Proof.
  intros env rule att task.
  apply (dispatch_follows_write env partly_written_message rule "INBOX" _ task
           [FromBuffer (pdf_magic ++ [Byte.x0a]); Makedirs "/tmp/paperless";
            Mkstemp "paperless-mail-" "/tmp/paperless";
            WriteFile "/tmp/paperless/paperless-mail-x" (pdf_magic ++ [Byte.x0a])]).
  vm_compute. reflexivity.
Defined.

(** ** The mailbox session *)

Section Session.

Context {W : Type} (env : Env W).



End Session.

(** ** The loops over attachments and messages *)

Section Loops.

Context {W : Type} (env : Env W).

Lemma omap_sniffed_cons (e : event) (l : list event) :
  omap sniffed (e :: l)
  = match sniffed e with
    | Some buffer => buffer :: omap sniffed l
    | None => omap sniffed l
    end.
Proof. reflexivity. Qed.

Ltac stopped :=
  intros [= <- <- <-]; exists 1%nat; split; [reflexivity|done].

Lemma handle_attachments_sniffs m rule corr tags doc atts n w w' t r :
  handle_attachments env m rule corr tags doc atts n w = (w', t, r) ->
  exists k,
    omap sniffed t = take k (map payload (filter (passes_filters rule) atts)) /\
    (forall n', r = Ok n' -> k = length (filter (passes_filters rule) atts)).
Proof.
  revert n w w' t r. induction atts as [|att atts IH]; intros n w w' t r.
  { intros [= <- <- <-]. exists 0%nat. by split. }
  cbn [handle_attachments].
  destruct (skipped_by_disposition rule att) eqn:Hd.
  { rewrite filter_cons_False by (intros [? ?]; congruence).
    rewrite bind_run. unfold log.
    destruct (handle_attachments env m rule corr tags doc atts n w)
      as [[w2 t2] r2] eqn:Hrest.
    intros [= <- <- <-]. destruct (IH _ _ _ _ _ Hrest) as (k & Hk & Hall).
    exists k. by split. }
  destruct (skipped_by_filename rule att) eqn:Hf.
  { rewrite filter_cons_False by (intros [? ?]; congruence). apply IH. }
  rewrite filter_cons_True by done. cbn [map].
  rewrite bind_run. unfold from_buffer.
  destruct (respond_from_buffer env w (payload att)) as [w1 [mime|e]]; [|stopped].
  destruct (is_mime_type_supported env mime).
  - rewrite bind_run. unfold call at 1.
    destruct (respond env w1 _) as [w2 [[]|e]]; [|stopped].
    rewrite bind_run. unfold mkstemp.
    destruct (respond_mkstemp env w2 _ _) as [w3 [tmp|e]]; [|stopped].
    rewrite bind_run. unfold call at 1.
    destruct (respond env w3 _) as [w4 [[]|e]]; [|stopped].
    rewrite bind_run. unfold log at 1.
    rewrite bind_run. unfold call at 1.
    destruct (respond env w4 _) as [w5 [[]|e]]; [|stopped].
    destruct (handle_attachments env m rule corr tags doc atts (S n) w5)
      as [[w6 t6] r6] eqn:Hrest.
    intros [= <- <- <-]. destruct (IH _ _ _ _ _ Hrest) as (k & Hk & Hall).
    exists (S k). cbn [app]. rewrite !omap_sniffed_cons. cbn [sniffed take].
    rewrite Hk. split; [done|]. intros n' Hn'. by rewrite (Hall n' Hn').
  - rewrite bind_run. unfold log.
    destruct (handle_attachments env m rule corr tags doc atts n w1)
      as [[w2 t2] r2] eqn:Hrest.
    intros [= <- <- <-]. destruct (IH _ _ _ _ _ Hrest) as (k & Hk & Hall).
    exists (S k). cbn [app]. rewrite !omap_sniffed_cons. cbn [sniffed take].
    rewrite Hk. split; [done|]. intros n' Hn'. by rewrite (Hall n' Hn').
Qed.

(** X23.  [handle_message] sniffs the attachments that pass the
    disposition test and the filename test in the order the message has
    them, each at most once, and none else; when it returns a count it has
    sniffed every one of them. *)
Theorem attachments_sniffed_in_order (m : MailMessage) (rule : MailRule) (w : W) :
  exists k,
    omap sniffed (events_of (handle_message env m rule w))
    = take k (map payload (filter (passes_filters rule) (attachments m))) /\
    (forall n, result_of (handle_message env m rule w) = Ok n ->
               k = length (filter (passes_filters rule) (attachments m))).
Proof.
  unfold events_of, result_of.
  destruct (handle_message env m rule w) as [[w' t] r] eqn:Hrun. cbn [fst snd].
  revert Hrun. unfold handle_message.
  destruct (attachments m) as [|a atts] eqn:Ha.
  { intros [= <- <- <-]. exists 0%nat. by split. }
  rewrite bind_run. unfold log at 1. rewrite bind_run.
  pose proof (emits_get_correspondent env (fun e => sniffed e = None)
                m rule ltac:(done) ltac:(done) w) as Hc.
  unfold events_of in Hc.
  destruct (get_correspondent env m rule w) as [[w1 t1] [corr|e]];
    cbn [fst snd] in Hc.
  - destruct (handle_attachments env m rule corr _ _ (a :: atts) 0 w1)
      as [[w2 t2] r2] eqn:Hatts.
    intros [= <- <- <-].
    destruct (handle_attachments_sniffs _ _ _ _ _ _ _ _ _ _ _ Hatts)
      as (k & Hk & Hall).
    exists k. split; [|done]. cbn [app].
    rewrite omap_sniffed_cons. cbn [sniffed]. rewrite omap_app, <- Hk.
    replace (omap sniffed t1) with (@nil (list Byte.byte)); [done|].
    clear -Hc. induction Hc as [|e t1 He _ IH]; [done|].
    rewrite omap_sniffed_cons. by rewrite He.
  - intros [= <- <- <-]. exists 0%nat. split; [|done]. cbn [app].
    rewrite omap_sniffed_cons. cbn [sniffed take].
    clear -Hc. induction Hc as [|e' t1 He _ IH]; [done|].
    rewrite omap_sniffed_cons. by rewrite He.
Qed.

(** X24.  The message loop lets no exception out and stops for none:
    every fetched message is handled, whatever became of the messages
    before it; for every message whose handling raises, the loop logs an
    error that names the rule, the uid of the message and the exception;
    and the number of mails it counts as processed is the number of
    messages whose handling completed. *)
Theorem message_failures_isolated (rule : MailRule) (messages : list MailMessage)
    (c : RuleCounters) (w : W) :
  let results := message_results env rule messages w in
  map fst results = messages /\
  exists w' t c',
    handle_messages env rule messages c w = (w', t, Ok c') /\
    mails_processed c' = (mails_processed c + completed_count results)%nat /\
    (forall m e, (m, Raise e) ∈ results -> message_error_log rule m e ∈ t).
Proof.
  cbv zeta. split.
  { revert w. induction messages as [|m messages IH]; intros w; [done|].
    cbn [message_results].
    destruct (handle_message env m rule w) as [[w1 t1] r1]. cbn [map fst].
    by rewrite IH. }
  destruct (handle_messages_run env rule messages c w)
    as (w' & t & c' & Hrun & _ & _ & Hcount).
  exists w', t, c'. split; [exact Hrun|]. split; [exact Hcount|].
  clear Hcount. revert c w w' t c' Hrun.
  induction messages as [|m messages IH]; intros c w w' t c' Hrun m0 e.
  { by intros ?%elem_of_nil. }
  cbn [handle_messages message_results] in *. rewrite bind_run in Hrun.
  unfold try_except at 1 in Hrun. rewrite bind_run in Hrun.
  destruct (handle_message env m rule w) as [[w1 t1] [n|e1]].
  - cbn [ret] in Hrun.
    match type of Hrun with
    | context [handle_messages env rule messages ?c1 w1] =>
        destruct (handle_messages env rule messages c1 w1)
          as [[w2 t2] r2] eqn:Hrest
    end.
    injection Hrun as <- <- ->. intros [[=]|Hin]%elem_of_cons.
    apply elem_of_app. right. by apply (IH _ _ _ _ _ Hrest).
  - cbn in Hrun.
    destruct (handle_messages env rule messages c w1) as [[w2 t2] r2] eqn:Hrest.
    injection Hrun as <- <- ->. intros [[= -> ->]|Hin]%elem_of_cons.
    + apply elem_of_app. left. apply elem_of_app. right.
      unfold message_error_log. by left.
    + apply elem_of_app. right. by apply (IH _ _ _ _ _ Hrest).
Qed.

End Loops.
